(** * gotty-client: the live terminal session engine

    A shallow embedding of package [gottyclient] (the websocket terminal
    client behind [uberterm]) and the properties its specification states
    about it: the two tag tables of the wire protocol, the poison channel
    that shuts the pump down, URL normalisation, the auth-token handshake
    and the four loops of the I/O pump.

    Conventions.  Go [string]s that carry text (URLs, HTTP bodies, header
    values) are [string]; wire frames and terminal data are [list byte].
    A Go [(T, error)] result is [result T]; a Go panic is a constructor of
    its own wherever the source can raise one.  Calls into the Go standard
    library or into third-party packages whose code is not part of the
    repository are the methods of a class ([NetURL], [Net], [Base64]) the
    definitions take as a parameter, so every statement holds for each
    behaviour those calls may have. *)

From Stdlib Require Import Bool List ZArith Lia String Ascii DecimalString.
From Stdlib Require Strings.Byte.
From Stdlib Require Import Init.Byte.
Import ListNotations.

Open Scope string_scope.
Open Scope list_scope.

(** ** Results and errors *)

Definition error := string.

Inductive result (A : Type) : Type :=
| Ok (a : A)
| Err (e : error).
Arguments Ok {A} a.
Arguments Err {A} e.

Definition is_err {A} (r : result A) : bool :=
  match r with Ok _ => false | Err _ => true end.

Definition byte_eqb : byte -> byte -> bool := Strings.Byte.eqb.

(** ** Message Codec: the tag tables *)

Module Codec.

(** message types for gotty (the legacy revision) *)
Definition OutputV1 : byte := "0"%byte.
Definition PongV1 : byte := "1"%byte.
Definition SetWindowTitleV1 : byte := "2"%byte.
Definition SetPreferencesV1 : byte := "3"%byte.
Definition SetReconnectV1 : byte := "4"%byte.

Definition InputV1 : byte := "0"%byte.
Definition PingV1 : byte := "1"%byte.
Definition ResizeTerminalV1 : byte := "2"%byte.

(** message types for gotty v2.0 *)
Definition UnknownOutput : byte := "0"%byte.
Definition Output : byte := "1"%byte.
Definition Pong : byte := "2"%byte.
Definition SetWindowTitle : byte := "3"%byte.
Definition SetPreferences : byte := "4"%byte.
Definition SetReconnect : byte := "5"%byte.

Definition UnknownInput : byte := "0"%byte.
Definition Input : byte := "1"%byte.
Definition Ping : byte := "2"%byte.
Definition ResizeTerminal : byte := "3"%byte.

Record gottyMessageType : Type := {
  output : byte;
  pong : byte;
  setWindowTitle : byte;
  setPreferences : byte;
  setReconnect : byte;
  input : byte;
  ping : byte;
  resizeTerminal : byte
}.

(** [initMessageType]: the table selected by the client's [V2] flag. *)
Definition initMessageType (V2 : bool) : gottyMessageType :=
  if V2 then
    {| output := Output;
       pong := Pong;
       setWindowTitle := SetWindowTitle;
       setPreferences := SetPreferences;
       setReconnect := SetReconnect;
       input := Input;
       ping := Ping;
       resizeTerminal := ResizeTerminal |}
  else
    {| output := OutputV1;
       pong := PongV1;
       setWindowTitle := SetWindowTitleV1;
       setPreferences := SetPreferencesV1;
       setReconnect := SetReconnectV1;
       input := InputV1;
       ping := PingV1;
       resizeTerminal := ResizeTerminalV1 |}.

(** The semantic kinds of the two directions. *)
Inductive ServerKind : Type :=
| KOutput | KPong | KSetWindowTitle | KSetPreferences | KSetReconnect.

Inductive ClientKind : Type :=
| KInput | KPing | KResizeTerminal.

Definition server_kinds : list ServerKind :=
  [KOutput; KPong; KSetWindowTitle; KSetPreferences; KSetReconnect].

Definition client_kinds : list ClientKind :=
  [KInput; KPing; KResizeTerminal].

(** Encoding a kind is reading its field of the table. *)
Definition server_tag (m : gottyMessageType) (k : ServerKind) : byte :=
  match k with
  | KOutput => output m
  | KPong => pong m
  | KSetWindowTitle => setWindowTitle m
  | KSetPreferences => setPreferences m
  | KSetReconnect => setReconnect m
  end.

Definition client_tag (m : gottyMessageType) (k : ClientKind) : byte :=
  match k with
  | KInput => input m
  | KPing => ping m
  | KResizeTerminal => resizeTerminal m
  end.

(** Decoding is the [switch msg.Data[0]] of [readLoop]: the cases are tried
    from top to bottom and the first equal one is taken; [None] is the
    [default] branch. *)
Definition dispatch (m : gottyMessageType) (tag : byte) : option ServerKind :=
  if byte_eqb tag (output m) then Some KOutput
  else if byte_eqb tag (pong m) then Some KPong
  else if byte_eqb tag (setWindowTitle m) then Some KSetWindowTitle
  else if byte_eqb tag (setPreferences m) then Some KSetPreferences
  else if byte_eqb tag (setReconnect m) then Some KSetReconnect
  else None.

(** The set of tag values a table uses in each direction. *)
Definition server_tags (m : gottyMessageType) : list byte :=
  map (server_tag m) server_kinds.

Definition client_tags (m : gottyMessageType) : list byte :=
  map (client_tag m) client_kinds.

(** Two tag sets are disjoint when no byte belongs to both. *)
Definition disjoint (l1 l2 : list byte) : Prop :=
  forall b, In b l1 -> In b l2 -> False.

(** The claim of C2 as the specification words it: in each direction the
    tag values of the two tables have no byte in common. *)
Definition tag_tables_disjoint : Prop :=
  disjoint (server_tags (initMessageType false))
           (server_tags (initMessageType true))
  /\ disjoint (client_tags (initMessageType false))
              (client_tags (initMessageType true)).

End Codec.

(** ** Shutdown Coordinator: the poison channel *)

Module Poison.

(** The state of [poison chan bool].  The channel is made once, unbuffered,
    by [NewClient] and nothing is ever sent on it: it is either still open
    (a receive blocks) or closed (a receive returns at once). *)
Inductive chan : Type :=
| Open
| Closed.

(** [type poisonReason int], with [committedSuicide = iota] and [killed]. *)
Inductive poisonReason : Type :=
| committedSuicide
| killed.

(** The zero value of [poisonReason]: what a function returns when a panic
    is recovered by a deferred call before a [return] statement ran. *)
Definition poisonReason_zero : poisonReason := committedSuicide.

(** How a Go call ends: it returns, or it panics. *)
Inductive outcome (A : Type) : Type :=
| Returned (a : A)
| Panicked (msg : string).
Arguments Returned {A} a.
Arguments Panicked {A} msg.

(** The builtin [close(ch)]: closing a closed channel panics.  The runtime
    performs it under the channel's lock, so it is one atomic step. *)
Definition close (c : chan) : chan * outcome unit :=
  match c with
  | Open => (Closed, Returned tt)
  | Closed => (Closed, Panicked "close of closed channel")
  end.

(** A receive [<-ch] on a channel without senders: [None] while it blocks,
    the zero value once the channel is closed. *)
Definition recv (c : chan) : option bool :=
  match c with
  | Open => None
  | Closed => Some false
  end.

(** A deferred [func() { if r := recover(); r != nil { ... } }()]: a panic
    of the body stops there and the function returns the zero value of its
    result type; a normal return is left alone. *)
Definition recovered {A : Type} (zero : A) (r : outcome A) : outcome A :=
  match r with
  | Returned a => Returned a
  | Panicked _ => Returned zero
  end.

(** [openPoison]: under the deferred recover, [close(poison)] and then
    [return committedSuicide]. *)
Definition openPoison (fname : string) (poison : chan)
  : chan * outcome poisonReason :=
  let '(poison', r) := close poison in
  (poison',
   recovered poisonReason_zero
     match r with
     | Returned _ => Returned committedSuicide
     | Panicked msg => Panicked msg
     end).

(** [die]: receive from the poisoned channel, then report [killed].
    [None] while the receive blocks. *)
Definition die (fname : string) (poison : chan) : option poisonReason :=
  match recv poison with
  | Some wasOpen => Some killed
  | None => None
  end.

(** [Client.ExitLoop], on the client's poison channel. *)
Definition ExitLoop (poison : chan) : chan * outcome unit :=
  let '(poison', r) := openPoison "ExitLoop" poison in
  match r with
  | Returned _ => (poison', Returned tt)
  | Panicked msg => (poison', Panicked msg)
  end.

(** Any number of signal attempts, in the order in which their [close]
    steps take the channel's lock; the outcomes are listed in that order. *)
Fixpoint signal_all (fnames : list string) (poison : chan)
  : chan * list (outcome poisonReason) :=
  match fnames with
  | [] => (poison, [])
  | f :: fs =>
      let '(p1, r) := openPoison f poison in
      let '(p2, rs) := signal_all fs p1 in
      (p2, r :: rs)
  end.

(** The check every loop makes in its [select]: is [<-c.poison] ready? *)
Definition signaled (c : chan) : bool :=
  match recv c with
  | Some _ => true
  | None => false
  end.

End Poison.

(** ** Session Endpoint: URLs *)

Module Url.

(** [net/url.Userinfo] and [net/url.URL], field by field. *)
Record Userinfo : Type := {
  username : string;
  password : string;
  passwordSet : bool
}.

Record URL : Type := {
  Scheme : string;
  Opaque : string;
  User : option Userinfo;
  Host : string;
  Path : string;
  RawPath : string;
  OmitHost : bool;
  ForceQuery : bool;
  RawQuery : string;
  Fragment : string;
  RawFragment : string
}.

Definition with_Scheme (s : string) (u : URL) : URL :=
  {| Scheme := s; Opaque := Opaque u; User := User u; Host := Host u;
     Path := Path u; RawPath := RawPath u; OmitHost := OmitHost u;
     ForceQuery := ForceQuery u; RawQuery := RawQuery u;
     Fragment := Fragment u; RawFragment := RawFragment u |}.

Definition with_Path (p : string) (u : URL) : URL :=
  {| Scheme := Scheme u; Opaque := Opaque u; User := User u; Host := Host u;
     Path := p; RawPath := RawPath u; OmitHost := OmitHost u;
     ForceQuery := ForceQuery u; RawQuery := RawQuery u;
     Fragment := Fragment u; RawFragment := RawFragment u |}.

Definition with_User (x : option Userinfo) (u : URL) : URL :=
  {| Scheme := Scheme u; Opaque := Opaque u; User := x; Host := Host u;
     Path := Path u; RawPath := RawPath u; OmitHost := OmitHost u;
     ForceQuery := ForceQuery u; RawQuery := RawQuery u;
     Fragment := Fragment u; RawFragment := RawFragment u |}.

(** The parts of [net/url] and of the other packages the URL helpers call
    that the client treats as a black box.  [parse_rest scheme rest frag]
    is everything [url.Parse] does after it has split off the fragment and
    the scheme and has not refused a colon in the first path segment (query,
    authority, path, fragment; it may fail); the scheme of the URL it
    returns is overwritten by the caller.  [string_tail u] is what
    [URL.String] writes after the scheme and its colon. *)
Class NetURL : Type := {
  parse_rest : string -> string -> string -> result URL;
  string_tail : URL -> string;
  Userinfo_String : option Userinfo -> string;
  PathUnescape : string -> result string;
  Query_Encode : URL -> string;
  base64_EncodeToString : string -> string
}.

Definition is_upper (c : ascii) : bool :=
  (Ascii.leb "A" c && Ascii.leb c "Z")%bool.

Definition is_lower (c : ascii) : bool :=
  (Ascii.leb "a" c && Ascii.leb c "z")%bool.

Definition is_digit (c : ascii) : bool :=
  (Ascii.leb "0" c && Ascii.leb c "9")%bool.

Definition lower_ascii (c : ascii) : ascii :=
  if is_upper c then ascii_of_nat (nat_of_ascii c + 32) else c.

(** [strings.ToLower], on the ASCII letters a scheme is made of. *)
Fixpoint ToLower (s : string) : string :=
  match s with
  | EmptyString => EmptyString
  | String c s' => String (lower_ascii c) (ToLower s')
  end.

(** [stringContainsCTLByte]: a byte below space, or DEL. *)
Fixpoint stringContainsCTLByte (s : string) : bool :=
  match s with
  | EmptyString => false
  | String c s' =>
      (Nat.ltb (nat_of_ascii c) 32 || Nat.eqb (nat_of_ascii c) 127
       || stringContainsCTLByte s')%bool
  end.

(** [strings.Cut(s, "#")]: the text before the first ['#'] and the text
    after it; the whole string and the empty string when there is none. *)
Fixpoint cut_hash (s : string) : string * string :=
  match s with
  | EmptyString => (EmptyString, EmptyString)
  | String c s' =>
      if Ascii.eqb c "#" then (EmptyString, s')
      else let '(a, b) := cut_hash s' in (String c a, b)
  end.

(** [getScheme]: the loop over [rawURL], at index [i] with [s = rawURL[i:]]. *)
Fixpoint getScheme_at (i : nat) (rawURL s : string) : result (string * string) :=
  match s with
  | EmptyString => Ok (EmptyString, rawURL)
  | String c s' =>
      if (is_lower c || is_upper c)%bool then getScheme_at (S i) rawURL s'
      else if (is_digit c || Ascii.eqb c "+" || Ascii.eqb c "-"
               || Ascii.eqb c ".")%bool then
        if Nat.eqb i 0 then Ok (EmptyString, rawURL)
        else getScheme_at (S i) rawURL s'
      else if Ascii.eqb c ":" then
        if Nat.eqb i 0 then Err "missing protocol scheme"
        else Ok (substring 0 i rawURL, s')
      else Ok (EmptyString, rawURL)
  end.

Definition getScheme (rawURL : string) : result (string * string) :=
  getScheme_at 0 rawURL rawURL.

(** The text before the first byte [c] of [s], all of [s] when it has
    none: the first result of [strings.Cut]. *)
Fixpoint before (c : ascii) (s : string) : string :=
  match s with
  | EmptyString => EmptyString
  | String d s' => if Ascii.eqb d c then EmptyString else String d (before c s')
  end.

(** [strings.Contains(s, ":")] *)
Fixpoint contains_colon (s : string) : bool :=
  match s with
  | EmptyString => false
  | String c s' => (Ascii.eqb c ":" || contains_colon s')%bool
  end.

(** [strings.HasPrefix(s, "/")] *)
Definition starts_with_slash (s : string) : bool :=
  match s with
  | EmptyString => false
  | String c _ => Ascii.eqb c "/"
  end.

(** The check of [parse] on what follows the scheme: with the query cut
    off, a text that does not start with a slash, under no scheme, whose
    first path segment holds a colon. *)
Definition relative_with_colon (scheme rest : string) : bool :=
  let rest := before "?" rest in
  (negb (starts_with_slash rest) && String.eqb scheme ""
   && contains_colon (before "/" rest))%bool.

(** An input that reads as having the scheme [http] or [https]. *)
Definition has_http_scheme (input : string) : bool :=
  match getScheme (fst (cut_hash input)) with
  | Ok (scheme, _) =>
      (String.eqb (ToLower scheme) "http"
       || String.eqb (ToLower scheme) "https")%bool
  | Err _ => false
  end.

Definition empty_URL : URL :=
  {| Scheme := ""; Opaque := ""; User := None; Host := ""; Path := "";
     RawPath := ""; OmitHost := false; ForceQuery := false; RawQuery := "";
     Fragment := ""; RawFragment := "" |}.

(** The two schemes [ParseURL] accepts as they are. *)
Definition is_http (scheme : string) : bool :=
  (String.eqb scheme "http" || String.eqb scheme "https")%bool.

Section WithNetURL.
Context {N : NetURL}.

(** [url.Parse]: cut off the fragment, refuse control bytes, accept ["*"],
    split off and lower-case the scheme, refuse a text without scheme whose
    first path segment holds a colon, then parse the rest.  The [*url.Error]
    wrapper around an error message is not modelled. *)
Definition Parse (rawURL : string) : result URL :=
  let '(u, frag) := cut_hash rawURL in
  if stringContainsCTLByte u then
    Err "net/url: invalid control character in URL"
  else if String.eqb u "*" then
    match parse_rest "" "*" frag with
    | Ok url => Ok (with_Scheme "" url)
    | Err e => Err e
    end
  else
    match getScheme u with
    | Err e => Err e
    | Ok (scheme, rest) =>
        if relative_with_colon (ToLower scheme) rest then
          Err "first path segment in URL cannot contain colon"
        else
          match parse_rest (ToLower scheme) rest frag with
          | Ok url => Ok (with_Scheme (ToLower scheme) url)
          | Err e => Err e
          end
    end.

(** [URL.String]: the scheme and a colon when there is a scheme, then the
    rest. *)
Definition URL_String (u : URL) : string :=
  (if String.eqb (Scheme u) "" then "" else Scheme u ++ ":") ++ string_tail u.

(** [ParseURL], with a bound on the depth of its self-recursion: [None]
    when the bound is reached before the function returns. *)
Fixpoint ParseURL (fuel : nat) (input : string) : option (result string) :=
  match fuel with
  | O => None
  | S fuel' =>
      match Parse input with
      | Err e => Some (Err e)
      | Ok parsed =>
          if (String.eqb (Scheme parsed) "http"
              || String.eqb (Scheme parsed) "https")%bool
          then Some (Ok (URL_String parsed))
          else ParseURL fuel' ("http://" ++ input)
      end
  end.

(** What [ParseURL] returns, one level of recursion spelled out. *)
Definition ParseURL_result (input : string) : result string :=
  match Parse input with
  | Err e => Err e
  | Ok parsed =>
      if is_http (Scheme parsed) then Ok (URL_String parsed)
      else match Parse ("http://" ++ input) with
           | Err e => Err e
           | Ok parsed' => Ok (URL_String parsed')
           end
  end.

(** The claim of C9 as the specification words it: an input that has no
    [http] or [https] scheme is normalised by prepending [http://], so
    what [ParseURL] returns for it is what the prefixed text parses to. *)
Definition prefixes_every_other_input : Prop :=
  forall input : string,
    has_http_scheme input = false ->
    ParseURL_result input
    = match Parse ("http://" ++ input) with
      | Err e => Err e
      | Ok parsed' => Ok (URL_String parsed')
      end.

End WithNetURL.

End Url.

(** ** The client object *)

Module Client.
Import Url.

(** The two settings [Connect] writes into [websocket.Dialer]. *)
Record Dialer : Type := {
  TLSInsecureSkipVerify : bool;
  ProxyFromEnvironment : bool
}.

(** A [*websocket.Conn] is known by the number the dial returned. *)
Definition Conn := nat.

(** An [io.Writer] for the decoded output: [os.Stdout], or one given to
    [SetOutput]. *)
Inductive Writer : Type :=
| Stdout
| Custom (id : nat).

(** [type Client struct].  [WriteMutex] has no field here: a write to the
    connection is one step of the model, which is what the mutex enforces. *)
Record Client : Type := {
  dialer : Dialer;
  conn : option Conn;
  URL : string;
  Output : Writer;
  poison : Poison.chan;
  SkipTLSVerify : bool;
  UseProxyFromEnv : bool;
  Connected : bool;
  EscapeKeys : list byte;
  V2 : bool;
  message : option Codec.gottyMessageType;
  WSOrigin : string;
  User : string;
  Password : string;
  AdminPassword : string;
  PathSuffix : string
}.

Definition with_dialer (d : Dialer) (c : Client) : Client :=
  {| dialer := d; conn := conn c; URL := URL c; Output := Output c;
     poison := poison c; SkipTLSVerify := SkipTLSVerify c;
     UseProxyFromEnv := UseProxyFromEnv c; Connected := Connected c;
     EscapeKeys := EscapeKeys c; V2 := V2 c; message := message c;
     WSOrigin := WSOrigin c; User := User c; Password := Password c;
     AdminPassword := AdminPassword c; PathSuffix := PathSuffix c |}.

Definition with_conn (x : Conn) (c : Client) : Client :=
  {| dialer := dialer c; conn := Some x; URL := URL c; Output := Output c;
     poison := poison c; SkipTLSVerify := SkipTLSVerify c;
     UseProxyFromEnv := UseProxyFromEnv c; Connected := true;
     EscapeKeys := EscapeKeys c; V2 := V2 c; message := message c;
     WSOrigin := WSOrigin c; User := User c; Password := Password c;
     AdminPassword := AdminPassword c; PathSuffix := PathSuffix c |}.

Definition with_message (m : Codec.gottyMessageType) (c : Client) : Client :=
  {| dialer := dialer c; conn := conn c; URL := URL c; Output := Output c;
     poison := poison c; SkipTLSVerify := SkipTLSVerify c;
     UseProxyFromEnv := UseProxyFromEnv c; Connected := Connected c;
     EscapeKeys := EscapeKeys c; V2 := V2 c; message := Some m;
     WSOrigin := WSOrigin c; User := User c; Password := Password c;
     AdminPassword := AdminPassword c; PathSuffix := PathSuffix c |}.

Definition with_poison (p : Poison.chan) (c : Client) : Client :=
  {| dialer := dialer c; conn := conn c; URL := URL c; Output := Output c;
     poison := p; SkipTLSVerify := SkipTLSVerify c;
     UseProxyFromEnv := UseProxyFromEnv c; Connected := Connected c;
     EscapeKeys := EscapeKeys c; V2 := V2 c; message := message c;
     WSOrigin := WSOrigin c; User := User c; Password := Password c;
     AdminPassword := AdminPassword c; PathSuffix := PathSuffix c |}.

(** [Client.initMessageType]. *)
Definition initMessageType (c : Client) : Client :=
  with_message (Codec.initMessageType (V2 c)) c.

(** [Client.SetOutput]. *)
Definition SetOutput (w : Writer) (c : Client) : Client :=
  {| dialer := dialer c; conn := conn c; URL := URL c; Output := w;
     poison := poison c; SkipTLSVerify := SkipTLSVerify c;
     UseProxyFromEnv := UseProxyFromEnv c; Connected := Connected c;
     EscapeKeys := EscapeKeys c; V2 := V2 c; message := message c;
     WSOrigin := WSOrigin c; User := User c; Password := Password c;
     AdminPassword := AdminPassword c; PathSuffix := PathSuffix c |}.

Section WithNetURL.
Context {N : NetURL}.

(** [NewClient]: the fields the literal sets, every other one at its zero
    value; [make(chan bool)] is an open channel.  The bound is the one of
    [ParseURL]. *)
Definition NewClient (fuel : nat) (inputURL : string)
  : option (result Client) :=
  match ParseURL fuel inputURL with
  | None => None
  | Some (Err e) => Some (Err e)
  | Some (Ok parsedURL) =>
      Some (Ok {| dialer := {| TLSInsecureSkipVerify := false;
                               ProxyFromEnvironment := false |};
                  conn := None;
                  URL := parsedURL;
                  Output := Stdout;
                  poison := Poison.Open;
                  SkipTLSVerify := false;
                  UseProxyFromEnv := false;
                  Connected := false;
                  EscapeKeys := [];
                  V2 := false;
                  message := None;
                  WSOrigin := "";
                  User := "";
                  Password := "";
                  AdminPassword := "";
                  PathSuffix := "" |})
  end.

End WithNetURL.

End Client.

(** ** Connection Handshake *)

Module Handshake.
Import Url Client.

(** [http.Header], as the list of [Add] calls in their order. *)
Definition Header := list (string * string).

Definition Header_Add (h : Header) (key value : string) : Header :=
  h ++ [(key, value)].

(** [strings.TrimLeft(s, "/")]. *)
Fixpoint TrimLeft_slash (s : string) : string :=
  match s with
  | EmptyString => EmptyString
  | String c s' => if Ascii.eqb c "/" then TrimLeft_slash s' else s
  end.

(** *** The token pattern

    The regular expression of [GetAuthToken] is the literal text
    [var gotty_auth_token = ] followed by a quote, a greedy group of any
    characters, and a quote.  Its [FindStringSubmatch] takes the leftmost
    place where the literal text occurs and is followed, on the same line, by
    a quote; the group is greedy, so it runs up to the last quote of that
    line (the dot matches no newline). *)

Definition token_prefix : string := "var gotty_auth_token = '".

Definition newline : ascii := "010"%char.
Definition quote : ascii := "'"%char.

Fixpoint strip_prefix (p s : string) : option string :=
  match p with
  | EmptyString => Some s
  | String a p' =>
      match s with
      | EmptyString => None
      | String b s' => if Ascii.eqb a b then strip_prefix p' s' else None
      end
  end.

(** The text up to the first newline. *)
Fixpoint line_of (s : string) : string :=
  match s with
  | EmptyString => EmptyString
  | String c s' => if Ascii.eqb c newline then EmptyString
                   else String c (line_of s')
  end.

(** The text before the last quote of [l], if [l] has a quote. *)
Fixpoint up_to_last_quote (l : string) : option string :=
  match l with
  | EmptyString => None
  | String c l' =>
      match up_to_last_quote l' with
      | Some t => Some (String c t)
      | None => if Ascii.eqb c quote then Some EmptyString else None
      end
  end.

(** A match that starts at the first byte of [s]: its group. *)
Definition match_here (s : string) : option string :=
  match strip_prefix token_prefix s with
  | Some r => up_to_last_quote (line_of r)
  | None => None
  end.

(** [re.FindStringSubmatch(s)]: the whole match and the group, or the empty
    slice. *)
Fixpoint FindStringSubmatch (s : string) : list string :=
  match match_here s with
  | Some t => [(token_prefix ++ t ++ "'")%string; t]
  | None =>
      match s with
      | EmptyString => []
      | String _ s' => FindStringSubmatch s'
      end
  end.

(** What it means for a body to contain the pattern: some occurrence of the
    literal text, a token without newline, a closing quote. *)
Fixpoint no_newline (s : string) : Prop :=
  match s with
  | EmptyString => True
  | String c s' => c <> newline /\ no_newline s'
  end.

Definition contains_token_pattern (body : string) : Prop :=
  exists pre tok post,
    body = (pre ++ token_prefix ++ tok ++ "'" ++ post)%string
    /\ no_newline tok.

(** *** The network *)

Record Request : Type := {
  Method : string;
  ReqURL : string;
  ReqHeader : Header;
  TransportInsecureSkipVerify : bool;
  TransportProxyFromEnvironment : bool
}.

(** An [*http.Response]: its status code, and what [ioutil.ReadAll] makes
    of its body. *)
Record Response : Type := {
  StatusCode : Z;
  Body : result string
}.

Record querySingleType : Type := {
  AuthToken : string;
  Arguments : string
}.

(** The calls that leave the process, and the library calls around them. *)
Class Net : Type := {
  http_NewRequest : string -> string -> option error;
  http_Do : Request -> result Response;
  http_StatusText : Z -> string;
  ws_Dial : Dialer -> string -> Header -> result Conn;
  ws_WriteMessage : Conn -> list byte -> option error;
  json_Marshal : querySingleType -> result (list byte)
}.

(** What a handshake does that can be seen from outside, in order. *)
Inductive Event : Type :=
| EvHttpDo (req : Request)
| EvDial (target : string) (header : Header)
| EvWrite (data : list byte)
| EvSleep (ms : Z)
| EvGo (fn : string).

(** The client and the events so far are threaded through the handshake;
    an error ends it, and keeps what was done before. *)
Definition St : Type := Client * list Event.

Definition M (A : Type) : Type := St -> result A * St.

Definition ret {A} (a : A) : M A := fun s => (Ok a, s).

Definition fail {A} (e : error) : M A := fun s => (Err e, s).

Definition bind {A B} (m : M A) (f : A -> M B) : M B :=
  fun s =>
    match m s with
    | (Ok a, s') => f a s'
    | (Err e, s') => (Err e, s')
    end.

Definition lift {A} (r : result A) : M A := fun s => (r, s).

Definition check (r : option error) : M unit :=
  fun s => match r with
           | None => (Ok tt, s)
           | Some e => (Err e, s)
           end.

Definition emit (ev : Event) : M unit :=
  fun s => (Ok tt, (fst s, snd s ++ [ev])).

Definition get_client : M Client := fun s => (Ok (fst s), s).

Definition modify_client (f : Client -> Client) : M unit :=
  fun s => (Ok tt, (f (fst s), snd s)).

Declare Scope handshake_scope.
Delimit Scope handshake_scope with hs.
Notation "x <- m ;; k" := (bind m (fun x => k))
  (at level 61, m at next level, right associativity) : handshake_scope.
Notation "m ;;; k" := (bind m (fun _ => k))
  (at level 61, right associativity) : handshake_scope.

Definition string_of_Z (z : Z) : string := NilZero.string_of_int (Z.to_int z).

Definition nonempty (s : string) : bool := negb (String.eqb s "").

(** A response the handshake cannot use: a status other than 200, or a
    body without the token pattern. *)
Definition bad_response (resp : Response) : Prop :=
  StatusCode resp <> 200%Z
  \/ exists body, Body resp = Ok body /\ ~ contains_token_pattern body.

Section WithNet.
Context {N : NetURL} {W : Net}.

(** [GetAuthTokenURL]. *)
Definition GetAuthTokenURL (httpURL : string)
  : result (Url.URL * Header) :=
  match Parse httpURL with
  | Err e => Err e
  | Ok target =>
      let target := with_Path (TrimLeft_slash (Path target ++ "auth_token.js"))
                              target in
      let user := match PathUnescape (Userinfo_String (Url.User target)) with
                  | Ok u => u
                  | Err _ => Userinfo_String (Url.User target)
                  end in
      match Url.User target with
      | Some _ =>
          Ok (with_User None target,
              Header_Add [] "Authorization"
                         ("Basic " ++ base64_EncodeToString user)%string)
      | None => Ok (target, [])
      end
  end.

(** [GetURLQuery], read through [Encode] by its one caller. *)
Definition GetURLQuery (rawURL : string) : result Url.URL :=
  Parse rawURL.

(** [GetWebsocketURL]. *)
Definition GetWebsocketURL (httpURL : string)
  : result (Url.URL * Header) :=
  match Parse httpURL with
  | Err e => Err e
  | Ok target =>
      let target := if String.eqb (Scheme target) "https"
                    then with_Scheme "wss" target
                    else with_Scheme "ws" target in
      let target := with_Path (TrimLeft_slash (Path target ++ "ws")) target in
      let user := match PathUnescape (Userinfo_String (Url.User target)) with
                  | Ok u => u
                  | Err _ => Userinfo_String (Url.User target)
                  end in
      match Url.User target with
      | Some _ =>
          Ok (with_User None target,
              Header_Add [] "Authorization"
                         ("Basic " ++ base64_EncodeToString user)%string)
      | None => Ok (target, [])
      end
  end.

(** The credential headers both requests add, admin password first. *)
Definition add_credentials (c : Client) (header : Header) : Header :=
  let header := if nonempty (AdminPassword c)
                then Header_Add header "X-Admin-Password" (AdminPassword c)
                else header in
  if nonempty (Client.User c)
  then Header_Add header "Authorization"
         ("Basic " ++ base64_EncodeToString
                        (Client.User c ++ ":" ++ Password c))%string
  else header.

Local Open Scope handshake_scope.

(** [Client.GetAuthToken]. *)
Definition GetAuthToken : M string :=
  c <- get_client ;;
  th <- lift (GetAuthTokenURL (URL c)) ;;
  let target := fst th in
  let header := add_credentials c (snd th) in
  check (http_NewRequest "GET" (URL_String target)) ;;;
  let req := {| Method := "GET";
                ReqURL := URL_String target;
                ReqHeader := header;
                TransportInsecureSkipVerify := SkipTLSVerify c;
                TransportProxyFromEnvironment := UseProxyFromEnv c |} in
  emit (EvHttpDo req) ;;;
  resp <- lift (http_Do req) ;;
  if Z.eqb (StatusCode resp) 200 then
    body <- lift (Body resp) ;;
    let output := FindStringSubmatch body in
    match output with
    | [] => fail "cannot fetch GoTTY auth-token, please upgrade your GoTTY server"
    | _ => ret (nth 1 output "")
    end
  else
    fail ("unknown status code: " ++ string_of_Z (StatusCode resp)
          ++ " (" ++ http_StatusText (StatusCode resp) ++ ")")%string.

(** [Client.write], during the handshake.  [Connect] has set the connection
    just before; with a nil connection the call would panic. *)
Definition write (data : list byte) : M unit :=
  c <- get_client ;;
  emit (EvWrite data) ;;;
  match conn c with
  | Some cn => check (ws_WriteMessage cn data)
  | None => fail "nil connection"
  end.

(** [Client.Connect]. *)
Definition Connect : M unit :=
  authToken <- GetAuthToken ;;
  c <- get_client ;;
  th <- lift (GetWebsocketURL (URL c)) ;;
  let target := fst th in
  let header := add_credentials c (snd th) in
  let header := if nonempty (WSOrigin c)
                then Header_Add header "Origin" (WSOrigin c)
                else header in
  let d := dialer c in
  let d := if SkipTLSVerify c
           then {| TLSInsecureSkipVerify := true;
                   ProxyFromEnvironment := ProxyFromEnvironment d |}
           else d in
  let d := if UseProxyFromEnv c
           then {| TLSInsecureSkipVerify := TLSInsecureSkipVerify d;
                   ProxyFromEnvironment := true |}
           else d in
  modify_client (with_dialer d) ;;;
  emit (EvDial (URL_String target) header) ;;;
  cn <- lift (ws_Dial d (URL_String target) header) ;;
  modify_client (with_conn cn) ;;;
  modify_client initMessageType ;;;
  query <- lift (GetURLQuery (URL c)) ;;
  let querySingle := {| Arguments := ("?" ++ Query_Encode query)%string;
                        AuthToken := authToken |} in
  queryJSON <- lift (json_Marshal querySingle) ;;
  write queryJSON ;;;
  emit (EvSleep 100) ;;;
  emit (EvGo "pingLoop") ;;;
  ret tt.

(** The two errors [GetAuthToken] makes of such a response. *)
Definition auth_token_error (resp : Response) (e : error) : Prop :=
  e = ("unknown status code: " ++ string_of_Z (StatusCode resp)
       ++ " (" ++ http_StatusText (StatusCode resp) ++ ")")%string
  \/ e = "cannot fetch GoTTY auth-token, please upgrade your GoTTY server".

End WithNet.

(** The events that open a socket or start a loop. *)
Definition is_dial (ev : Event) : bool :=
  match ev with EvDial _ _ => true | _ => false end.

Definition is_go (ev : Event) : bool :=
  match ev with EvGo _ => true | _ => false end.

End Handshake.

(** ** I/O Pump: the four loops *)

Module Pump.
Import Codec Poison.

(** A frame handed to [Client.write]. *)
Definition Frame := list byte.

(** How one turn of a loop body ends: back to the top of the [for], a
    [return] with its reason, a panic nothing recovers, or no turn at all
    because the [select] has no ready case. *)
Inductive Next : Type :=
| Continue
| Exit (r : poisonReason)
| Panic (msg : string)
| Wait.

(** What one turn does: the frames it passes to [Client.write], in order,
    the bytes it writes to the output stream, the poison channel after it,
    and how it ends. *)
Record Turn : Type := {
  sent : list Frame;
  printed : list byte;
  poison_after : chan;
  next : Next
}.

Definition turn (fs : list Frame) (out : list byte) (p : chan) (n : Next)
  : Turn :=
  {| sent := fs; printed := out; poison_after := p; next := n |}.

(** [return die(fname, c.poison)] *)
Definition return_die (fname : string) (fs : list Frame) (p : chan) : Turn :=
  match die fname p with
  | Some r => turn fs [] p (Exit r)
  | None => turn fs [] p Wait
  end.

(** [return openPoison(fname, c.poison)] *)
Definition return_openPoison (fname : string) (fs : list Frame) (p : chan)
  : Turn :=
  let '(p', r) := openPoison fname p in
  match r with
  | Returned reason => turn fs [] p' (Exit reason)
  | Panicked msg => turn fs [] p' (Panic msg)
  end.

(** *** Ping Loop *)

(** One turn of [pingLoop]: write the ping frame, warn if that failed,
    sleep.  [wr_err] is what the write returned. *)
Definition pingLoop_turn (m : gottyMessageType) (p : chan)
  (wr_err : option error) : Turn :=
  turn [[ping m]] [] p Continue.

(** *** Resize Loop *)

(** One size query and the frame it leads to: nothing when the query
    failed.  [q] is what [syscallTIOCGWINSZ] returned. *)
Definition resize_frames (m : gottyMessageType) (q : result (list byte))
  : list Frame :=
  match q with
  | Err _ => []
  | Ok b => [resizeTerminal m :: b]
  end.

(** The part of [termsizeLoop] before its [for]: the initial resize. *)
Definition termsizeLoop_start (m : gottyMessageType) (p : chan)
  (q : result (list byte)) (wr_err : option error) : Turn :=
  turn (resize_frames m q) [] p Continue.

(** The case the [select] of [termsizeLoop] takes. *)
Inductive ResizeEvent : Type :=
| TsPoison
| TsWinch (q : result (list byte)) (wr_err : option error).

Definition termsizeLoop_turn (m : gottyMessageType) (p : chan)
  (ev : ResizeEvent) : Turn :=
  match ev with
  | TsPoison => return_die "termsizeLoop" [] p
  | TsWinch q wr_err => turn (resize_frames m q) [] p Continue
  end.

(** *** Output Loop *)

(** [base64.StdEncoding.DecodeString]. *)
Class Base64 : Type := {
  base64_DecodeString : list byte -> result (list byte)
}.

(** What [c.Conn.ReadMessage] returned: data, a [*websocket.CloseError], or
    another error. *)
Inductive ReadResult : Type :=
| Message (data : list byte)
| CloseError (code : Z)
| ReadError (e : error).

(** The case the [select] of [readLoop] takes. *)
Inductive OutputEvent : Type :=
| RdPoison
| RdMsg (msg : ReadResult).

(** [fmt.Fprintf(c.Output, "\033]0;%s\007", newTitle)] *)
Definition title_sequence (newTitle : list byte) : list byte :=
  [x1b; "]"%byte; "0"%byte; ";"%byte] ++ newTitle ++ [x07].

Section WithBase64.
Context {B : Base64}.

(** The [switch msg.Data[0]] of [readLoop] on a frame [tag :: payload]: the
    bytes written to the output stream. *)
Definition handle_frame (m : gottyMessageType) (tag : byte)
  (payload : list byte) : list byte :=
  match dispatch m tag with
  | Some KOutput =>
      match base64_DecodeString payload with
      | Err _ => []
      | Ok buf => buf
      end
  | Some KPong => []
  | Some KSetWindowTitle => title_sequence payload
  | Some KSetPreferences => []
  | Some KSetReconnect => []
  | None => []
  end.

Definition readLoop_turn (m : gottyMessageType) (p : chan)
  (ev : OutputEvent) : Turn :=
  match ev with
  | RdPoison => return_die "readLoop" [] p
  | RdMsg (CloseError _) => return_openPoison "readLoop" [] p
  | RdMsg (ReadError _) => return_openPoison "readLoop" [] p
  | RdMsg (Message []) => return_openPoison "readLoop" [] p
  | RdMsg (Message (tag :: payload)) =>
      turn [] (handle_frame m tag payload) p Continue
  end.

End WithBase64.

(** *** Input Loop *)

(** What [goselect.RetrySelect] returned. *)
Inductive SelectResult : Type :=
| SelOk
| SelEINTR
| SelError (e : error).

(** The error of [pr.Read]. *)
Inductive ReadErr : Type :=
| RdNil
| RdEOF
| RdOther (e : error).

(** What the outside does during one turn of [writeLoop]: the result of the
    select on standard input, whether the descriptor is set afterwards, the
    bytes [pr.Read] stored at the start of the buffer, the count and the
    error it returned, and what the write to the socket returned.  A field
    the turn does not reach is not looked at. *)
Record InputEvent : Type := {
  sel : SelectResult;
  fd_set : bool;
  rd_data : list byte;
  rd_size : Z;
  rd_err : ReadErr;
  wr_err : option error
}.

(** [buff := make([]byte, 128)] *)
Definition buff_len : nat := 128.
Definition make_buff : list byte := repeat x00 buff_len.

(** A read stores [data] at the start of [buff]; the slice keeps its
    length. *)
Definition store (buff data : list byte) : list byte :=
  firstn (List.length buff) (data ++ skipn (List.length data) buff).

(** [buff[:size]] for [size > 0]: beyond the capacity the slice expression
    panics. *)
Definition slice_to (buff : list byte) (size : Z) : option (list byte) :=
  if (size <=? Z.of_nat (List.length buff))%Z
  then Some (firstn (Z.to_nat size) buff)
  else None.

(** The end-of-transmission byte sent on end of input. *)
Definition EOT : byte := x04.

(** One turn of the [for] of [writeLoop], with the buffer after it. *)
Definition writeLoop_turn (m : gottyMessageType) (p : chan)
  (buff : list byte) (ev : InputEvent) : Turn * list byte :=
  if signaled p then (return_die "writeLoop" [] p, buff)
  else
    match sel ev with
    | SelError _ => (return_openPoison "writeLoop" [] p, buff)
    | _ =>
        if fd_set ev then
          let buff' := store buff (rd_data ev) in
          match rd_err ev with
          | RdEOF =>
              let frame := [input m] ++ [EOT] in
              match wr_err ev with
              | Some _ => (return_openPoison "writeLoop" [frame] p, buff')
              | None => (turn [frame] [] p Continue, buff')
              end
          | RdOther _ => (return_openPoison "writeLoop" [] p, buff')
          | RdNil =>
              if (rd_size ev <=? 0)%Z then (turn [] [] p Continue, buff')
              else
                match slice_to buff' (rd_size ev) with
                | None =>
                    (turn [] [] p (Panic "slice bounds out of range"), buff')
                | Some data =>
                    let frame := [input m] ++ data in
                    match wr_err ev with
                    | Some _ =>
                        (return_openPoison "writeLoop" [frame] p, buff')
                    | None => (turn [frame] [] p Continue, buff')
                    end
                end
          end
        else (turn [] [] p Continue, buff)
    end.

(** A run of [writeLoop] over the turns the outside drives: it stops at the
    first turn that does not continue.  Each turn sees the poison channel
    as the other loops left it ([ps] says whether someone closed it since
    the turn before). *)
Fixpoint writeLoop_run (m : gottyMessageType) (p : chan) (buff : list byte)
  (evs : list (bool * InputEvent)) : list Frame * Next :=
  match evs with
  | [] => ([], Continue)
  | (closed_by_other, ev) :: rest =>
      let p := if closed_by_other then Closed else p in
      let '(t, buff') := writeLoop_turn m p buff ev in
      match next t with
      | Continue =>
          let '(fs, n) := writeLoop_run m (poison_after t) buff' rest in
          (sent t ++ fs, n)
      | n => (sent t, n)
      end
  end.

(** The turn at which [pr.Read] reports the end of the input: not poisoned,
    the select went through, the descriptor is set, the read returned
    [io.EOF]. *)
Definition at_EOF (p : chan) (ev : InputEvent) : Prop :=
  signaled p = false
  /\ (forall e, sel ev <> SelError e)
  /\ fd_set ev = true
  /\ rd_err ev = RdEOF.

(** The claim of C7 as the specification words it: at the end of the input
    the loop sends the one frame and exits. *)
Definition sends_EOT_and_exits : Prop :=
  forall (V2 : bool) (p : chan) (buff : list byte) (ev : InputEvent),
    at_EOF p ev ->
    let t := fst (writeLoop_turn (initMessageType V2) p buff ev) in
    sent t = [[input (initMessageType V2); EOT]]
    /\ exists r, next t = Exit r.

End Pump.

(** ** The session: [Loop], its goroutines and the wait group *)

Module Session.
Import Codec Poison Client Handshake Pump.

Inductive LoopId : Type :=
| ResizeLoop
| OutputLoop
| InputLoop
| PingLoop.

Definition LoopId_eqb (a b : LoopId) : bool :=
  match a, b with
  | ResizeLoop, ResizeLoop => true
  | OutputLoop, OutputLoop => true
  | InputLoop, InputLoop => true
  | PingLoop, PingLoop => true
  | _, _ => false
  end.

(** The four loops of the pump, and the three [Loop] itself launches. *)
Definition pump_loops : list LoopId :=
  [InputLoop; OutputLoop; ResizeLoop; PingLoop].

Definition joined_loops : list LoopId :=
  [ResizeLoop; OutputLoop; InputLoop].

(** Where a goroutine is: not launched, launched and before its [for]
    ([termsizeLoop] only), in its [for], or returned. *)
Inductive Status : Type :=
| NotStarted
| Starting
| Running
| Exited (r : poisonReason).

Definition has_exited (s : Status) : bool :=
  match s with Exited _ => true | _ => false end.

Definition is_active (s : Status) : bool :=
  match s with Starting | Running => true | _ => false end.

(** Where the caller's thread is: before [Loop], then at each statement of
    [Loop], then after its [return]. *)
Inductive Ctl : Type :=
| Idle
| AtConnect
| AtConsole
| AtSpawnResize
| AtSpawnOutput
| AtSpawnInput
| AtWait
| Done (err : option error).

(** The client, the wait group of [Loop] (its counter, and the loops whose
    deferred [wg.Done] has run), the caller's thread, the goroutines, the
    buffer of [writeLoop], what went to the socket and to the output
    stream, and whether a panic has ended the process. *)
Record World : Type := {
  client : Client;
  wg : Z;
  acks : list LoopId;
  ctl : Ctl;
  st : LoopId -> Status;
  buff : list byte;
  wire : list Frame;
  screen : list byte;
  crashed : bool
}.

Definition set_st (id : LoopId) (s : Status) (f : LoopId -> Status)
  : LoopId -> Status :=
  fun j => if LoopId_eqb j id then s else f j.

Definition with_ctl (k : Ctl) (w : World) : World :=
  {| client := client w; wg := wg w; acks := acks w; ctl := k; st := st w;
     buff := buff w; wire := wire w; screen := screen w;
     crashed := crashed w |}.

Definition with_client (c : Client) (w : World) : World :=
  {| client := c; wg := wg w; acks := acks w; ctl := ctl w; st := st w;
     buff := buff w; wire := wire w; screen := screen w;
     crashed := crashed w |}.

Definition with_st (id : LoopId) (s : Status) (w : World) : World :=
  {| client := client w; wg := wg w; acks := acks w; ctl := ctl w;
     st := set_st id s (st w);
     buff := buff w; wire := wire w; screen := screen w;
     crashed := crashed w |}.

Definition with_buff (b : list byte) (w : World) : World :=
  {| client := client w; wg := wg w; acks := acks w; ctl := ctl w;
     st := st w; buff := b; wire := wire w; screen := screen w;
     crashed := crashed w |}.

Definition with_io (fs : list Frame) (out : list byte) (w : World) : World :=
  {| client := client w; wg := wg w; acks := acks w; ctl := ctl w;
     st := st w; buff := buff w; wire := wire w ++ fs;
     screen := screen w ++ out; crashed := crashed w |}.

Definition with_crashed (w : World) : World :=
  {| client := client w; wg := wg w; acks := acks w; ctl := ctl w;
     st := st w; buff := buff w; wire := wire w; screen := screen w;
     crashed := true |}.

(** [wg.Add(1)] *)
Definition wg_Add (w : World) : World :=
  {| client := client w; wg := wg w + 1; acks := acks w; ctl := ctl w;
     st := st w; buff := buff w; wire := wire w; screen := screen w;
     crashed := crashed w |}.

(** [wg.Done()], run by loop [id] *)
Definition wg_Done (id : LoopId) (w : World) : World :=
  {| client := client w; wg := wg w - 1; acks := acks w ++ [id];
     ctl := ctl w; st := st w; buff := buff w; wire := wire w;
     screen := screen w; crashed := crashed w |}.

(** The loops that start with [defer wg.Done()]: [pingLoop] takes no wait
    group. *)
Definition defers_Done (id : LoopId) : bool :=
  match id with
  | PingLoop => false
  | _ => true
  end.

(** The effect on the world of one turn of loop [id]. *)
Definition apply_turn (id : LoopId) (t : Turn) (w : World) : World :=
  match next t with
  | Wait => w
  | Continue =>
      with_st id Running
        (with_client (with_poison (poison_after t) (client w))
           (with_io (sent t) (printed t) w))
  | Exit r =>
      let w' := with_st id (Exited r)
                  (with_client (with_poison (poison_after t) (client w))
                     (with_io (sent t) (printed t) w)) in
      if defers_Done id then wg_Done id w' else w'
  | Panic _ =>
      with_crashed
        (with_client (with_poison (poison_after t) (client w))
           (with_io (sent t) (printed t) w))
  end.

(** The frames a handshake wrote. *)
Fixpoint written (evs : list Event) : list Frame :=
  match evs with
  | [] => []
  | EvWrite data :: rest => data :: written rest
  | _ :: rest => written rest
  end.

(** A truth value as a count. *)
Definition b2z (b : bool) : Z := if b then 1%Z else 0%Z.

(** The loops of the wait group that have been launched and have not
    returned. *)
Definition count_active (s : LoopId -> Status) : Z :=
  (b2z (is_active (s ResizeLoop)) + b2z (is_active (s OutputLoop))
   + b2z (is_active (s InputLoop)))%Z.

(** What the statement [Loop] has reached says about the three loops it
    launches. *)
Definition phase_ok (k : Ctl) (s : LoopId -> Status) : Prop :=
  match k with
  | Idle | AtConnect | AtConsole | AtSpawnResize | Done (Some _) =>
      s ResizeLoop = NotStarted /\ s OutputLoop = NotStarted
      /\ s InputLoop = NotStarted
  | AtSpawnOutput =>
      s ResizeLoop <> NotStarted /\ s OutputLoop = NotStarted
      /\ s InputLoop = NotStarted
  | AtSpawnInput =>
      s ResizeLoop <> NotStarted /\ s OutputLoop <> NotStarted
      /\ s InputLoop = NotStarted
  | AtWait =>
      s ResizeLoop <> NotStarted /\ s OutputLoop <> NotStarted
      /\ s InputLoop <> NotStarted
  | Done None =>
      has_exited (s ResizeLoop) = true /\ has_exited (s OutputLoop) = true
      /\ has_exited (s InputLoop) = true
  end.

(** The invariant of a run: the counter of the wait group is the number of
    its loops that are running; the acknowledgements are those of the loops
    of the wait group that have returned, each once; the Ping Loop has not
    returned. *)
Record Inv (w : World) : Prop := {
  inv_wg : wg w = count_active (st w);
  inv_ping : has_exited (st w PingLoop) = false;
  inv_acks : forall id, In id (acks w)
                        <-> defers_Done id = true
                            /\ has_exited (st w id) = true;
  inv_nodup : NoDup (acks w);
  inv_phase : phase_ok (ctl w) (st w)
}.

(** The client is connected from the console statement of [Loop] on, and a
    connected client has its tag table. *)
Definition tables_ready (w : World) : Prop :=
  (Connected (client w) = true -> message (client w) <> None)
  /\ match ctl w with
     | Idle | AtConnect | Done _ => True
     | _ => Connected (client w) = true
     end.

(** A world in which [Loop] waits, the signal has been given and the
    process is alive. *)
Definition draining (m : gottyMessageType) (w : World) : Prop :=
  crashed w = false /\ ctl w = AtWait /\ poison (client w) = Closed
  /\ message (client w) = Some m.

(** [Loop] is past its handshake and its terminal set-up: it is launching
    its loops or waiting for them. *)
Definition launching (k : Ctl) : bool :=
  match k with
  | AtSpawnResize | AtSpawnOutput | AtSpawnInput | AtWait => true
  | _ => false
  end.

(** Only the Resize Loop has a part before its [for]. *)
Definition only_resize_starts (w : World) : Prop :=
  forall j, j <> ResizeLoop -> st w j <> Starting.

Section WithLibraries.
Context {N : Url.NetURL} {W : Net} {B : Base64}.

(** A call of [Client.Connect]: the client after it, the goroutine it may
    have launched, the frame it may have written. *)
Definition do_Connect (w : World) : result unit * World :=
  let '(r, (c', evs)) := Connect (client w, []) in
  let w1 := with_client c' (with_io (written evs) [] w) in
  (r, if existsb is_go evs then with_st PingLoop Running w1 else w1).

(** The world when the client has been made and nothing has run. *)
Definition init_world (c : Client) : World :=
  {| client := c; wg := 0; acks := []; ctl := Idle;
     st := fun _ => NotStarted; buff := make_buff; wire := [];
     screen := []; crashed := false |}.

(** One step of the whole program: the caller's thread moves through
    [Loop], a goroutine takes one turn of its body, or somebody outside
    calls [ExitLoop].  The outside (sockets, terminal, signals) may answer
    each turn in any way. *)
Inductive step : World -> World -> Prop :=
| step_user_Connect w :
    crashed w = false -> ctl w = Idle -> Connected (client w) = false ->
    step w (snd (do_Connect w))
| step_call_Loop w :
    crashed w = false -> ctl w = Idle ->
    step w (with_ctl AtConnect w)
| step_Loop_Connect w :
    crashed w = false -> ctl w = AtConnect ->
    Connected (client w) = false ->
    step w (match fst (do_Connect w) with
            | Ok _ => with_ctl AtConsole (snd (do_Connect w))
            | Err e => with_ctl (Done (Some e)) (snd (do_Connect w))
            end)
| step_Loop_connected w :
    crashed w = false -> ctl w = AtConnect ->
    Connected (client w) = true ->
    step w (with_ctl AtConsole w)
| step_Loop_console w (r : option error) :
    crashed w = false -> ctl w = AtConsole ->
    step w (match r with
            | None => with_ctl AtSpawnResize w
            | Some e => with_ctl (Done (Some e)) w
            end)
| step_go_termsizeLoop w :
    crashed w = false -> ctl w = AtSpawnResize ->
    step w (with_ctl AtSpawnOutput (with_st ResizeLoop Starting (wg_Add w)))
| step_go_readLoop w :
    crashed w = false -> ctl w = AtSpawnOutput ->
    step w (with_ctl AtSpawnInput (with_st OutputLoop Running (wg_Add w)))
| step_go_writeLoop w :
    crashed w = false -> ctl w = AtSpawnInput ->
    step w (with_ctl AtWait
              (with_buff make_buff (with_st InputLoop Running (wg_Add w))))
| step_Wait w :
    crashed w = false -> ctl w = AtWait -> wg w = 0%Z ->
    step w (with_ctl (Done None) w)
| step_termsizeLoop_start w m q wr :
    crashed w = false -> st w ResizeLoop = Starting ->
    message (client w) = Some m ->
    step w (apply_turn ResizeLoop
              (termsizeLoop_start m (poison (client w)) q wr) w)
| step_termsizeLoop w m ev :
    crashed w = false -> st w ResizeLoop = Running ->
    message (client w) = Some m ->
    step w (apply_turn ResizeLoop
              (termsizeLoop_turn m (poison (client w)) ev) w)
| step_readLoop w m ev :
    crashed w = false -> st w OutputLoop = Running ->
    message (client w) = Some m ->
    step w (apply_turn OutputLoop
              (readLoop_turn m (poison (client w)) ev) w)
| step_writeLoop w m ev :
    crashed w = false -> st w InputLoop = Running ->
    message (client w) = Some m ->
    step w (with_buff
              (snd (writeLoop_turn m (poison (client w)) (buff w) ev))
              (apply_turn InputLoop
                 (fst (writeLoop_turn m (poison (client w)) (buff w) ev)) w))
| step_pingLoop w m wr :
    crashed w = false -> st w PingLoop = Running ->
    message (client w) = Some m ->
    step w (apply_turn PingLoop (pingLoop_turn m (poison (client w)) wr) w)
| step_ExitLoop w :
    crashed w = false ->
    step w (with_client
              (with_poison (fst (ExitLoop (poison (client w)))) (client w))
              w).

(** The worlds a run can reach. *)
Inductive steps : World -> World -> Prop :=
| steps_refl w : steps w w
| steps_step w1 w2 w3 : steps w1 w2 -> step w2 w3 -> steps w1 w3.

Definition reachable (c : Client) (w : World) : Prop :=
  steps (init_world c) w.

(** A run can be written down as the list of who moves next; [exec] makes
    the move when the program allows it and leaves the world alone when it
    does not. *)
Inductive Action : Type :=
| UserConnect
| CallLoop
| LoopConnect
| LoopConsole (r : option error)
| GoResize
| GoOutput
| GoInput
| WaitReturns
| ResizeStart (q : result (list byte)) (wr : option error)
| ResizeTurn (ev : ResizeEvent)
| OutputTurn (ev : OutputEvent)
| InputTurn (ev : InputEvent)
| PingTurn (wr : option error)
| CallExitLoop.

Definition exec (a : Action) (w : World) : World :=
  if crashed w then w
  else
    match a with
    | UserConnect =>
        match ctl w with
        | Idle => if Connected (client w) then w else snd (do_Connect w)
        | _ => w
        end
    | CallLoop =>
        match ctl w with
        | Idle => with_ctl AtConnect w
        | _ => w
        end
    | LoopConnect =>
        match ctl w with
        | AtConnect =>
            if Connected (client w) then with_ctl AtConsole w
            else match fst (do_Connect w) with
                 | Ok _ => with_ctl AtConsole (snd (do_Connect w))
                 | Err e => with_ctl (Done (Some e)) (snd (do_Connect w))
                 end
        | _ => w
        end
    | LoopConsole r =>
        match ctl w with
        | AtConsole =>
            match r with
            | None => with_ctl AtSpawnResize w
            | Some e => with_ctl (Done (Some e)) w
            end
        | _ => w
        end
    | GoResize =>
        match ctl w with
        | AtSpawnResize =>
            with_ctl AtSpawnOutput (with_st ResizeLoop Starting (wg_Add w))
        | _ => w
        end
    | GoOutput =>
        match ctl w with
        | AtSpawnOutput =>
            with_ctl AtSpawnInput (with_st OutputLoop Running (wg_Add w))
        | _ => w
        end
    | GoInput =>
        match ctl w with
        | AtSpawnInput =>
            with_ctl AtWait
              (with_buff make_buff (with_st InputLoop Running (wg_Add w)))
        | _ => w
        end
    | WaitReturns =>
        match ctl w with
        | AtWait => if Z.eqb (wg w) 0 then with_ctl (Done None) w else w
        | _ => w
        end
    | ResizeStart q wr =>
        match st w ResizeLoop, message (client w) with
        | Starting, Some m =>
            apply_turn ResizeLoop
              (termsizeLoop_start m (poison (client w)) q wr) w
        | _, _ => w
        end
    | ResizeTurn ev =>
        match st w ResizeLoop, message (client w) with
        | Running, Some m =>
            apply_turn ResizeLoop
              (termsizeLoop_turn m (poison (client w)) ev) w
        | _, _ => w
        end
    | OutputTurn ev =>
        match st w OutputLoop, message (client w) with
        | Running, Some m =>
            apply_turn OutputLoop (readLoop_turn m (poison (client w)) ev) w
        | _, _ => w
        end
    | InputTurn ev =>
        match st w InputLoop, message (client w) with
        | Running, Some m =>
            with_buff
              (snd (writeLoop_turn m (poison (client w)) (buff w) ev))
              (apply_turn InputLoop
                 (fst (writeLoop_turn m (poison (client w)) (buff w) ev)) w)
        | _, _ => w
        end
    | PingTurn wr =>
        match st w PingLoop, message (client w) with
        | Running, Some m =>
            apply_turn PingLoop (pingLoop_turn m (poison (client w)) wr) w
        | _, _ => w
        end
    | CallExitLoop =>
        with_client
          (with_poison (fst (ExitLoop (poison (client w)))) (client w)) w
    end.

Definition run (script : list Action) (w : World) : World :=
  fold_left (fun w a => exec a w) script w.

(** What a drained loop leaves: the world is still draining, the loop has
    returned, and so has every loop that had. *)
Definition drained (id : LoopId) (m : gottyMessageType) (w w1 : World)
  : Prop :=
  steps w w1 /\ draining m w1 /\ has_exited (st w1 id) = true
  /\ (forall j, has_exited (st w j) = true -> has_exited (st w1 j) = true).

End WithLibraries.

(** [Loop] has returned without error. *)
Definition Loop_returned (w : World) : Prop := ctl w = Done None.

(** Every loop of [ids] has returned, and has acknowledged it to the wait
    group. *)
Definition all_exited (ids : list LoopId) (w : World) : Prop :=
  forall id, In id ids -> has_exited (st w id) = true.

Definition all_acknowledged (ids : list LoopId) (w : World) : Prop :=
  forall id, In id ids -> In id (acks w).

(** The claim of C1 as the specification words it: whatever the
    environment, when [Loop] has returned, all four loops of the pump have
    returned and have acknowledged it to the controller. *)
Definition Loop_joins_four_loops : Prop :=
  forall (N : Url.NetURL) (W : Handshake.Net) (B : Pump.Base64)
         (c : Client.Client) (w : Session.World),
    Session.reachable c w -> Session.Loop_returned w ->
    Session.all_exited Session.pump_loops w
    /\ Session.all_acknowledged Session.pump_loops w.

End Session.

(** ** The ResizeTerminal payload *)

Module TermSize.

(** [type winsize struct]: two [uint16] fields. *)
Record winsize : Type := {
  Rows : Z;
  Columns : Z
}.

Definition uint16_max : Z := 65535.

Inductive ByteOrder : Type :=
| LittleEndian
| BigEndian.

Definition byte_of_Z (z : Z) : byte :=
  match Strings.Byte.of_N (Z.to_N (z mod 256)) with
  | Some b => b
  | None => x00
  end.

Definition Z_of_byte (b : byte) : Z := Z.of_N (Strings.Byte.to_N b).

(** The two bytes of an unsigned 16-bit field, and the field they hold. *)
Definition put_uint16 (o : ByteOrder) (v : Z) : list byte :=
  let lo := byte_of_Z v in
  let hi := byte_of_Z (v / 256) in
  match o with
  | LittleEndian => [lo; hi]
  | BigEndian => [hi; lo]
  end.

Definition get_uint16 (o : ByteOrder) (bs : list byte) : option Z :=
  match bs with
  | [b0; b1] =>
      match o with
      | LittleEndian => Some (Z_of_byte b0 + 256 * Z_of_byte b1)%Z
      | BigEndian => Some (Z_of_byte b1 + 256 * Z_of_byte b0)%Z
      end
  | _ => None
  end.

(** Modelled from the spec: [syscallTIOCGWINSZ], the helper [termsizeLoop]
    calls to query the terminal and to build the payload of the
    ResizeTerminal frame, is not among the sources.  The specification gives
    the payload as a fixed-size binary structure of two unsigned 16-bit
    fields, rows then columns, in the byte order of the platform; [q] is the
    answer of the terminal, a size or a failure. *)
Definition syscallTIOCGWINSZ (o : ByteOrder) (q : result winsize)
  : result (list byte) :=
  match q with
  | Err e => Err e
  | Ok ws => Ok (put_uint16 o (Rows ws) ++ put_uint16 o (Columns ws))
  end.

(** The frame a resize of a terminal of [ws] puts on the wire. *)
Definition resize_frames_for (m : Codec.gottyMessageType) (o : ByteOrder)
  (ws : winsize) : list Pump.Frame :=
  Pump.resize_frames m (syscallTIOCGWINSZ o (Ok ws)).

End TermSize.

(** ** A concrete environment

    Small stand-ins for the libraries and for the network, to run the model
    on concrete inputs. *)

Module Demo.
Import Url Client Handshake Pump.

(** After the scheme everything is kept as the opaque part, and printed
    with the path behind it. *)
Definition demo_NetURL : NetURL :=
  {| parse_rest := fun scheme rest frag =>
       Ok {| Scheme := scheme; Opaque := rest; Url.User := None; Host := "";
             Path := ""; RawPath := ""; OmitHost := false;
             ForceQuery := false; RawQuery := ""; Fragment := frag;
             RawFragment := frag |};
     string_tail := fun u => (Opaque u ++ Path u)%string;
     Userinfo_String := fun _ => "";
     PathUnescape := fun s => Ok s;
     Query_Encode := fun u => RawQuery u;
     base64_EncodeToString := fun s => s |}.

(** A server that answers every request with [resp] and accepts the
     socket. *)
Definition server (resp : Response) : Net :=
  {| http_NewRequest := fun _ _ => None;
     http_Do := fun _ => Ok resp;
     http_StatusText := fun code => if Z.eqb code 404 then "Not Found"
                                    else "";
     ws_Dial := fun _ _ _ => Ok 1;
     ws_WriteMessage := fun _ _ => None;
     json_Marshal := fun q =>
       Ok (list_byte_of_string (AuthToken q ++ Arguments q)) |}.

Definition good_response : Response :=
  {| StatusCode := 200;
     Body := Ok "var gotty_auth_token = 'secret';" |}.

Definition not_found : Response :=
  {| StatusCode := 404; Body := Ok "404 page not found" |}.

Definition no_token : Response :=
  {| StatusCode := 200; Body := Ok "var gotty_term = 'xterm';" |}.

(** A model of [base64.StdEncoding.DecodeString]: line breaks are skipped,
    then four characters of the standard alphabet give three bytes; the last
    group may end in one or two padding characters. *)
Definition b64_value (b : byte) : option N :=
  let n := Strings.Byte.to_N b in
  if (N.leb 65 n && N.leb n 90)%bool then Some (n - 65)%N
  else if (N.leb 97 n && N.leb n 122)%bool then Some (n - 71)%N
  else if (N.leb 48 n && N.leb n 57)%bool then Some (n + 4)%N
  else if N.eqb n 43 then Some 62%N
  else if N.eqb n 47 then Some 63%N
  else None.

Definition byte_of_N (n : N) : byte :=
  match Strings.Byte.of_N (n mod 256) with
  | Some b => b
  | None => x00
  end.

Definition is_pad (b : byte) : bool := byte_eqb b "="%byte.

Definition is_line_break (b : byte) : bool :=
  (byte_eqb b x0a || byte_eqb b x0d)%bool.

Definition illegal : error := "illegal base64 data".

Fixpoint decode_groups (l : list byte) : result (list byte) :=
  match l with
  | [] => Ok []
  | a :: b :: c :: d :: rest =>
      match b64_value a, b64_value b with
      | Some va, Some vb =>
          let o1 := byte_of_N (va * 4 + vb / 16) in
          if is_pad c then
            if is_pad d then
              match rest with [] => Ok [o1] | _ => Err illegal end
            else Err illegal
          else
            match b64_value c with
            | None => Err illegal
            | Some vc =>
                let o2 := byte_of_N ((vb mod 16) * 16 + vc / 4) in
                if is_pad d then
                  match rest with [] => Ok [o1; o2] | _ => Err illegal end
                else
                  match b64_value d with
                  | None => Err illegal
                  | Some vd =>
                      let o3 := byte_of_N ((vc mod 4) * 64 + vd) in
                      match decode_groups rest with
                      | Ok bs => Ok (o1 :: o2 :: o3 :: bs)
                      | Err e => Err e
                      end
                  end
            end
      | _, _ => Err illegal
      end
  | _ => Err illegal
  end.

Definition StdEncoding_DecodeString (s : list byte) : result (list byte) :=
  decode_groups (filter (fun b => negb (is_line_break b)) s).

Definition demo_Base64 : Base64 :=
  {| base64_DecodeString := StdEncoding_DecodeString |}.

(** A client as [createClient] leaves it for [http://localhost:8080/]. *)
Definition demo_client : Client :=
  {| dialer := {| TLSInsecureSkipVerify := false;
                  ProxyFromEnvironment := false |};
     conn := None;
     URL := "http://localhost:8080/";
     Output := Stdout;
     poison := Poison.Open;
     SkipTLSVerify := false;
     UseProxyFromEnv := false;
     Connected := false;
     EscapeKeys := [x10; x11];
     V2 := true;
     message := None;
     WSOrigin := "";
     Client.User := "";
     Password := "";
     AdminPassword := "";
     PathSuffix := "" |}.

(** The outside at a turn of [writeLoop] at which standard input is at its
    end and the socket takes the frame; and one at which the user typed
    [ls]. *)
Definition eof_event : InputEvent :=
  {| sel := SelOk; fd_set := true; rd_data := []; rd_size := 0;
     rd_err := RdEOF; wr_err := None |}.

Definition typed_ls : InputEvent :=
  {| sel := SelOk; fd_set := true; rd_data := ["l"; "s"]%byte; rd_size := 2;
     rd_err := RdNil; wr_err := None |}.

(** The request [GetAuthToken] makes for [demo_client]. *)
Definition demo_request : Request :=
  {| Method := "GET";
     ReqURL := "http://localhost:8080/auth_token.js";
     ReqHeader := [];
     TransportInsecureSkipVerify := false;
     TransportProxyFromEnvironment := false |}.

Import Session.

(** A run of the demo client against a server that accepts it: [Loop]
    connects and launches its loops, the Ping Loop sends a ping, somebody
    calls [ExitLoop], the three loops see the signal, [Loop] returns, and
    the Ping Loop sends another ping. *)
Definition shutdown_script : list Action :=
  [CallLoop; LoopConnect; LoopConsole None; GoResize; GoOutput; GoInput;
   PingTurn None; CallExitLoop;
   ResizeStart (Err "inappropriate ioctl for device") None;
   ResizeTurn Pump.TsPoison; OutputTurn Pump.RdPoison;
   InputTurn typed_ls; WaitReturns; PingTurn None].

Definition after_shutdown : Session.World :=
  @run demo_NetURL (server good_response) demo_Base64
    shutdown_script (init_world demo_client).


End Demo.

(** ** Go's [strings] package, on ASCII text

    The helpers of package [strings] the command line and the configuration
    code call.  [TrimSpace] and [ToLower] are given for ASCII text, where
    white space is tab, line feed, vertical tab, form feed, carriage return
    and space, and only the letters [A] to [Z] have a lower case; the
    statements that rest on them say so with [is_ascii]. *)

Module GoStrings.

Definition is_ascii_char (c : ascii) : bool := Nat.ltb (nat_of_ascii c) 128.

Fixpoint is_ascii (s : string) : bool :=
  match s with
  | EmptyString => true
  | String c s' => (is_ascii_char c && is_ascii s')%bool
  end.

(** The table [asciiSpace] of package [strings]. *)
Definition is_space (c : ascii) : bool :=
  (Ascii.eqb c "009" || Ascii.eqb c "010" || Ascii.eqb c "011"
   || Ascii.eqb c "012" || Ascii.eqb c "013" || Ascii.eqb c " ")%bool.

Fixpoint TrimLeft_space (s : string) : string :=
  match s with
  | EmptyString => EmptyString
  | String c s' => if is_space c then TrimLeft_space s' else s
  end.

Fixpoint TrimRight_space (s : string) : string :=
  match s with
  | EmptyString => EmptyString
  | String c s' =>
      match TrimRight_space s' with
      | EmptyString => if is_space c then EmptyString else String c EmptyString
      | t => String c t
      end
  end.

(** [strings.TrimSpace], on ASCII text: Go's function also removes the
    white space of Unicode beyond ASCII (U+0085, U+00A0 and others), which
    this one leaves; on a string without bytes above 127 the two agree. *)
Definition TrimSpace (s : string) : string :=
  TrimRight_space (TrimLeft_space s).

(** [strings.ToLower], on ASCII text: bytes above 127 are left as they
    are. *)
Definition ToLower (s : string) : string := Url.ToLower s.

(** [strings.ToUpper], on ASCII text: bytes above 127 are left as they
    are. *)
Definition upper_ascii (c : ascii) : ascii :=
  if Url.is_lower c then ascii_of_nat (nat_of_ascii c - 32) else c.

Fixpoint ToUpper (s : string) : string :=
  match s with
  | EmptyString => EmptyString
  | String c s' => String (upper_ascii c) (ToUpper s')
  end.

(** No byte of [s] is an upper-case ASCII letter. *)
Fixpoint no_upper (s : string) : bool :=
  match s with
  | EmptyString => true
  | String c s' => (negb (Url.is_upper c) && no_upper s')%bool
  end.

(** Every byte of [s] satisfies [P]. *)
Fixpoint all_chars (P : ascii -> bool) (s : string) : bool :=
  match s with
  | EmptyString => true
  | String c s' => (P c && all_chars P s')%bool
  end.

(** [strings.HasPrefix(s, prefix)] *)
Definition HasPrefix (s prefix : string) : bool := String.prefix prefix s.

Fixpoint drop (n : nat) (s : string) : string :=
  match n, s with
  | O, _ => s
  | S n', String _ s' => drop n' s'
  | S _, EmptyString => EmptyString
  end.

Definition take (n : nat) (s : string) : string := substring 0 n s.

(** [strings.HasSuffix(s, suffix)] *)
Definition HasSuffix (s suffix : string) : bool :=
  (Nat.leb (String.length suffix) (String.length s)
   && String.eqb (drop (String.length s - String.length suffix) s) suffix)%bool.

(** [strings.TrimPrefix(s, prefix)] *)
Definition TrimPrefix (s prefix : string) : string :=
  if HasPrefix s prefix then drop (String.length prefix) s else s.

(** [strings.TrimSuffix(s, suffix)] *)
Definition TrimSuffix (s suffix : string) : string :=
  if HasSuffix s suffix
  then take (String.length s - String.length suffix) s
  else s.

(** [strings.Split(s, sep)] for a separator of one byte: the pieces between
    the separators; the empty string gives one empty piece. *)
Fixpoint Split (sep : ascii) (s : string) : list string :=
  match s with
  | EmptyString => [EmptyString]
  | String c s' =>
      if Ascii.eqb c sep then EmptyString :: Split sep s'
      else match Split sep s' with
           | p :: ps => String c p :: ps
           | [] => [String c EmptyString]
           end
  end.

(** [strings.SplitN(s, " ", 2)]: the text before the first space and the
    text after it, or the whole string alone when it has no space. *)
Fixpoint SplitN2_space (s : string) : list string :=
  match s with
  | EmptyString => [EmptyString]
  | String c s' =>
      if Ascii.eqb c " " then [EmptyString; s']
      else match SplitN2_space s' with
           | [a; b] => [String c a; b]
           | _ => [s]
           end
  end.

End GoStrings.

(** ** The command line: [truncate] and [parseDetachKeys] *)

Module Cli.
Import GoStrings.

(** [truncate]: [len(s)] counts bytes, and the slice expression
    [s[:maxLen-3]] panics when its bound is negative. *)
Definition truncate (s : string) (maxLen : Z) : Poison.outcome string :=
  if (Z.of_nat (String.length s) <=? maxLen)%Z then Poison.Returned s
  else if (maxLen - 3 <? 0)%Z
       then Poison.Panicked "slice bounds out of range"
       else Poison.Returned (take (Z.to_nat (maxLen - 3)) s ++ "...")%string.

Definition byte_of_ascii (c : ascii) : byte :=
  match Strings.Byte.of_nat (nat_of_ascii c) with
  | Some b => b
  | None => x00
  end.

(** The [switch part] of [parseDetachKeys]: the bytes one trimmed,
    lower-cased piece appends. *)
Definition key_of_part (part : string) : list byte :=
  if String.eqb part "ctrl-a" then [x01]
  else if String.eqb part "ctrl-b" then [x02]
  else if String.eqb part "ctrl-c" then [x03]
  else if String.eqb part "ctrl-d" then [x04]
  else if String.eqb part "ctrl-e" then [x05]
  else if String.eqb part "ctrl-p" then [x10]
  else if String.eqb part "ctrl-q" then [x11]
  else if String.eqb part "ctrl-x" then [x18]
  else if String.eqb part "ctrl-z" then [x1a]
  else match part with
       | String c EmptyString => [byte_of_ascii c]
       | _ => []
       end.

(** The bytes of the nine named keys. *)
Definition control_keys : list byte :=
  [x01; x02; x03; x04; x05; x10; x11; x18; x1a].

(** [parseDetachKeys] *)
Definition parseDetachKeys (keys : string) : list byte :=
  flat_map (fun part => key_of_part (TrimSpace (ToLower part)))
           (Split "," keys).

End Cli.

(** ** The configuration file

    The later of the two versions of the configuration code in the sources,
    the one with [Callsign] and [SaveHostConfig] that the command line
    uses. *)

Module Config.
Import GoStrings.

(** [strconv.ParseBool]: [None] is its syntax error. *)
Definition strconv_ParseBool (str : string) : option bool :=
  if (String.eqb str "1" || String.eqb str "t" || String.eqb str "T"
      || String.eqb str "TRUE" || String.eqb str "true"
      || String.eqb str "True")%bool then Some true
  else if (String.eqb str "0" || String.eqb str "f" || String.eqb str "F"
           || String.eqb str "FALSE" || String.eqb str "false"
           || String.eqb str "False")%bool then Some false
  else None.

(** [parseBool] *)
Definition parseBool (s : string) : bool :=
  let s := ToLower s in
  match strconv_ParseBool s with
  | Some b => b
  | None => (String.eqb s "yes" || String.eqb s "y")%bool
  end.

(** [matchPattern] *)
Definition matchPattern (pattern str : string) : bool :=
  if String.eqb pattern "*" then true
  else if HasPrefix pattern "*." then
    let suffix := TrimPrefix pattern "*" in
    HasSuffix str suffix
  else if HasSuffix pattern ".*" then
    let prefix := TrimSuffix pattern ".*" in
    HasPrefix str prefix
  else String.eqb pattern str.

(** [type HostConfig struct] *)
Record HostConfig : Type := {
  Host : string;
  URL : string;
  Callsign : string;
  User : string;
  Password : string;
  AdminPassword : string;
  SkipTLSVerify : bool;
  UseProxyFromEnv : bool;
  WSOrigin : string;
  V2 : bool;
  PathSuffix : string
}.

(** [&HostConfig{}] *)
Definition zero : HostConfig :=
  {| Host := ""; URL := ""; Callsign := ""; User := ""; Password := "";
     AdminPassword := ""; SkipTLSVerify := false; UseProxyFromEnv := false;
     WSOrigin := ""; V2 := false; PathSuffix := "" |}.

(** The text fields and the flags of a [HostConfig]. *)
Definition string_fields : list (HostConfig -> string) :=
  [Host; URL; Callsign; User; Password; AdminPassword; WSOrigin; PathSuffix].

Definition flag_fields : list (HostConfig -> bool) :=
  [SkipTLSVerify; UseProxyFromEnv; V2].

(** [if v != "" { field = v }] *)
Definition pick (v old : string) : string :=
  if String.eqb v "" then old else v.

(** One turn of the loop of [MergeHostConfigs]; a nil pointer is skipped. *)
Definition merge_one (result : HostConfig) (config : option HostConfig)
  : HostConfig :=
  match config with
  | None => result
  | Some config =>
      {| Host := pick (Host config) (Host result);
         URL := pick (URL config) (URL result);
         Callsign := pick (Callsign config) (Callsign result);
         User := pick (User config) (User result);
         Password := pick (Password config) (Password result);
         AdminPassword := pick (AdminPassword config) (AdminPassword result);
         SkipTLSVerify := (SkipTLSVerify result || SkipTLSVerify config)%bool;
         UseProxyFromEnv :=
           (UseProxyFromEnv result || UseProxyFromEnv config)%bool;
         WSOrigin := pick (WSOrigin config) (WSOrigin result);
         V2 := (V2 result || V2 config)%bool;
         PathSuffix := pick (PathSuffix config) (PathSuffix result) |}
  end.

(** [MergeHostConfigs(configs...)] *)
Definition MergeHostConfigs (configs : list (option HostConfig))
  : HostConfig :=
  fold_left merge_one configs zero.

(** [HostConfig.ApplyToClient]: the client after the call. *)
Definition ApplyToClient (hc : option HostConfig) (client : Client.Client)
  : Client.Client :=
  match hc with
  | None => client
  | Some hc =>
      {| Client.dialer := Client.dialer client;
         Client.conn := Client.conn client;
         Client.URL := Client.URL client;
         Client.Output := Client.Output client;
         Client.poison := Client.poison client;
         Client.SkipTLSVerify :=
           if SkipTLSVerify hc then SkipTLSVerify hc
           else Client.SkipTLSVerify client;
         Client.UseProxyFromEnv :=
           if UseProxyFromEnv hc then UseProxyFromEnv hc
           else Client.UseProxyFromEnv client;
         Client.Connected := Client.Connected client;
         Client.EscapeKeys := Client.EscapeKeys client;
         Client.V2 := if V2 hc then V2 hc else Client.V2 client;
         Client.message := Client.message client;
         Client.WSOrigin := pick (WSOrigin hc) (Client.WSOrigin client);
         Client.User := pick (User hc) (Client.User client);
         Client.Password := pick (Password hc) (Client.Password client);
         Client.AdminPassword :=
           pick (AdminPassword hc) (Client.AdminPassword client);
         Client.PathSuffix := pick (PathSuffix hc) (Client.PathSuffix client)
      |}
  end.

(** [type Config struct]: the map [Hosts], as its entries in the order in
    which a [range] over it yields them; the keys are distinct. *)
Definition Hosts : Type := list (string * HostConfig).

(** [c.Hosts[key]] *)
Fixpoint lookup (key : string) (hosts : Hosts) : option HostConfig :=
  match hosts with
  | [] => None
  | (k, h) :: rest => if String.eqb k key then Some h else lookup key rest
  end.

(** The [for pattern, host := range c.Hosts] of [GetHostConfig]. *)
Fixpoint first_match (hostAlias : string) (hosts : Hosts)
  : option HostConfig :=
  match hosts with
  | [] => None
  | (pattern, h) :: rest =>
      if matchPattern pattern hostAlias then Some h
      else first_match hostAlias rest
  end.

(** [Config.GetHostConfig]: [None] is the nil pointer. *)
Definition GetHostConfig (hosts : Hosts) (hostAlias : string)
  : option HostConfig :=
  match lookup hostAlias hosts with
  | Some host => Some host
  | None =>
      match first_match hostAlias hosts with
      | Some host => Some host
      | None =>
          match lookup "*" hosts with
          | Some host => Some host
          | None => None
          end
      end
  end.

(** [c.Hosts[name] = h]: the entry of [name] is replaced where it stands,
    a new name is added. *)
Fixpoint set_host (name : string) (h : HostConfig) (hosts : Hosts) : Hosts :=
  match hosts with
  | [] => [(name, h)]
  | (k, v) :: rest =>
      if String.eqb k name then (k, h) :: rest
      else (k, v) :: set_host name h rest
  end.

Definition with_Host (v : string) (h : HostConfig) : HostConfig :=
  {| Host := v; URL := URL h; Callsign := Callsign h; User := User h;
     Password := Password h; AdminPassword := AdminPassword h;
     SkipTLSVerify := SkipTLSVerify h; UseProxyFromEnv := UseProxyFromEnv h;
     WSOrigin := WSOrigin h; V2 := V2 h; PathSuffix := PathSuffix h |}.

(** The assignments [currentHost.URL = value] and the like. *)
Definition set_URL (v : string) (h : HostConfig) : HostConfig :=
  {| Host := Host h; URL := v; Callsign := Callsign h; User := User h;
     Password := Password h; AdminPassword := AdminPassword h;
     SkipTLSVerify := SkipTLSVerify h; UseProxyFromEnv := UseProxyFromEnv h;
     WSOrigin := WSOrigin h; V2 := V2 h; PathSuffix := PathSuffix h |}.

Definition set_Callsign (v : string) (h : HostConfig) : HostConfig :=
  {| Host := Host h; URL := URL h; Callsign := v; User := User h;
     Password := Password h; AdminPassword := AdminPassword h;
     SkipTLSVerify := SkipTLSVerify h; UseProxyFromEnv := UseProxyFromEnv h;
     WSOrigin := WSOrigin h; V2 := V2 h; PathSuffix := PathSuffix h |}.

Definition set_User (v : string) (h : HostConfig) : HostConfig :=
  {| Host := Host h; URL := URL h; Callsign := Callsign h; User := v;
     Password := Password h; AdminPassword := AdminPassword h;
     SkipTLSVerify := SkipTLSVerify h; UseProxyFromEnv := UseProxyFromEnv h;
     WSOrigin := WSOrigin h; V2 := V2 h; PathSuffix := PathSuffix h |}.

Definition set_Password (v : string) (h : HostConfig) : HostConfig :=
  {| Host := Host h; URL := URL h; Callsign := Callsign h; User := User h;
     Password := v; AdminPassword := AdminPassword h;
     SkipTLSVerify := SkipTLSVerify h; UseProxyFromEnv := UseProxyFromEnv h;
     WSOrigin := WSOrigin h; V2 := V2 h; PathSuffix := PathSuffix h |}.

Definition set_AdminPassword (v : string) (h : HostConfig) : HostConfig :=
  {| Host := Host h; URL := URL h; Callsign := Callsign h; User := User h;
     Password := Password h; AdminPassword := v;
     SkipTLSVerify := SkipTLSVerify h; UseProxyFromEnv := UseProxyFromEnv h;
     WSOrigin := WSOrigin h; V2 := V2 h; PathSuffix := PathSuffix h |}.

Definition set_SkipTLSVerify (v : bool) (h : HostConfig) : HostConfig :=
  {| Host := Host h; URL := URL h; Callsign := Callsign h; User := User h;
     Password := Password h; AdminPassword := AdminPassword h;
     SkipTLSVerify := v; UseProxyFromEnv := UseProxyFromEnv h;
     WSOrigin := WSOrigin h; V2 := V2 h; PathSuffix := PathSuffix h |}.

Definition set_UseProxyFromEnv (v : bool) (h : HostConfig) : HostConfig :=
  {| Host := Host h; URL := URL h; Callsign := Callsign h; User := User h;
     Password := Password h; AdminPassword := AdminPassword h;
     SkipTLSVerify := SkipTLSVerify h; UseProxyFromEnv := v;
     WSOrigin := WSOrigin h; V2 := V2 h; PathSuffix := PathSuffix h |}.

Definition set_WSOrigin (v : string) (h : HostConfig) : HostConfig :=
  {| Host := Host h; URL := URL h; Callsign := Callsign h; User := User h;
     Password := Password h; AdminPassword := AdminPassword h;
     SkipTLSVerify := SkipTLSVerify h; UseProxyFromEnv := UseProxyFromEnv h;
     WSOrigin := v; V2 := V2 h; PathSuffix := PathSuffix h |}.

Definition set_V2 (v : bool) (h : HostConfig) : HostConfig :=
  {| Host := Host h; URL := URL h; Callsign := Callsign h; User := User h;
     Password := Password h; AdminPassword := AdminPassword h;
     SkipTLSVerify := SkipTLSVerify h; UseProxyFromEnv := UseProxyFromEnv h;
     WSOrigin := WSOrigin h; V2 := v; PathSuffix := PathSuffix h |}.

Definition set_PathSuffix (v : string) (h : HostConfig) : HostConfig :=
  {| Host := Host h; URL := URL h; Callsign := Callsign h; User := User h;
     Password := Password h; AdminPassword := AdminPassword h;
     SkipTLSVerify := SkipTLSVerify h; UseProxyFromEnv := UseProxyFromEnv h;
     WSOrigin := WSOrigin h; V2 := V2 h; PathSuffix := v |}.

(** The [switch key] of [LoadConfigFromPath]: the host after the
    assignment; an unknown key is logged and changes nothing. *)
Definition set_option (key value : string) (h : HostConfig) : HostConfig :=
  if String.eqb key "URL" then set_URL value h
  else if String.eqb key "Callsign" then set_Callsign value h
  else if String.eqb key "User" then set_User value h
  else if String.eqb key "Password" then set_Password value h
  else if String.eqb key "AdminPassword" then set_AdminPassword value h
  else if String.eqb key "SkipTLSVerify" then
    set_SkipTLSVerify (parseBool value) h
  else if String.eqb key "UseProxyFromEnv" then
    set_UseProxyFromEnv (parseBool value) h
  else if String.eqb key "WSOrigin" then set_WSOrigin value h
  else if String.eqb key "V2" then set_V2 (parseBool value) h
  else if String.eqb key "PathSuffix" then set_PathSuffix value h
  else h.

(** The state of the loop of [LoadConfigFromPath]: the map, and
    [currentHost].  [currentHost] is the pointer the map holds under the
    name of the last [Host] line (a later [Host] line of the same name puts
    a fresh struct there and moves [currentHost] to it), so an assignment
    through it is an update of that entry; it is kept as that name, [None]
    for nil. *)
Definition LoadState : Type := (Hosts * option string)%type.

Definition update_current (cur : string) (f : HostConfig -> HostConfig)
  (hosts : Hosts) : Hosts :=
  match lookup cur hosts with
  | Some h => set_host cur (f h) hosts
  | None => hosts
  end.

Definition line_error (lineNum : nat) (msg : string) : error :=
  ("line " ++ Handshake.string_of_Z (Z.of_nat lineNum) ++ ": " ++ msg)%string.

(** One turn of the [for scanner.Scan()] loop, on line number [lineNum]. *)
Definition load_line (lineNum : nat) (text : string) (st : LoadState)
  : result LoadState :=
  let line := TrimSpace text in
  if (String.eqb line "" || HasPrefix line "#")%bool then Ok st
  else if HasPrefix line "Host " then
    let hostName := TrimSpace (TrimPrefix line "Host ") in
    if String.eqb hostName "" then
      Err (line_error lineNum "Host directive requires a name")
    else Ok (set_host hostName (with_Host hostName zero) (fst st),
             Some hostName)
  else
    match snd st with
    | None =>
        Err (line_error lineNum
               "configuration option outside of Host block")
    | Some cur =>
        match SplitN2_space line with
        | [k; v] =>
            let key := TrimSpace k in
            let value := TrimSpace v in
            Ok (update_current cur (set_option key value) (fst st), Some cur)
        | _ =>
            Err (line_error lineNum
                   ("invalid configuration line: " ++ line)%string)
        end
    end.

(** The loop over the lines the scanner yields, the first of them being
    line [lineNum]. *)
Fixpoint load_lines (lineNum : nat) (lines : list string) (st : LoadState)
  : result LoadState :=
  match lines with
  | [] => Ok st
  | text :: rest =>
      match load_line lineNum text st with
      | Ok st' => load_lines (S lineNum) rest st'
      | Err e => Err e
      end
  end.

(** What [os.Open] and the scanner give: no such file, another error, or
    the lines of the file and the error the scanner ended with. *)
Inductive FileRead : Type :=
| NotExist
| OpenFailed (e : error)
| Lines (lines : list string) (scan_err : option error).

(** [LoadConfigFromPath] *)
Definition LoadConfigFromPath (file : FileRead) : result Hosts :=
  match file with
  | NotExist => Ok []
  | OpenFailed e => Err ("failed to open config file: " ++ e)%string
  | Lines lines scan_err =>
      match load_lines 1 lines ([], None) with
      | Err e => Err e
      | Ok st =>
          match scan_err with
          | Some e => Err ("error reading config file: " ++ e)%string
          | None => Ok (fst st)
          end
      end
  end.

Definition opt_line (key value : string) : list string :=
  if String.eqb value "" then []
  else [("    " ++ key ++ " " ++ value)%string].

Definition flag_line (key : string) (value : bool) : list string :=
  if value then [("    " ++ key ++ " true")%string] else [].

(** The lines [WriteConfig] writes for one entry of the map. *)
Definition host_lines (hostAlias : string) (h : HostConfig) : list string :=
  [("Host " ++ hostAlias)%string]
  ++ opt_line "URL" (URL h)
  ++ opt_line "Callsign" (Callsign h)
  ++ opt_line "User" (User h)
  ++ opt_line "Password" (Password h)
  ++ opt_line "AdminPassword" (AdminPassword h)
  ++ flag_line "SkipTLSVerify" (SkipTLSVerify h)
  ++ flag_line "UseProxyFromEnv" (UseProxyFromEnv h)
  ++ opt_line "WSOrigin" (WSOrigin h)
  ++ flag_line "V2" (V2 h)
  ++ opt_line "PathSuffix" (PathSuffix h)
  ++ [EmptyString].

(** [WriteConfig]: what it writes, one string for each line feed it
    writes, without the line feed. *)
Definition WriteConfig (path : string) (hosts : Hosts) : list string :=
  ["# GoTTY Client Configuration";
   "# Auto-generated and manually editable";
   ("# File location: " ++ path)%string;
   EmptyString]
  ++ flat_map (fun kh => host_lines (fst kh) (snd kh)) hosts.

(** What the file system answers to [SaveHostConfig]: the default path
    (empty when the home directory is unknown), the error of [os.MkdirAll],
    what reading the file gives, and the errors of [os.OpenFile] and of the
    last [writer.Flush]. *)
Record SaveIO : Type := {
  configPath : string;
  mkdir_err : option error;
  existing_file : FileRead;
  open_err : option error;
  flush_err : option error
}.

(** [WriteConfig] with its two errors. *)
Definition WriteConfig_result (io : SaveIO) (hosts : Hosts)
  : result (list string) :=
  match open_err io with
  | Some e => Err ("failed to open config file for writing: " ++ e)%string
  | None =>
      match flush_err io with
      | Some e => Err e
      | None => Ok (WriteConfig (configPath io) hosts)
      end
  end.

(** [SaveHostConfig]: the lines it leaves in the file, or its error.  An
    error of [LoadConfigFromPath] is one made by [fmt.Errorf], for which
    [os.IsNotExist] is false. *)
Definition SaveHostConfig (io : SaveIO) (hostAlias : string)
  (config : HostConfig) : result (list string) :=
  if String.eqb (configPath io) "" then
    Err "could not determine home directory"
  else
    match mkdir_err io with
    | Some e => Err ("failed to create config directory: " ++ e)%string
    | None =>
        match LoadConfigFromPath (existing_file io) with
        | Err e => Err ("failed to load existing config: " ++ e)%string
        | Ok existingConfig =>
            WriteConfig_result io
              (set_host hostAlias (with_Host hostAlias config)
                 existingConfig)
        end
    end.

(** A line in ASCII the loader skips: blank, or a comment. *)
Definition is_skipped (text : string) : bool :=
  let line := TrimSpace text in
  (String.eqb line "" || HasPrefix line "#")%bool.

(** A line in ASCII that opens a block. *)
Definition is_host_line (text : string) : bool :=
  (negb (is_skipped text) && HasPrefix (TrimSpace text) "Host ")%bool.

(** Two results that are both errors, or the same value. *)
Definition agree {A : Type} (r1 r2 : result A) : Prop :=
  match r1, r2 with
  | Ok a, Ok b => a = b
  | Err _, Err _ => True
  | _, _ => False
  end.

(** Text without a line feed. *)
Definition one_line (v : string) : Prop :=
  all_chars (fun c => negb (Ascii.eqb c "010")) v = true.

(** A line as the scanner yields it, in ASCII. *)
Definition file_line (text : string) : Prop :=
  is_ascii text = true /\ one_line text.

(** Text that is written to the file as it is and read back as it is:
    ASCII, on one line, without white space at either end. *)
Definition plain (v : string) : Prop :=
  is_ascii v = true /\ one_line v /\ TrimSpace v = v.

(** The text options and the flags of the file, each with the field it
    sets. *)
Definition text_options
  : list (string * (HostConfig -> string)
          * (string -> HostConfig -> HostConfig)) :=
  [("URL", URL, set_URL); ("Callsign", Callsign, set_Callsign);
   ("User", User, set_User); ("Password", Password, set_Password);
   ("AdminPassword", AdminPassword, set_AdminPassword);
   ("WSOrigin", WSOrigin, set_WSOrigin);
   ("PathSuffix", PathSuffix, set_PathSuffix)].

Definition flag_options
  : list (string * (HostConfig -> bool)
          * (bool -> HostConfig -> HostConfig)) :=
  [("SkipTLSVerify", SkipTLSVerify, set_SkipTLSVerify);
   ("UseProxyFromEnv", UseProxyFromEnv, set_UseProxyFromEnv);
   ("V2", V2, set_V2)].

(** An entry the loader can have made: stored under its own name, which is
    not empty, all its texts plain. *)
Definition plain_host (kh : string * HostConfig) : Prop :=
  Host (snd kh) = fst kh /\ fst kh <> EmptyString
  /\ forall f, In f string_fields -> plain (f (snd kh)).

Definition plain_hosts (hosts : Hosts) : Prop :=
  NoDup (map fst hosts) /\ Forall plain_host hosts.

(** What is read is made of lines in ASCII. *)
Definition file_ok (file : FileRead) : Prop :=
  match file with
  | Lines lines _ => Forall file_line lines
  | _ => True
  end.

End Config.

(** ** A sample configuration *)

Module ConfigDemo.
Import Config.

Definition dev : HostConfig :=
  {| Host := "dev"; URL := "http://localhost:8080"; Callsign := "";
     User := "ham"; Password := "73 de dev"; AdminPassword := "";
     SkipTLSVerify := true; UseProxyFromEnv := false; WSOrigin := "";
     V2 := true; PathSuffix := "/terminal/" |}.

Definition any : HostConfig :=
  {| Host := "*"; URL := ""; Callsign := "M0ABC"; User := "";
     Password := ""; AdminPassword := "secret"; SkipTLSVerify := false;
     UseProxyFromEnv := true; WSOrigin := "http://example.com"; V2 := false;
     PathSuffix := "" |}.

Definition hosts : Hosts := [("dev", dev); ("*", any)].

Definition file : list string :=
  ["# stations"; ""; "Host dev"; "  URL http://localhost:8080";
   "  User ham"; "  V2 yes"].

Definition io : SaveIO :=
  {| configPath := "/home/ham/.config/gotty-client/config";
     mkdir_err := None;
     existing_file := Lines file None;
     open_err := None;
     flush_err := None |}.

(** What loading [file] gives, and the lines that saving [any] under the
    name [*] leaves in the file. *)
Definition loaded : Hosts :=
  match LoadConfigFromPath (Lines file None) with
  | Ok h => h
  | Err _ => []
  end.

Definition saved : list string :=
  match SaveHostConfig io "*" any with
  | Ok written => written
  | Err _ => []
  end.

End ConfigDemo.

(** ** What goes over the socket *)

Module Traffic.
Import Codec Client Pump Session.

(** A frame that starts with one of the three tags the client sends. *)
Definition client_frame (m : gottyMessageType) (f : Frame) : Prop :=
  exists k payload, f = client_tag m k :: payload.

(** The socket has carried at most one message of the handshake, and after
    it only frames of the client in the table [m]. *)
Definition tagged_after_handshake (m : gottyMessageType)
  (frames : list Frame) : Prop :=
  exists hs fs,
    frames = hs ++ fs /\ List.length hs <= 1 /\ Forall (client_frame m) fs.

(** A turn of a loop that does not reopen the channel. *)
Definition keeps_signal (p : Poison.chan) (t : Turn) : Prop :=
  Poison.signaled p = true -> Poison.signaled (poison_after t) = true.

(** A client that has not connected. *)
Definition fresh (c : Client) : Prop :=
  Connected c = false /\ message c = None.

(** What the run keeps true of the socket: the [V2] flag is the one of the
    client at the start, a client that is not connected has no table and has
    sent nothing, a table is the one of the flag, and the traffic is as
    above. *)
Definition wire_ok (c0 : Client) (w : World) : Prop :=
  V2 (client w) = V2 c0
  /\ (Connected (client w) = false
      -> message (client w) = None /\ wire w = [])
  /\ (forall m, message (client w) = Some m -> m = Codec.initMessageType (V2 c0))
  /\ tagged_after_handshake (Codec.initMessageType (V2 c0)) (wire w).

End Traffic.

(** ** Looking up an instance by its callsign *)

Module Instances.
Import GoStrings.

Section WithInstance.

(** [type Instance struct]; the search reads its [Callsign] field only. *)
Variable Instance : Type.
Variable Callsign : Instance -> string.

(** The [for _, instance := range instances.Instances] of
    [FindInstanceByCallsign], [callsign] being upper-cased already. *)
Fixpoint find_instance (callsign : string) (instances : list Instance)
  : option Instance :=
  match instances with
  | [] => None
  | instance :: rest =>
      if String.eqb (ToUpper (Callsign instance)) callsign
      then Some instance
      else find_instance callsign rest
  end.

(** [FindInstanceByCallsign]; [listed] is what [ListInstances] returned. *)
Definition FindInstanceByCallsign (listed : result (list Instance))
  (callsign : string) : result Instance :=
  match listed with
  | Err e => Err e
  | Ok instances =>
      let callsign := ToUpper callsign in
      match find_instance callsign instances with
      | Some instance => Ok instance
      | None => Err ("no instance found with callsign: " ++ callsign)%string
      end
  end.

End WithInstance.

End Instances.

(** ** The command line and the configuration together *)

Module Command.
Import GoStrings Config.

(** [*cli.Context], as far as it is asked: whether a flag is set on the
    command or globally, and its value as a truth value or as text. *)
Record Context : Type := {
  IsSet : string -> bool;
  GlobalIsSet : string -> bool;
  Bool : string -> bool;
  FlagString : string -> string;
  GlobalString : string -> string
}.

(** The assignments [client.V2 = ...] and the like. *)
Definition with_SkipTLSVerify (v : bool)
  (c : Client.Client) : Client.Client :=
  {| Client.dialer := Client.dialer c; Client.conn := Client.conn c;
     Client.URL := Client.URL c; Client.Output := Client.Output c;
     Client.poison := Client.poison c; Client.SkipTLSVerify := v;
     Client.UseProxyFromEnv := Client.UseProxyFromEnv c;
     Client.Connected := Client.Connected c;
     Client.EscapeKeys := Client.EscapeKeys c; Client.V2 := Client.V2 c;
     Client.message := Client.message c;
     Client.WSOrigin := Client.WSOrigin c; Client.User := Client.User c;
     Client.Password := Client.Password c;
     Client.AdminPassword := Client.AdminPassword c;
     Client.PathSuffix := Client.PathSuffix c |}.

Definition with_UseProxyFromEnv (v : bool)
  (c : Client.Client) : Client.Client :=
  {| Client.dialer := Client.dialer c; Client.conn := Client.conn c;
     Client.URL := Client.URL c; Client.Output := Client.Output c;
     Client.poison := Client.poison c;
     Client.SkipTLSVerify := Client.SkipTLSVerify c;
     Client.UseProxyFromEnv := v; Client.Connected := Client.Connected c;
     Client.EscapeKeys := Client.EscapeKeys c; Client.V2 := Client.V2 c;
     Client.message := Client.message c;
     Client.WSOrigin := Client.WSOrigin c; Client.User := Client.User c;
     Client.Password := Client.Password c;
     Client.AdminPassword := Client.AdminPassword c;
     Client.PathSuffix := Client.PathSuffix c |}.

Definition with_V2 (v : bool)
  (c : Client.Client) : Client.Client :=
  {| Client.dialer := Client.dialer c; Client.conn := Client.conn c;
     Client.URL := Client.URL c; Client.Output := Client.Output c;
     Client.poison := Client.poison c;
     Client.SkipTLSVerify := Client.SkipTLSVerify c;
     Client.UseProxyFromEnv := Client.UseProxyFromEnv c;
     Client.Connected := Client.Connected c;
     Client.EscapeKeys := Client.EscapeKeys c; Client.V2 := v;
     Client.message := Client.message c;
     Client.WSOrigin := Client.WSOrigin c; Client.User := Client.User c;
     Client.Password := Client.Password c;
     Client.AdminPassword := Client.AdminPassword c;
     Client.PathSuffix := Client.PathSuffix c |}.

Definition with_WSOrigin (v : string)
  (c : Client.Client) : Client.Client :=
  {| Client.dialer := Client.dialer c; Client.conn := Client.conn c;
     Client.URL := Client.URL c; Client.Output := Client.Output c;
     Client.poison := Client.poison c;
     Client.SkipTLSVerify := Client.SkipTLSVerify c;
     Client.UseProxyFromEnv := Client.UseProxyFromEnv c;
     Client.Connected := Client.Connected c;
     Client.EscapeKeys := Client.EscapeKeys c; Client.V2 := Client.V2 c;
     Client.message := Client.message c; Client.WSOrigin := v;
     Client.User := Client.User c; Client.Password := Client.Password c;
     Client.AdminPassword := Client.AdminPassword c;
     Client.PathSuffix := Client.PathSuffix c |}.

Definition with_User (v : string)
  (c : Client.Client) : Client.Client :=
  {| Client.dialer := Client.dialer c; Client.conn := Client.conn c;
     Client.URL := Client.URL c; Client.Output := Client.Output c;
     Client.poison := Client.poison c;
     Client.SkipTLSVerify := Client.SkipTLSVerify c;
     Client.UseProxyFromEnv := Client.UseProxyFromEnv c;
     Client.Connected := Client.Connected c;
     Client.EscapeKeys := Client.EscapeKeys c; Client.V2 := Client.V2 c;
     Client.message := Client.message c;
     Client.WSOrigin := Client.WSOrigin c; Client.User := v;
     Client.Password := Client.Password c;
     Client.AdminPassword := Client.AdminPassword c;
     Client.PathSuffix := Client.PathSuffix c |}.

Definition with_Password (v : string)
  (c : Client.Client) : Client.Client :=
  {| Client.dialer := Client.dialer c; Client.conn := Client.conn c;
     Client.URL := Client.URL c; Client.Output := Client.Output c;
     Client.poison := Client.poison c;
     Client.SkipTLSVerify := Client.SkipTLSVerify c;
     Client.UseProxyFromEnv := Client.UseProxyFromEnv c;
     Client.Connected := Client.Connected c;
     Client.EscapeKeys := Client.EscapeKeys c; Client.V2 := Client.V2 c;
     Client.message := Client.message c;
     Client.WSOrigin := Client.WSOrigin c; Client.User := Client.User c;
     Client.Password := v; Client.AdminPassword := Client.AdminPassword c;
     Client.PathSuffix := Client.PathSuffix c |}.

Definition with_AdminPassword (v : string)
  (c : Client.Client) : Client.Client :=
  {| Client.dialer := Client.dialer c; Client.conn := Client.conn c;
     Client.URL := Client.URL c; Client.Output := Client.Output c;
     Client.poison := Client.poison c;
     Client.SkipTLSVerify := Client.SkipTLSVerify c;
     Client.UseProxyFromEnv := Client.UseProxyFromEnv c;
     Client.Connected := Client.Connected c;
     Client.EscapeKeys := Client.EscapeKeys c; Client.V2 := Client.V2 c;
     Client.message := Client.message c;
     Client.WSOrigin := Client.WSOrigin c; Client.User := Client.User c;
     Client.Password := Client.Password c; Client.AdminPassword := v;
     Client.PathSuffix := Client.PathSuffix c |}.

Definition with_PathSuffix (v : string)
  (c : Client.Client) : Client.Client :=
  {| Client.dialer := Client.dialer c; Client.conn := Client.conn c;
     Client.URL := Client.URL c; Client.Output := Client.Output c;
     Client.poison := Client.poison c;
     Client.SkipTLSVerify := Client.SkipTLSVerify c;
     Client.UseProxyFromEnv := Client.UseProxyFromEnv c;
     Client.Connected := Client.Connected c;
     Client.EscapeKeys := Client.EscapeKeys c; Client.V2 := Client.V2 c;
     Client.message := Client.message c;
     Client.WSOrigin := Client.WSOrigin c; Client.User := Client.User c;
     Client.Password := Client.Password c;
     Client.AdminPassword := Client.AdminPassword c;
     Client.PathSuffix := v |}.

Definition with_EscapeKeys (v : list byte)
  (c : Client.Client) : Client.Client :=
  {| Client.dialer := Client.dialer c; Client.conn := Client.conn c;
     Client.URL := Client.URL c; Client.Output := Client.Output c;
     Client.poison := Client.poison c;
     Client.SkipTLSVerify := Client.SkipTLSVerify c;
     Client.UseProxyFromEnv := Client.UseProxyFromEnv c;
     Client.Connected := Client.Connected c; Client.EscapeKeys := v;
     Client.V2 := Client.V2 c; Client.message := Client.message c;
     Client.WSOrigin := Client.WSOrigin c; Client.User := Client.User c;
     Client.Password := Client.Password c;
     Client.AdminPassword := Client.AdminPassword c;
     Client.PathSuffix := Client.PathSuffix c |}.

(** [createClient], from [hostConfig.ApplyToClient(client)] to the
    setting of the path suffix: the configuration file first, then the
    flags of the command line.  [client] is what [NewClient] returned and
    [hostConfig] what the look-up in the configuration gave. *)
Definition flag_settings (c : Context) (hostConfig : option HostConfig)
  (client : Client.Client) : Client.Client :=
  let client := ApplyToClient hostConfig client in
  let client := with_V2 true client in
  let client :=
    if (IsSet c "skip-tls-verify" || Bool c "skip-tls-verify")%bool
    then with_SkipTLSVerify (Bool c "skip-tls-verify") client else client in
  let client :=
    if (IsSet c "use-proxy-from-env" || Bool c "use-proxy-from-env")%bool
    then with_UseProxyFromEnv (Bool c "use-proxy-from-env") client
    else client in
  let client :=
    if IsSet c "v2" then with_V2 (Bool c "v2") client else client in
  let client :=
    if IsSet c "ws-origin"
    then with_WSOrigin (FlagString c "ws-origin") client
    else client in
  let client :=
    if IsSet c "user" then with_User (FlagString c "user") client
    else client in
  let client :=
    if IsSet c "password" then with_Password (FlagString c "password") client
    else client in
  let client :=
    if (IsSet c "admin-password" || IsSet c "a")%bool
    then with_AdminPassword (FlagString c "admin-password") client
    else client in
  let client :=
    if (String.eqb (Client.AdminPassword client) ""
        && GlobalIsSet c "admin-password")%bool
    then with_AdminPassword (GlobalString c "admin-password") client
    else client in
  if IsSet c "path-suffix"
  then with_PathSuffix (FlagString c "path-suffix") client
  else if GlobalIsSet c "path-suffix"
  then with_PathSuffix (GlobalString c "path-suffix") client
  else client.

(** [createClient], from [hostConfig.ApplyToClient(client)] to its end:
    the settings above, then the prompt for a password, then the detach
    keys.  [password_read] is what [terminal.ReadPassword] returns if it is
    called. *)
Definition createClient_settings (c : Context)
  (hostConfig : option HostConfig) (password_read : result string)
  (client : Client.Client) : result Client.Client :=
  let client := flag_settings c hostConfig client in
  let prompted :=
    if (negb (String.eqb (Client.User client) "")
        && String.eqb (Client.Password client) ""
        && negb (IsSet c "password"))%bool
    then match password_read with
         | Err e => Err ("failed to read password: " ++ e)%string
         | Ok password => Ok (with_Password password client)
         end
    else Ok client in
  match prompted with
  | Err e => Err e
  | Ok client =>
      Ok (with_EscapeKeys (Cli.parseDetachKeys (FlagString c "detach-keys"))
            client)
  end.

(** The host configuration [saveConnectionConfig] builds from the client
    and the flags. *)
Definition connection_config (c : Context) (client : Client.Client)
  (alias : string) : HostConfig :=
  let hostConfig := with_Host alias zero in
  let hostConfig :=
    if IsSet c "callsign"
    then set_Callsign (ToUpper (FlagString c "callsign")) hostConfig
    else set_URL (Client.URL client) hostConfig in
  let hostConfig :=
    if negb (String.eqb (Client.User client) "")
    then set_User (Client.User client) hostConfig else hostConfig in
  let hostConfig :=
    if (negb (String.eqb (Client.Password client) "")
        && IsSet c "password")%bool
    then set_Password (Client.Password client) hostConfig else hostConfig in
  let hostConfig :=
    if negb (String.eqb (Client.AdminPassword client) "")
    then set_AdminPassword (Client.AdminPassword client) hostConfig
    else hostConfig in
  let hostConfig :=
    if Client.SkipTLSVerify client
    then set_SkipTLSVerify true hostConfig else hostConfig in
  let hostConfig :=
    if Client.UseProxyFromEnv client
    then set_UseProxyFromEnv true hostConfig else hostConfig in
  let hostConfig :=
    if negb (String.eqb (Client.WSOrigin client) "")
    then set_WSOrigin (Client.WSOrigin client) hostConfig else hostConfig in
  let hostConfig :=
    if Client.V2 client then set_V2 true hostConfig else hostConfig in
  if negb (String.eqb (Client.PathSuffix client) "")
  then set_PathSuffix (Client.PathSuffix client) hostConfig
  else hostConfig.

(** [saveConnectionConfig] *)
Definition saveConnectionConfig (io : SaveIO) (c : Context)
  (client : Client.Client) (alias : string) : result (list string) :=
  SaveHostConfig io alias (connection_config c client alias).

(** The settings a host configuration can carry are those of [client]. *)
Definition same_settings (password_kept : bool) (client restored : Client.Client)
  : Prop :=
  Client.User restored = Client.User client
  /\ Client.Password restored
     = (if password_kept then Client.Password client else EmptyString)
  /\ Client.AdminPassword restored = Client.AdminPassword client
  /\ Client.SkipTLSVerify restored = Client.SkipTLSVerify client
  /\ Client.UseProxyFromEnv restored = Client.UseProxyFromEnv client
  /\ Client.WSOrigin restored = Client.WSOrigin client
  /\ Client.V2 restored = Client.V2 client
  /\ Client.PathSuffix restored = Client.PathSuffix client.

(** A context in which no flag is set. *)
Definition no_flags : Context :=
  {| IsSet := fun _ => false; GlobalIsSet := fun _ => false;
     Bool := fun _ => false; FlagString := fun _ => EmptyString;
     GlobalString := fun _ => EmptyString |}.

(** A command line with [--password hunter2] and nothing else. *)
Definition password_flag : Context :=
  {| IsSet := fun f => String.eqb f "password";
     GlobalIsSet := fun _ => false;
     Bool := fun _ => false;
     FlagString := fun f => if String.eqb f "password" then "hunter2"
                            else EmptyString;
     GlobalString := fun _ => EmptyString |}.

(** A client without settings: what [NewClient] returns. *)
Definition blank (c : Client.Client) : Prop :=
  Client.User c = EmptyString /\ Client.Password c = EmptyString
  /\ Client.AdminPassword c = EmptyString
  /\ Client.SkipTLSVerify c = false /\ Client.UseProxyFromEnv c = false
  /\ Client.WSOrigin c = EmptyString /\ Client.V2 c = false
  /\ Client.PathSuffix c = EmptyString.

End Command.

(** ** A sample connection *)

Module CommandDemo.
Import Config Command.

(** A client as [NewClient] makes it. *)
Definition new_client : Client.Client :=
  {| Client.dialer := {| Client.TLSInsecureSkipVerify := false;
                         Client.ProxyFromEnvironment := false |};
     Client.conn := None;
     Client.URL := "http://localhost:8080/terminal/";
     Client.Output := Client.Stdout;
     Client.poison := Poison.Open;
     Client.SkipTLSVerify := false;
     Client.UseProxyFromEnv := false;
     Client.Connected := false;
     Client.EscapeKeys := [];
     Client.V2 := false;
     Client.message := None;
     Client.WSOrigin := "";
     Client.User := "";
     Client.Password := "";
     Client.AdminPassword := "";
     Client.PathSuffix := "" |}.

(** The client of a connection made with a user, an admin password and
    without certificate checks. *)
Definition connected_client : Client.Client :=
  with_EscapeKeys [x10; x11]
    (with_PathSuffix "/terminal/"
       (with_AdminPassword "secret"
          (with_Password "hunter2"
             (with_User "ham"
                (with_V2 true (with_SkipTLSVerify true new_client)))))).

(** The lines [saveConnectionConfig] leaves for it under the name [dev],
    no flag being set. *)
Definition saved : list string :=
  match saveConnectionConfig ConfigDemo.io no_flags connected_client "dev" with
  | Ok written => written
  | Err _ => []
  end.

End CommandDemo.

(** * Properties *)

(** ** Bytes *)

Lemma byte_eqb_eq (a b : byte) : byte_eqb a b = true <-> a = b.
Proof.
  split.
  - apply Strings.Byte.byte_dec_bl.
  - apply Strings.Byte.byte_dec_lb.
Qed.

Lemma byte_eqb_refl (a : byte) : byte_eqb a a = true.
Proof. now apply byte_eqb_eq. Qed.

Lemma byte_eqb_neq (a b : byte) : byte_eqb a b = false <-> a <> b.
Proof.
  split.
  - intros H E. apply byte_eqb_eq in E. congruence.
  - intros H. destruct (byte_eqb a b) eqn:E; [|reflexivity].
    apply byte_eqb_eq in E. contradiction.
Qed.

(** ** The tag tables *)

Section CodecFacts.
Import Codec.

Example server_tags_v1 :
  server_tags (initMessageType false) = ["0"; "1"; "2"; "3"; "4"]%byte.
Proof. reflexivity. Qed.

Example server_tags_v2 :
  server_tags (initMessageType true) = ["1"; "2"; "3"; "4"; "5"]%byte.
Proof. reflexivity. Qed.

Example client_tags_v1 :
  client_tags (initMessageType false) = ["0"; "1"; "2"]%byte.
Proof. reflexivity. Qed.

Example client_tags_v2 :
  client_tags (initMessageType true) = ["1"; "2"; "3"]%byte.
Proof. reflexivity. Qed.

(** C2, counterexample: the byte ['1'] is the Pong tag of the legacy table
    and the Output tag of the current one, and it is the Ping tag of the
    legacy table and the Input tag of the current one; so neither direction
    has disjoint tag sets. *)
Lemma tag_tables_overlap :
  server_tag (initMessageType false) KPong = "1"%byte
  /\ server_tag (initMessageType true) KOutput = "1"%byte
  /\ client_tag (initMessageType false) KPing = "1"%byte
  /\ client_tag (initMessageType true) KInput = "1"%byte
  /\ ~ tag_tables_disjoint.
Proof.
  repeat split.
  intros [Hs _]. apply (Hs "1"%byte); simpl; tauto.
Qed.

(** C2, amended: the two revisions use different tables.  For every kind of
    either direction the current revision's tag is the legacy tag plus one,
    so no kind keeps its tag from one revision to the other; the tag sets
    themselves overlap, in exactly the bytes ['1'] to ['4'] (server to
    client) and ['1'], ['2'] (client to server). *)
Theorem tag_tables_shifted :
  (forall k : ServerKind,
      Strings.Byte.to_N (server_tag (initMessageType true) k)
      = (Strings.Byte.to_N (server_tag (initMessageType false) k) + 1)%N
      /\ server_tag (initMessageType true) k
         <> server_tag (initMessageType false) k)
  /\ (forall k : ClientKind,
      Strings.Byte.to_N (client_tag (initMessageType true) k)
      = (Strings.Byte.to_N (client_tag (initMessageType false) k) + 1)%N
      /\ client_tag (initMessageType true) k
         <> client_tag (initMessageType false) k)
  /\ (forall b : byte,
      In b (server_tags (initMessageType false))
      /\ In b (server_tags (initMessageType true))
      <-> In b ["1"; "2"; "3"; "4"]%byte)
  /\ (forall b : byte,
      In b (client_tags (initMessageType false))
      /\ In b (client_tags (initMessageType true))
      <-> In b ["1"; "2"]%byte).
Proof.
  split; [|split; [|split]].
  - intros []; split; (reflexivity || discriminate).
  - intros []; split; (reflexivity || discriminate).
  - intros b. simpl. split.
    + intros [H1 H2].
      repeat (destruct H1 as [H1|H1]; [subst b|]); try contradiction;
        repeat (destruct H2 as [H2|H2]; [try discriminate H2|]);
        try contradiction; tauto.
    + intros H.
      repeat (destruct H as [H|H]; [subst b; tauto|]). contradiction.
  - intros b. simpl. split.
    + intros [H1 H2].
      repeat (destruct H1 as [H1|H1]; [subst b|]); try contradiction;
        repeat (destruct H2 as [H2|H2]; [try discriminate H2|]);
        try contradiction; tauto.
    + intros H.
      repeat (destruct H as [H|H]; [subst b; tauto|]). contradiction.
Qed.

Lemma NoDup_server_tags (V2 : bool) :
  NoDup (server_tags (initMessageType V2)).
Proof.
  destruct V2; simpl;
    repeat (constructor;
            [simpl; intros H;
             repeat (destruct H as [H|H]; [discriminate H|]); exact H|]);
    constructor.
Qed.

Lemma NoDup_client_tags (V2 : bool) :
  NoDup (client_tags (initMessageType V2)).
Proof.
  destruct V2; simpl;
    repeat (constructor;
            [simpl; intros H;
             repeat (destruct H as [H|H]; [discriminate H|]); exact H|]);
    constructor.
Qed.

Lemma dispatch_server_tag (V2 : bool) (k : ServerKind) :
  dispatch (initMessageType V2) (server_tag (initMessageType V2) k) = Some k.
Proof. destruct V2, k; reflexivity. Qed.

(** A tag [dispatch] accepts is the tag of the kind it returns. *)
Lemma dispatch_sound (m : gottyMessageType) (tag : byte) (k : ServerKind) :
  dispatch m tag = Some k -> server_tag m k = tag.
Proof.
  unfold dispatch.
  repeat match goal with
         | |- context [byte_eqb ?a ?b] =>
             let E := fresh "E" in
             destruct (byte_eqb a b) eqn:E;
             [apply byte_eqb_eq in E;
              intros H; injection H as <-; simpl; congruence|]
         end.
  discriminate.
Qed.

(** C6: in each revision the tags of the five server-to-client kinds are
    pairwise distinct, and so are the tags of the three client-to-server
    kinds; hence the table is injective in each direction, and decoding the
    tag of a server-to-client kind with the dispatch of the Output Loop
    gives the kind back. *)
Theorem tag_table_roundtrip (V2 : bool) :
  let m := initMessageType V2 in
  NoDup (server_tags m)
  /\ NoDup (client_tags m)
  /\ (forall k1 k2 : ServerKind, server_tag m k1 = server_tag m k2 -> k1 = k2)
  /\ (forall k1 k2 : ClientKind, client_tag m k1 = client_tag m k2 -> k1 = k2)
  /\ (forall k : ServerKind, dispatch m (server_tag m k) = Some k)
  /\ (forall (tag : byte) (k : ServerKind),
         dispatch m tag = Some k <-> tag = server_tag m k).
Proof.
  cbv zeta.
  split; [apply NoDup_server_tags|].
  split; [apply NoDup_client_tags|].
  split; [destruct V2; intros [] []; simpl; intros H;
          (reflexivity || discriminate H)|].
  split; [destruct V2; intros [] []; simpl; intros H;
          (reflexivity || discriminate H)|].
  split; [apply dispatch_server_tag|].
  intros tag k. split.
  - intros H. symmetry. now apply dispatch_sound.
  - intros ->. apply dispatch_server_tag.
Qed.

End CodecFacts.

(** ** The poison channel *)

Section PoisonFacts.
Import Poison.

Lemma close_closes (c : chan) : fst (close c) = Closed.
Proof. now destruct c. Qed.

(** The second close is the one that panics. *)
Example close_twice_panics :
  snd (close (fst (close Open))) = Panicked "close of closed channel".
Proof. reflexivity. Qed.

Lemma openPoison_spec (fname : string) (c : chan) :
  openPoison fname c = (Closed, Returned committedSuicide).
Proof. now destruct c. Qed.

Lemma ExitLoop_spec (c : chan) : ExitLoop c = (Closed, Returned tt).
Proof. now destruct c. Qed.

Lemma signal_all_outcomes (fnames : list string) (c : chan) :
  snd (signal_all fnames c)
  = map (fun _ => Returned committedSuicide) fnames.
Proof.
  revert c. induction fnames as [|f fs IH]; intros c; simpl.
  - reflexivity.
  - rewrite openPoison_spec.
    specialize (IH Closed).
    destruct (signal_all fs Closed) as [p2 rs]. simpl in *. now rewrite IH.
Qed.

Lemma signal_all_Closed (fnames : list string) :
  fst (signal_all fnames Closed) = Closed.
Proof.
  induction fnames as [|f fs IH]; simpl.
  - reflexivity.
  - destruct (signal_all fs Closed) as [p2 rs]. exact IH.
Qed.

Lemma signal_all_cons (f : string) (fs : list string) (c : chan) :
  fst (signal_all (f :: fs) c) = Closed.
Proof.
  simpl. rewrite openPoison_spec.
  pose proof (signal_all_Closed fs) as H.
  destruct (signal_all fs Closed) as [p2 rs]. exact H.
Qed.

Lemma die_Closed (fname : string) : die fname Closed = Some killed.
Proof. reflexivity. Qed.

(** C3: signalling is idempotent.  Take any state of the channel and any
    signal attempts, one or more, in whatever order their close steps
    interleave: each attempt returns normally (no panic leaves
    [openPoison]), the channel ends up closed, a check of the signal then
    finds it signaled and a receive returns at once, and this stays so under
    every later attempt.  In particular [ExitLoop] returns normally on an
    open and on a closed channel, so calling it twice after a loop has
    signaled raises nothing. *)
Theorem signal_idempotent (fname : string) (more : list string) (c : chan) :
  fst (signal_all (fname :: more) c) = Closed
  /\ Forall (fun r => r = Returned committedSuicide)
            (snd (signal_all (fname :: more) c))
  /\ signaled (fst (signal_all (fname :: more) c)) = true
  /\ recv (fst (signal_all (fname :: more) c)) = Some false
  /\ (forall later : list string,
         signaled
           (fst (signal_all later (fst (signal_all (fname :: more) c))))
         = true)
  /\ ExitLoop c = (Closed, Returned tt)
  /\ ExitLoop (fst (ExitLoop (fst (openPoison fname c))))
     = (Closed, Returned tt).
Proof.
  rewrite signal_all_cons.
  split; [reflexivity|].
  split.
  - rewrite signal_all_outcomes. apply Forall_forall.
    intros r Hr. apply in_map_iff in Hr. destruct Hr as [x [Hx _]]. now subst.
  - split; [reflexivity|]. split; [reflexivity|]. split.
    + intros later. now rewrite signal_all_Closed.
    + split; apply ExitLoop_spec.
Qed.

End PoisonFacts.

(** ** URL normalisation *)

Section UrlFacts.
Import Url Client.
Context {N : NetURL}.

Lemma is_http_cases (scheme : string) :
  is_http scheme = true -> scheme = "http" \/ scheme = "https".
Proof.
  unfold is_http. intros H. apply orb_true_iff in H.
  destruct H as [H|H]; apply String.eqb_eq in H; auto.
Qed.

Lemma with_Scheme_Scheme (s : string) (u : Url.URL) : Scheme (with_Scheme s u) = s.
Proof. reflexivity. Qed.

(** A string that starts with [http://] parses, if at all, to a URL of
    scheme [http]. *)
Lemma Parse_http_prefix (input : string) (p : Url.URL) :
  Parse ("http://" ++ input) = Ok p -> Scheme p = "http".
Proof.
  unfold Parse. simpl.
  destruct (cut_hash input) as [a b]. simpl.
  change (String (lower_ascii "h") (String (lower_ascii "t")
            (String (lower_ascii "t") (String (lower_ascii "p") ""))))
    with "http".
  destruct (stringContainsCTLByte a); [discriminate|].
  destruct (parse_rest "http" (String "/" (String "/" a)) b) as [url|e];
    [|discriminate].
  intros H. injection H as <-. reflexivity.
Qed.

(** The scheme [getScheme] reads off the text [URL.String] writes. *)
Lemma getScheme_URL_String (u : Url.URL) :
  is_http (Scheme u) = true ->
  getScheme (URL_String u) = Ok (Scheme u, string_tail u).
Proof.
  intros H. apply is_http_cases in H. unfold URL_String.
  destruct H as [H|H]; rewrite H; reflexivity.
Qed.

Lemma ParseURL_enough_fuel (fuel : nat) (input : string) :
  2 <= fuel -> ParseURL fuel input = Some (ParseURL_result input).
Proof.
  intros Hf. destruct fuel as [|[|k]]; try lia.
  unfold ParseURL_result. cbn [ParseURL].
  destruct (Parse input) as [parsed|e]; [|reflexivity].
  fold (is_http (Scheme parsed)).
  destruct (is_http (Scheme parsed)); [reflexivity|].
  change (String "h" (String "t" (String "t" (String "p"
            (String ":" (String "/" (String "/" input)))))))
    with ("http://" ++ input).
  destruct (Parse ("http://" ++ input)) as [p'|e] eqn:E; [|reflexivity].
  apply Parse_http_prefix in E. rewrite E. reflexivity.
Qed.

Lemma ParseURL_result_scheme (input s : string) :
  ParseURL_result input = Ok s ->
  exists rest,
    getScheme s = Ok ("http", rest) \/ getScheme s = Ok ("https", rest).
Proof.
  unfold ParseURL_result.
  destruct (Parse input) as [parsed|e]; [|discriminate].
  destruct (is_http (Scheme parsed)) eqn:E.
  - intros H. injection H as <-. exists (string_tail parsed).
    rewrite (getScheme_URL_String _ E).
    apply is_http_cases in E. destruct E as [-> | ->]; auto.
  - destruct (Parse ("http://" ++ input)) as [p'|e] eqn:E'; [|discriminate].
    intros H. injection H as <-. exists (string_tail p').
    apply Parse_http_prefix in E'.
    rewrite getScheme_URL_String by (rewrite E'; reflexivity).
    rewrite E'. auto.
Qed.

(** Whatever the rest of the parser does, a host given by its number
    with a port does not parse: the text has no scheme and a colon in its
    first path segment. *)
Lemma Parse_digit_host_port :
  Parse "1.2.3.4:80" = Err "first path segment in URL cannot contain colon".
Proof. reflexivity. Qed.

Lemma Parse_relative_with_colon (input scheme rest : string) :
  stringContainsCTLByte (fst (cut_hash input)) = false ->
  fst (cut_hash input) <> "*" ->
  getScheme (fst (cut_hash input)) = Ok (scheme, rest) ->
  relative_with_colon (ToLower scheme) rest = true ->
  Parse input = Err "first path segment in URL cannot contain colon".
Proof.
  unfold Parse. destruct (cut_hash input) as [u frag]. cbn [fst].
  intros -> Hstar -> ->.
  apply String.eqb_neq in Hstar. now rewrite Hstar.
Qed.

(** C9: [ParseURL] returns on every input, and one level of self-recursion
    is all it ever uses (a bound of two calls is enough, whatever the
    input).  What it returns is decided by [url.Parse] on the input as it
    stands: its error, without any retry, when the input does not parse,
    which is the case of every input without scheme whose first path
    segment holds a colon (a host given by its number, with a port); the
    text of the parsed URL when its scheme is [http] or [https]; and for
    every other scheme, or none, what parsing the input with [http://] in
    front gives, a text of scheme [http].  So a text it returns has scheme
    [http] or [https].  [NewClient] fails with the same error or returns a
    client whose [URL] is that text. *)
Theorem ParseURL_normalizes (input : string) :
  exists r : result string,
    (forall fuel, 2 <= fuel -> ParseURL fuel input = Some r)
    /\ match r with
       | Err _ => True
       | Ok s =>
           exists rest,
             getScheme s = Ok ("http", rest)
             \/ getScheme s = Ok ("https", rest)
       end
    /\ (forall e, Parse input = Err e -> r = Err e)
    /\ (forall scheme rest,
           stringContainsCTLByte (fst (cut_hash input)) = false ->
           fst (cut_hash input) <> "*" ->
           getScheme (fst (cut_hash input)) = Ok (scheme, rest) ->
           relative_with_colon (ToLower scheme) rest = true ->
           r = Err "first path segment in URL cannot contain colon")
    /\ (forall parsed,
           Parse input = Ok parsed ->
           Scheme parsed = "http" \/ Scheme parsed = "https" ->
           r = Ok (URL_String parsed))
    /\ (forall parsed,
           Parse input = Ok parsed ->
           Scheme parsed <> "http" -> Scheme parsed <> "https" ->
           r = match Parse ("http://" ++ input) with
               | Err e => Err e
               | Ok parsed' => Ok (URL_String parsed')
               end
           /\ forall parsed',
               Parse ("http://" ++ input) = Ok parsed' ->
               Scheme parsed' = "http")
    /\ (forall fuel, 2 <= fuel ->
           match r with
           | Err e => NewClient fuel input = Some (Err e)
           | Ok s =>
               exists c, NewClient fuel input = Some (Ok c)
                         /\ URL c = s
                         /\ poison c = Poison.Open
                         /\ Connected c = false
           end).
Proof.
  exists (ParseURL_result input).
  split; [intros fuel Hf; now apply ParseURL_enough_fuel|].
  split.
  { destruct (ParseURL_result input) as [s|e] eqn:E; [|exact I].
    now apply (ParseURL_result_scheme input). }
  split.
  { intros e HP. unfold ParseURL_result. now rewrite HP. }
  split.
  { intros scheme rest H1 H2 H3 H4. unfold ParseURL_result.
    now rewrite (Parse_relative_with_colon input scheme rest H1 H2 H3 H4). }
  split.
  { intros parsed HP Hs. unfold ParseURL_result. rewrite HP.
    assert (is_http (Scheme parsed) = true) as ->; [|reflexivity].
    unfold is_http. destruct Hs as [-> | ->]; reflexivity. }
  split.
  - intros parsed HP H1 H2. split.
    + unfold ParseURL_result. rewrite HP.
      assert (is_http (Scheme parsed) = false) as ->; [|reflexivity].
      destruct (is_http (Scheme parsed)) eqn:E; [|reflexivity].
      apply is_http_cases in E. tauto.
    + intros parsed'. apply (Parse_http_prefix input).
  - intros fuel Hf. unfold NewClient.
    rewrite (ParseURL_enough_fuel _ _ Hf).
    destruct (ParseURL_result input) as [s|e]; [|reflexivity].
    eexists. split; [reflexivity|]. simpl. auto.
Qed.

End UrlFacts.

(** C9, counterexample: [1.2.3.4:80] is an input of the form host:port
    without the scheme [http] or [https], and with [http://] in front it
    parses; yet [ParseURL] and [NewClient] return the error of [url.Parse]
    on the input as it stands, and nothing is prepended.  The error comes
    from the part of [url.Parse] before anything the stand-in parser
    decides. *)
Lemma ParseURL_rejects_digit_host :
  @Url.ParseURL Demo.demo_NetURL 2 "1.2.3.4:80"
  = Some (Err "first path segment in URL cannot contain colon")
  /\ @Client.NewClient Demo.demo_NetURL 2 "1.2.3.4:80"
     = Some (Err "first path segment in URL cannot contain colon")
  /\ Url.has_http_scheme "1.2.3.4:80" = false
  /\ @Url.ParseURL Demo.demo_NetURL 2 "http://1.2.3.4:80"
     = Some (Ok "http://1.2.3.4:80")
  /\ ~ @Url.prefixes_every_other_input Demo.demo_NetURL.
Proof.
  split; [reflexivity|]. split; [reflexivity|]. split; [reflexivity|].
  split; [reflexivity|].
  intros H. specialize (H "1.2.3.4:80"%string eq_refl).
  vm_compute in H. discriminate H.
Qed.

(** The same for a port alone: the scheme is missing. *)
Example ParseURL_port_alone :
  @Url.ParseURL Demo.demo_NetURL 2 ":8080"
  = Some (Err "missing protocol scheme").
Proof. reflexivity. Qed.

(** With the stand-in parser: a bare [host:port] whose host starts with a
    letter reads as scheme [localhost] first, so the prefix is added once; a
    bound of one call is not enough for it, and a URL that has its scheme
    needs no recursion. *)
Example ParseURL_host_port :
  @Url.ParseURL Demo.demo_NetURL 2 "localhost:8080"
  = Some (Ok "http://localhost:8080").
Proof. reflexivity. Qed.

Example ParseURL_host_port_one_call :
  @Url.ParseURL Demo.demo_NetURL 1 "localhost:8080" = None.
Proof. reflexivity. Qed.

Example ParseURL_https :
  @Url.ParseURL Demo.demo_NetURL 1 "HTTPS://example.org/x"
  = Some (Ok "https://example.org/x").
Proof. reflexivity. Qed.

Example ParseURL_control_byte :
  @Url.ParseURL Demo.demo_NetURL 2 (String "009" "host")
  = Some (Err "net/url: invalid control character in URL").
Proof. reflexivity. Qed.

(** ** The token pattern *)

Section PatternFacts.
Import Handshake.
Local Open Scope string_scope.

Lemma append_assoc (a b c : string) : (a ++ b) ++ c = a ++ (b ++ c).
Proof. induction a as [|x a IH]; simpl; [reflexivity|now rewrite IH]. Qed.

Lemma strip_prefix_sound (p s r : string) :
  strip_prefix p s = Some r -> s = p ++ r.
Proof.
  revert s. induction p as [|a p IH]; intros s H; simpl in *.
  - now injection H as ->.
  - destruct s as [|b s]; [discriminate|].
    destruct (Ascii.eqb a b) eqn:E; [|discriminate].
    apply Ascii.eqb_eq in E. subst b. now rewrite (IH _ H).
Qed.

Lemma strip_prefix_complete (p r : string) : strip_prefix p (p ++ r) = Some r.
Proof.
  induction p as [|a p IH]; simpl; [reflexivity|].
  now rewrite Ascii.eqb_refl.
Qed.

Lemma up_to_last_quote_sound (l t : string) :
  up_to_last_quote l = Some t -> exists post, l = t ++ "'" ++ post.
Proof.
  revert t. induction l as [|c l IH]; intros t H; simpl in H.
  - discriminate.
  - destruct (up_to_last_quote l) as [t'|].
    + injection H as <-. destruct (IH t' eq_refl) as [post ->].
      now exists post.
    + destruct (Ascii.eqb c quote) eqn:E; [|discriminate].
      injection H as <-. apply Ascii.eqb_eq in E. subst c. now exists l.
Qed.

Lemma up_to_last_quote_complete (a b : string) :
  up_to_last_quote (a ++ "'" ++ b) <> None.
Proof.
  induction a as [|c a IH]; simpl in *.
  - destruct (up_to_last_quote b); discriminate.
  - destruct (up_to_last_quote (a ++ String "'" b)) eqn:E; [discriminate|].
    now elim IH.
Qed.

Lemma line_of_split (s : string) : exists rest, s = line_of s ++ rest.
Proof.
  induction s as [|c s [rest IH]]; simpl.
  - now exists "".
  - destruct (Ascii.eqb c newline).
    + now exists (String c s).
    + exists rest. simpl. now rewrite <- IH.
Qed.

Lemma line_of_no_newline (s : string) : no_newline (line_of s).
Proof.
  induction s as [|c s IH]; simpl; [exact I|].
  destruct (Ascii.eqb c newline) eqn:E; simpl; [exact I|].
  split; [now apply Ascii.eqb_neq|exact IH].
Qed.

Lemma no_newline_app_l (a b : string) : no_newline (a ++ b) -> no_newline a.
Proof.
  induction a as [|c a IH]; simpl; [trivial|].
  intros [H1 H2]. auto.
Qed.

Lemma line_of_app (a b : string) :
  no_newline a -> line_of (a ++ b) = a ++ line_of b.
Proof.
  induction a as [|c a IH]; simpl; [reflexivity|].
  intros [H1 H2]. apply Ascii.eqb_neq in H1. rewrite H1. now rewrite IH.
Qed.

Lemma match_here_sound (s t : string) :
  match_here s = Some t ->
  exists post, s = token_prefix ++ t ++ "'" ++ post /\ no_newline t.
Proof.
  unfold match_here.
  destruct (strip_prefix token_prefix s) as [r|] eqn:E; [|discriminate].
  intros H. apply strip_prefix_sound in E.
  destruct (up_to_last_quote_sound _ _ H) as [post Hl].
  destruct (line_of_split r) as [rest Hr].
  exists (post ++ rest). split.
  - rewrite E. f_equal. rewrite Hr at 1. rewrite Hl.
    rewrite append_assoc. simpl. reflexivity.
  - apply (no_newline_app_l t ("'" ++ post)).
    rewrite <- Hl. apply line_of_no_newline.
Qed.

Lemma match_here_complete (tok post : string) :
  no_newline tok ->
  match_here (token_prefix ++ tok ++ "'" ++ post) <> None.
Proof.
  intros H. unfold match_here. rewrite strip_prefix_complete.
  rewrite line_of_app by exact H.
  change (line_of ("'" ++ post)) with ("'" ++ line_of post).
  apply up_to_last_quote_complete.
Qed.

(** [FindStringSubmatch] finds a match exactly when the body contains the
    pattern. *)
Lemma FindStringSubmatch_sound (body : string) :
  FindStringSubmatch body <> [] -> contains_token_pattern body.
Proof.
  induction body as [|c body IH]; simpl.
  - destruct (match_here "") as [t|] eqn:E; [|congruence].
    intros _. destruct (match_here_sound _ _ E) as [post [H1 H2]].
    now exists "", t, post.
  - destruct (match_here (String c body)) as [t|] eqn:E.
    + intros _. destruct (match_here_sound _ _ E) as [post [H1 H2]].
      now exists "", t, post.
    + intros H. destruct (IH H) as [pre [tok [post [H1 H2]]]].
      exists (String c pre), tok, post. simpl. now rewrite H1.
Qed.

Lemma FindStringSubmatch_complete (body : string) :
  contains_token_pattern body -> FindStringSubmatch body <> [].
Proof.
  intros [pre [tok [post [-> Htok]]]].
  induction pre as [|c pre IH].
  - pose proof (match_here_complete tok post Htok) as H.
    change ("" ++ token_prefix ++ tok ++ "'" ++ post)
      with (token_prefix ++ tok ++ "'" ++ post).
    destruct (token_prefix ++ tok ++ "'" ++ post) as [|c s] eqn:E;
      simpl; destruct (match_here _); try discriminate; congruence.
  - change (String c pre ++ token_prefix ++ tok ++ "'" ++ post)
      with (String c (pre ++ token_prefix ++ tok ++ "'" ++ post)).
    simpl. destruct (match_here _); [discriminate|exact IH].
Qed.

Lemma FindStringSubmatch_absent (body : string) :
  ~ contains_token_pattern body -> FindStringSubmatch body = [].
Proof.
  intros H. destruct (FindStringSubmatch body) eqn:E; [reflexivity|].
  exfalso. apply H. apply FindStringSubmatch_sound. congruence.
Qed.

Example find_token :
  FindStringSubmatch "var x; var gotty_auth_token = 'a'b';
var c = 'd';"
  = ["var gotty_auth_token = 'a'b'"; "a'b"].
Proof. reflexivity. Qed.

Example find_no_token : FindStringSubmatch "404 page not found" = [].
Proof. reflexivity. Qed.

End PatternFacts.

(** ** The handshake *)

Section HandshakeFacts.
Import Url Client Handshake Pump Session.
Context {N : NetURL} {W : Net} {B : Base64}.

Lemma GetAuthToken_bad_response (c : Client) (req : Request)
  (resp : Response) :
  In (EvHttpDo req) (snd (snd (GetAuthToken (c, [])))) ->
  http_Do req = Ok resp ->
  bad_response resp ->
  exists e, auth_token_error resp e
            /\ GetAuthToken (c, []) = (Err e, (c, [EvHttpDo req])).
Proof.
  unfold GetAuthToken, bind, get_client, lift, check, emit, fail, ret. simpl.
  destruct (GetAuthTokenURL (URL c)) as [[target header]|e0]; simpl;
    [|tauto].
  destruct (http_NewRequest "GET" (URL_String target)) as [e0|]; simpl;
    [tauto|].
  match goal with
  | |- context [http_Do ?r] => set (req0 := r)
  end.
  destruct (http_Do req0) as [resp0|e0] eqn:Hdo; simpl.
  - destruct (Z.eqb (StatusCode resp0) 200) eqn:Hs; simpl.
    + destruct (Body resp0) as [body|e0] eqn:Hb; simpl.
      * destruct (FindStringSubmatch body) as [|whole groups] eqn:Hf; simpl.
        -- intros [Hr|[]] Hresp Hbad. injection Hr as Hr.
           rewrite <- Hr in Hresp. rewrite Hdo in Hresp.
           injection Hresp as <-. rewrite Hr.
           eexists. split; [right; reflexivity|reflexivity].
        -- intros [Hr|[]] Hresp Hbad. injection Hr as Hr.
           rewrite <- Hr in Hresp. rewrite Hdo in Hresp.
           injection Hresp as <-. exfalso.
           destruct Hbad as [Hbad|[body' [Hb' Hno]]].
           ++ apply Z.eqb_eq in Hs. contradiction.
           ++ rewrite Hb in Hb'. injection Hb' as <-.
              apply FindStringSubmatch_absent in Hno. congruence.
      * intros [Hr|[]] Hresp Hbad. injection Hr as Hr.
        rewrite <- Hr in Hresp. rewrite Hdo in Hresp.
        injection Hresp as <-. exfalso.
        destruct Hbad as [Hbad|[body' [Hb' Hno]]].
        -- apply Z.eqb_eq in Hs. contradiction.
        -- congruence.
    + intros [Hr|[]] Hresp Hbad. injection Hr as Hr.
      rewrite <- Hr in Hresp. rewrite Hdo in Hresp.
      injection Hresp as <-. rewrite Hr.
      eexists. split; [left; reflexivity|reflexivity].
  - intros [Hr|[]] Hresp. injection Hr as Hr.
    rewrite <- Hr in Hresp. congruence.
Qed.

Lemma Connect_GetAuthToken_error (s s' : St) (e : error) :
  GetAuthToken s = (Err e, s') -> Connect s = (Err e, s').
Proof. intros H. unfold Connect, bind. now rewrite H. Qed.

Lemma with_io_nil (w : World) : with_io [] [] w = w.
Proof. destruct w. unfold with_io. simpl. now rewrite !app_nil_r. Qed.

Lemma with_client_same (w : World) : with_client (client w) w = w.
Proof. now destruct w. Qed.

(** Once [Loop] has returned and no goroutine runs, nothing starts. *)
Lemma nothing_starts_after_return (w w' : World) (r : option error) :
  ctl w = Done r -> (forall id, st w id = NotStarted) ->
  steps w w' ->
  ctl w' = Done r /\ (forall id, st w' id = NotStarted)
  /\ wire w' = wire w /\ screen w' = screen w.
Proof.
  intros Hc Hst Hsteps. induction Hsteps as [|w1 w2 w3 _ IH Hstep].
  - auto.
  - destruct (IH Hc Hst) as [Hc2 [Hst2 [Hw2 Hs2]]].
    inversion Hstep; subst; try congruence;
      try match goal with
          | H : st _ ?id = Starting |- _ => rewrite Hst2 in H; discriminate
          | H : st _ ?id = Running |- _ => rewrite Hst2 in H; discriminate
          end.
    simpl. auto.
Qed.

(** C4: when the request for the auth token is answered with a status
    other than 200 (404, say), or with a body that does not contain the
    token pattern, [GetAuthToken] returns one of its two errors, [Connect]
    returns that error having issued the HTTP request and nothing else: it
    dials no websocket and launches nothing.  A [Loop] that had to connect
    returns the error with the world as it was, and no loop of the pump is
    ever started after that. *)
Theorem handshake_fails_without_token (w : World) (req : Request)
  (resp : Response) :
  In (EvHttpDo req) (snd (snd (GetAuthToken (client w, [])))) ->
  http_Do req = Ok resp ->
  bad_response resp ->
  exists e : error,
    auth_token_error resp e
    /\ GetAuthToken (client w, []) = (Err e, (client w, [EvHttpDo req]))
    /\ Connect (client w, []) = (Err e, (client w, [EvHttpDo req]))
    /\ (forall ev, In ev (snd (snd (Connect (client w, [])))) ->
           is_dial ev = false /\ is_go ev = false)
    /\ do_Connect w = (Err e, w)
    /\ (crashed w = false -> ctl w = AtConnect ->
        Connected (client w) = false ->
        (forall id, st w id = NotStarted) ->
        step w (with_ctl (Done (Some e)) w)
        /\ forall w', steps (with_ctl (Done (Some e)) w) w' ->
             ctl w' = Done (Some e)
             /\ (forall id, st w' id = NotStarted)
             /\ wire w' = wire w).
Proof.
  intros Hin Hdo Hbad.
  destruct (GetAuthToken_bad_response _ _ _ Hin Hdo Hbad) as [e [He Hg]].
  pose proof (Connect_GetAuthToken_error _ _ _ Hg) as Hc.
  assert (do_Connect w = (Err e, w)) as Hd.
  { unfold do_Connect. rewrite Hc. simpl.
    now rewrite with_io_nil, with_client_same. }
  exists e. repeat split; auto.
  - rewrite Hc in H. simpl in H. destruct H as [<-|[]]. reflexivity.
  - rewrite Hc in H. simpl in H. destruct H as [<-|[]]. reflexivity.
  - pose proof (step_Loop_Connect w H H0 H1) as Hs.
    now rewrite Hd in Hs.
  - eapply nothing_starts_after_return with (r := Some e) (w := with_ctl (Done (Some e)) w);
      eauto.
  - eapply nothing_starts_after_return with (r := Some e) (w := with_ctl (Done (Some e)) w);
      eauto.
  - change (wire w) with (wire (with_ctl (Done (Some e)) w)).
    eapply nothing_starts_after_return with (r := Some e); eauto.
Qed.

End HandshakeFacts.

Example demo_GetAuthToken :
  @Handshake.GetAuthToken Demo.demo_NetURL (Demo.server Demo.good_response)
    (Demo.demo_client, [])
  = (Ok "secret", (Demo.demo_client, [Handshake.EvHttpDo Demo.demo_request])).
Proof. reflexivity. Qed.

(** Against a server that answers 404 the handshake of the demo client
    fails after its one HTTP request. *)
Lemma handshake_fails_on_404 :
  exists e : error,
    @Handshake.Connect Demo.demo_NetURL (Demo.server Demo.not_found)
      (Demo.demo_client, [])
    = (Err e, (Demo.demo_client, [Handshake.EvHttpDo Demo.demo_request])).
Proof.
  destruct (@handshake_fails_without_token
              Demo.demo_NetURL (Demo.server Demo.not_found) Demo.demo_Base64
              (Session.init_world Demo.demo_client)
              Demo.demo_request Demo.not_found)
    as [e [_ [_ [H _]]]].
  - simpl. left. reflexivity.
  - reflexivity.
  - left. simpl. discriminate.
  - exists e. exact H.
Defined.

(** ** The Output Loop *)

Section OutputLoopFacts.
Import Codec Poison Pump.
Context {B : Base64}.

Lemma dispatch_None_iff (m : gottyMessageType) (tag : byte) :
  dispatch m tag = None <-> ~ In tag (server_tags m).
Proof.
  unfold dispatch, server_tags. simpl. split.
  - intros H.
    destruct (byte_eqb tag (output m)) eqn:E1; [discriminate|].
    destruct (byte_eqb tag (pong m)) eqn:E2; [discriminate|].
    destruct (byte_eqb tag (setWindowTitle m)) eqn:E3; [discriminate|].
    destruct (byte_eqb tag (setPreferences m)) eqn:E4; [discriminate|].
    destruct (byte_eqb tag (setReconnect m)) eqn:E5; [discriminate|].
    apply byte_eqb_neq in E1, E2, E3, E4, E5.
    intros [G|[G|[G|[G|[G|[]]]]]]; congruence.
  - intros H.
    destruct (byte_eqb tag (output m)) eqn:E1;
      [apply byte_eqb_eq in E1; subst; tauto|].
    destruct (byte_eqb tag (pong m)) eqn:E2;
      [apply byte_eqb_eq in E2; subst; tauto|].
    destruct (byte_eqb tag (setWindowTitle m)) eqn:E3;
      [apply byte_eqb_eq in E3; subst; tauto|].
    destruct (byte_eqb tag (setPreferences m)) eqn:E4;
      [apply byte_eqb_eq in E4; subst; tauto|].
    destruct (byte_eqb tag (setReconnect m)) eqn:E5;
      [apply byte_eqb_eq in E5; subst; tauto|].
    reflexivity.
Qed.

Lemma dispatch_output (m : gottyMessageType) :
  dispatch m (output m) = Some KOutput.
Proof. unfold dispatch. now rewrite byte_eqb_refl. Qed.

(** A frame that has data never ends the loop. *)
Lemma readLoop_frame_continues (m : gottyMessageType) (p : chan)
  (tag : byte) (payload : list byte) :
  readLoop_turn m p (RdMsg (Message (tag :: payload)))
  = turn [] (handle_frame m tag payload) p Continue.
Proof. reflexivity. Qed.

(** An expected close ends the loop the same way as any other error. *)
Lemma readLoop_close_error (m : gottyMessageType) (p : chan) (code : Z) :
  readLoop_turn m p (RdMsg (CloseError code))
  = turn [] [] Closed (Exit committedSuicide).
Proof. now destruct p. Qed.

(** C5: for a frame [tag :: payload] the Output Loop has received, in
    either revision: when the tag is none of the table's five
    server-to-client tags, and when the tag is Output and the payload is not
    valid base64, the turn writes nothing to the output stream, sends
    nothing, leaves the poison channel as it was and goes on to the next
    frame.  An empty frame, and a read error that is not a close, close the
    poison channel and end the loop. *)
Theorem readLoop_nonfatal_and_fatal (V2 : bool) (p : chan) (tag : byte)
  (payload : list byte) :
  let m := initMessageType V2 in
  (~ In tag (server_tags m) ->
     readLoop_turn m p (RdMsg (Message (tag :: payload)))
     = turn [] [] p Continue)
  /\ (tag = output m ->
      is_err (base64_DecodeString payload) = true ->
      readLoop_turn m p (RdMsg (Message (tag :: payload)))
      = turn [] [] p Continue)
  /\ readLoop_turn m p (RdMsg (Message []))
     = turn [] [] Closed (Exit committedSuicide)
  /\ (forall e : error,
         readLoop_turn m p (RdMsg (ReadError e))
         = turn [] [] Closed (Exit committedSuicide)).
Proof.
  cbv zeta. split; [|split; [|split]].
  - intros H. apply dispatch_None_iff in H.
    rewrite readLoop_frame_continues. unfold handle_frame. now rewrite H.
  - intros -> H. rewrite readLoop_frame_continues. unfold handle_frame.
    rewrite dispatch_output.
    destruct (base64_DecodeString payload); [discriminate|reflexivity].
  - now destruct p.
  - intros e. now destruct p.
Qed.

End OutputLoopFacts.

(** The Output frame of the specification's example, and three frames that
    are dropped: an unknown tag, base64 with a bad character, base64 cut
    short. *)
Example output_hello :
  @Pump.handle_frame Demo.demo_Base64 (Codec.initMessageType true) "1"%byte
    (list_byte_of_string "aGVsbG8=")
  = list_byte_of_string "hello".
Proof. reflexivity. Qed.

Example output_unknown_tag :
  @Pump.readLoop_turn Demo.demo_Base64 (Codec.initMessageType true)
    Poison.Open (Pump.RdMsg (Pump.Message (list_byte_of_string "9abc")))
  = Pump.turn [] [] Poison.Open Pump.Continue.
Proof. reflexivity. Qed.

Example output_bad_base64 :
  @Pump.readLoop_turn Demo.demo_Base64 (Codec.initMessageType true)
    Poison.Open (Pump.RdMsg (Pump.Message (list_byte_of_string "1aGV*bG8=")))
  = Pump.turn [] [] Poison.Open Pump.Continue.
Proof. reflexivity. Qed.

Example output_short_base64 :
  @Pump.readLoop_turn Demo.demo_Base64 (Codec.initMessageType false)
    Poison.Open (Pump.RdMsg (Pump.Message (list_byte_of_string "0aGVsbG8")))
  = Pump.turn [] [] Poison.Open Pump.Continue.
Proof. reflexivity. Qed.

Example output_title :
  @Pump.handle_frame Demo.demo_Base64 (Codec.initMessageType true) "3"%byte
    (list_byte_of_string "top")
  = [x1b; "]"; "0"; ";"; "t"; "o"; "p"; x07]%byte.
Proof. reflexivity. Qed.

(** ** The Input Loop *)

Section InputLoopFacts.
Import Codec Poison Pump.

Lemma return_openPoison_spec (fname : string) (fs : list Frame) (p : chan) :
  return_openPoison fname fs p = turn fs [] Closed (Exit committedSuicide).
Proof. now destruct p. Qed.

Lemma return_die_Closed (fname : string) (fs : list Frame) :
  return_die fname fs Closed = turn fs [] Closed (Exit killed).
Proof. reflexivity. Qed.

Lemma store_length (buff data : list byte) :
  List.length (store buff data) = List.length buff.
Proof.
  unfold store. rewrite length_firstn, length_app, length_skipn. lia.
Qed.

Lemma slice_to_length (buff data : list byte) (size : Z) :
  (0 < size)%Z -> slice_to buff size = Some data ->
  1 <= List.length data <= List.length buff.
Proof.
  unfold slice_to. intros Hpos.
  destruct (size <=? Z.of_nat (List.length buff))%Z eqn:E; [|discriminate].
  intros H. injection H as <-. apply Z.leb_le in E.
  rewrite length_firstn. lia.
Qed.

(** C7, amended: at each read that reports the end of the input the Input
    Loop passes exactly one frame to the socket, the Input tag of the active
    revision followed by the byte 4.  If the socket takes the frame the loop
    does not exit: it goes back to the top of its [for] with the poison
    channel untouched.  If the write fails it closes the poison channel and
    exits. *)
Theorem writeLoop_EOF (V2 : bool) (p : chan) (buff : list byte)
  (ev : InputEvent) :
  at_EOF p ev ->
  let m := initMessageType V2 in
  let t := fst (writeLoop_turn m p buff ev) in
  sent t = [[input m; x04]]
  /\ printed t = []
  /\ (wr_err ev = None -> next t = Continue /\ poison_after t = p)
  /\ (wr_err ev <> None ->
      next t = Exit committedSuicide /\ poison_after t = Closed).
Proof.
  intros [Hp [Hsel [Hfd Heof]]]. cbv zeta.
  unfold writeLoop_turn. rewrite Hp, Hfd, Heof.
  destruct (sel ev) as [| |e] eqn:Es;
    try (exfalso; now apply (Hsel e));
    destruct (wr_err ev) as [e'|];
    rewrite ?return_openPoison_spec; simpl;
    repeat split; try reflexivity; try congruence; intros; congruence.
Qed.

Lemma writeLoop_turn_frames (m : gottyMessageType) (p : chan)
  (buff : list byte) (ev : InputEvent) :
  List.length buff = buff_len ->
  List.length (snd (writeLoop_turn m p buff ev)) = buff_len
  /\ Forall (fun f => exists payload,
                 f = input m :: payload
                 /\ 1 <= List.length payload <= buff_len)
            (sent (fst (writeLoop_turn m p buff ev))).
Proof.
  intros Hlen. unfold writeLoop_turn.
  assert (exists payload : list byte,
             [input m] ++ [EOT] = input m :: payload
             /\ 1 <= List.length payload <= buff_len) as Heot.
  { exists [EOT]. split; [reflexivity|]. unfold buff_len. simpl. lia. }
  destruct (signaled p).
  { destruct p; simpl; auto. }
  assert (List.length (store buff (rd_data ev)) = buff_len) as Hst
      by now rewrite store_length.
  destruct (sel ev); try (rewrite return_openPoison_spec; simpl; now auto);
    (destruct (fd_set ev); [|simpl; now auto]);
    (destruct (rd_err ev);
     [ destruct (rd_size ev <=? 0)%Z eqn:Esz; [simpl; now auto|];
       apply Z.leb_gt in Esz;
       destruct (slice_to (store buff (rd_data ev)) (rd_size ev))
         as [data|] eqn:Esl; [|simpl; now auto];
       pose proof (slice_to_length _ _ _ Esz Esl) as Hd; rewrite Hst in Hd;
       destruct (wr_err ev); rewrite ?return_openPoison_spec; simpl;
       (split; [assumption|]); repeat constructor; now exists data
     | destruct (wr_err ev); rewrite ?return_openPoison_spec; simpl;
       (split; [assumption|]); repeat constructor; apply Heot
     | rewrite return_openPoison_spec; simpl; now auto ]).
Qed.

Lemma writeLoop_run_frames (m : gottyMessageType)
  (evs : list (bool * InputEvent)) (p : chan) (buff : list byte) :
  List.length buff = buff_len ->
  Forall (fun f => exists payload,
              f = input m :: payload
              /\ 1 <= List.length payload <= buff_len)
         (fst (writeLoop_run m p buff evs)).
Proof.
  revert p buff. induction evs as [|[closed ev] rest IH]; intros p buff Hlen.
  - constructor.
  - simpl.
    set (p' := if closed then Closed else p).
    destruct (writeLoop_turn_frames m p' buff ev Hlen) as [Hb Hf].
    destruct (writeLoop_turn m p' buff ev) as [t buff']. simpl in Hb, Hf.
    destruct (next t); try exact Hf.
    specialize (IH (poison_after t) buff' Hb).
    destruct (writeLoop_run m (poison_after t) buff' rest) as [fs n].
    simpl in *. apply Forall_app. now split.
Qed.

(** C10: every frame the Input Loop passes to the socket, over any run and
    in either revision, is the Input tag followed by a payload of at least
    one and at most 128 bytes; this holds for the frames made from terminal
    data and for the end-of-transmission frame alike.  A read that returns
    no error and a count of zero or less produces no frame, and a count
    beyond the buffer produces none either (the slice expression panics). *)
Theorem writeLoop_payload_bounds (V2 : bool)
  (evs : list (bool * InputEvent)) (p : chan) :
  let m := initMessageType V2 in
  Forall (fun f => exists payload,
              f = input m :: payload
              /\ 1 <= List.length payload <= 128)
         (fst (writeLoop_run m p make_buff evs))
  /\ (forall (buff : list byte) (ev : InputEvent),
         rd_err ev = RdNil -> (rd_size ev <= 0)%Z ->
         sent (fst (writeLoop_turn m p buff ev)) = [])
  /\ (forall (buff : list byte) (ev : InputEvent),
         rd_err ev = RdNil -> (Z.of_nat (List.length buff) < rd_size ev)%Z ->
         sent (fst (writeLoop_turn m p buff ev)) = []).
Proof.
  cbv zeta. split; [|split].
  - apply writeLoop_run_frames. unfold make_buff. apply repeat_length.
  - intros buff ev He Hs. unfold writeLoop_turn. rewrite He.
    apply Z.leb_le in Hs. rewrite Hs.
    destruct (signaled p); [now destruct p|].
    destruct (sel ev); rewrite ?return_openPoison_spec;
      destruct (fd_set ev); reflexivity.
  - intros buff ev He Hs. unfold writeLoop_turn. rewrite He.
    destruct (signaled p); [now destruct p|].
    destruct (sel ev); rewrite ?return_openPoison_spec;
      destruct (fd_set ev); try reflexivity;
      (destruct (rd_size ev <=? 0)%Z; [reflexivity|]);
      unfold slice_to; rewrite store_length;
      (assert ((rd_size ev <=? Z.of_nat (List.length buff))%Z = false) as ->
          by (apply Z.leb_gt; lia)); reflexivity.
Qed.

End InputLoopFacts.

(** C7, counterexample: standard input is at its end and the socket takes
    the frame.  The turn sends the end-of-transmission frame and continues;
    the next turn finds the input at its end again and sends the frame
    again.  The loop has sent two frames and has not exited. *)
Lemma EOF_does_not_exit :
  Pump.at_EOF Poison.Open Demo.eof_event
  /\ Pump.next (fst (Pump.writeLoop_turn (Codec.initMessageType true)
                       Poison.Open Pump.make_buff Demo.eof_event))
     = Pump.Continue
  /\ Pump.writeLoop_run (Codec.initMessageType true) Poison.Open
       Pump.make_buff [(false, Demo.eof_event); (false, Demo.eof_event)]
     = ([["1"; x04]; ["1"; x04]]%byte, Pump.Continue)
  /\ ~ Pump.sends_EOT_and_exits.
Proof.
  assert (Pump.at_EOF Poison.Open Demo.eof_event) as H.
  { repeat split; try reflexivity. intros e. discriminate. }
  repeat split; try reflexivity; try (intros e; discriminate).
  intros Hclaim.
  destruct (Hclaim true Poison.Open Pump.make_buff Demo.eof_event H)
    as [_ [r Hr]].
  discriminate Hr.
Qed.

Lemma writeLoop_EOF_witness :
  Pump.sent (fst (Pump.writeLoop_turn (Codec.initMessageType false)
                    Poison.Open Pump.make_buff Demo.eof_event))
  = [["0"; x04]]%byte.
Proof.
  refine (proj1 (@writeLoop_EOF false Poison.Open Pump.make_buff
                   Demo.eof_event _)).
  repeat split; try reflexivity. intros e. discriminate.
Defined.

Example input_typed_ls :
  Pump.writeLoop_run (Codec.initMessageType true) Poison.Open Pump.make_buff
    [(false, Demo.typed_ls); (true, Demo.typed_ls)]
  = ([["1"; "l"; "s"]]%byte, Pump.Exit Poison.killed).
Proof. reflexivity. Qed.

(** ** The Resize Loop *)

Section ResizeLoopFacts.
Import Codec Poison Pump TermSize.

Lemma Z_of_byte_of_Z (z : Z) : Z_of_byte (byte_of_Z z) = (z mod 256)%Z.
Proof.
  unfold Z_of_byte, byte_of_Z.
  assert (0 <= z mod 256 < 256)%Z as Hr by (apply Z.mod_pos_bound; lia).
  destruct (Strings.Byte.of_N (Z.to_N (z mod 256))) as [b|] eqn:E.
  - apply Strings.Byte.to_of_N in E. rewrite E. lia.
  - apply Strings.Byte.of_N_None_iff in E. lia.
Qed.

Lemma get_put_uint16 (o : ByteOrder) (v : Z) :
  (0 <= v <= uint16_max)%Z -> get_uint16 o (put_uint16 o v) = Some v.
Proof.
  unfold uint16_max. intros Hv.
  assert ((v / 256) mod 256 = v / 256)%Z as Hhi.
  { apply Z.mod_small. split; [apply Z.div_pos; lia|].
    apply Z.div_lt_upper_bound; lia. }
  pose proof (Z.div_mod v 256 ltac:(lia)) as Hdm.
  destruct o; cbn [get_uint16 put_uint16]; rewrite !Z_of_byte_of_Z, Hhi;
    f_equal; lia.
Qed.

Lemma resize_turns_send_the_frame (m : gottyMessageType) (p : chan)
  (q : result (list byte)) (wr : option error) :
  sent (termsizeLoop_start m p q wr) = resize_frames m q
  /\ sent (termsizeLoop_turn m p (TsWinch q wr)) = resize_frames m q.
Proof. split; reflexivity. Qed.

(** C8: for a terminal of [R] rows and [C] columns, both within 16 bits,
    the one frame a resize sends, at the start of the Resize Loop and at each
    window-size notification, is the ResizeTerminal tag of the active
    revision followed by the payload of the size helper; with the helper as
    the specification describes it, that payload has four bytes, the first
    two hold [R] and the last two hold [C]. *)
Theorem resize_frame_layout (V2 : bool) (o : ByteOrder) (R C : Z)
  (p : chan) (wr : option error) :
  (0 <= R <= uint16_max)%Z -> (0 <= C <= uint16_max)%Z ->
  let m := initMessageType V2 in
  let ws := {| Rows := R; Columns := C |} in
  exists payload : list byte,
    syscallTIOCGWINSZ o (Ok ws) = Ok payload
    /\ sent (termsizeLoop_start m p (syscallTIOCGWINSZ o (Ok ws)) wr)
       = [resizeTerminal m :: payload]
    /\ sent (termsizeLoop_turn m p
               (TsWinch (syscallTIOCGWINSZ o (Ok ws)) wr))
       = [resizeTerminal m :: payload]
    /\ resizeTerminal m = (if V2 then "3" else "2")%byte
    /\ List.length payload = 4
    /\ get_uint16 o (firstn 2 payload) = Some R
    /\ get_uint16 o (skipn 2 payload) = Some C.
Proof.
  intros HR HC. cbv zeta.
  exists (put_uint16 o R ++ put_uint16 o C).
  split; [reflexivity|]. split; [reflexivity|]. split; [reflexivity|].
  split; [now destruct V2|]. split; [now destruct o|].
  split.
  - rewrite <- (get_put_uint16 o R HR). now destruct o.
  - rewrite <- (get_put_uint16 o C HC). now destruct o.
Qed.

End ResizeLoopFacts.

Example resize_frame_bytes :
  TermSize.resize_frames_for (Codec.initMessageType true)
    TermSize.LittleEndian {| TermSize.Rows := 24; TermSize.Columns := 80 |}
  = [["3"; x18; x00; x50; x00]]%byte
  /\ TermSize.resize_frames_for (Codec.initMessageType false)
       TermSize.BigEndian {| TermSize.Rows := 24; TermSize.Columns := 80 |}
     = [["2"; x00; x18; x00; x50]]%byte.
Proof. split; reflexivity. Qed.

Lemma resize_frame_24_by_80 :
  exists payload : list byte,
    Pump.sent (Pump.termsizeLoop_start (Codec.initMessageType true)
                 Poison.Open
                 (TermSize.syscallTIOCGWINSZ TermSize.LittleEndian
                    (Ok {| TermSize.Rows := 24; TermSize.Columns := 80 |}))
                 None)
    = [Codec.ResizeTerminal :: payload]
    /\ List.length payload = 4
    /\ TermSize.get_uint16 TermSize.LittleEndian (firstn 2 payload)
       = Some 24%Z
    /\ TermSize.get_uint16 TermSize.LittleEndian (skipn 2 payload)
       = Some 80%Z.
Proof.
  destruct (@resize_frame_layout true TermSize.LittleEndian 24 80
              Poison.Open None)
    as [payload [_ [H1 [_ [_ [H2 [H3 H4]]]]]]].
  - unfold TermSize.uint16_max. lia.
  - unfold TermSize.uint16_max. lia.
  - exists payload. auto.
Defined.

(** ** The session: who waits for whom *)

Section SessionFacts.
Import Codec Poison Client Handshake Pump Session.
Context {N : Url.NetURL} {W : Net} {B : Base64}.

Lemma LoopId_eqb_eq (a b : LoopId) : LoopId_eqb a b = true <-> a = b.
Proof. destruct a, b; simpl; split; intros H; congruence. Qed.

Lemma set_st_same (id : LoopId) (s : Status) (f : LoopId -> Status) :
  set_st id s f id = s.
Proof. unfold set_st. now destruct id. Qed.

Lemma set_st_other (id j : LoopId) (s : Status) (f : LoopId -> Status) :
  j <> id -> set_st id s f j = f j.
Proof.
  unfold set_st. intros H. destruct (LoopId_eqb j id) eqn:E; [|reflexivity].
  apply LoopId_eqb_eq in E. contradiction.
Qed.

Lemma count_active_set (id : LoopId) (s : Status) (f : LoopId -> Status) :
  id <> PingLoop ->
  count_active (set_st id s f)
  = (count_active f - b2z (is_active (f id)) + b2z (is_active s))%Z.
Proof.
  intros H. unfold count_active, set_st.
  destruct id; cbn [LoopId_eqb]; try lia. contradiction.
Qed.

Lemma count_active_set_ping (s : Status) (f : LoopId -> Status) :
  count_active (set_st PingLoop s f) = count_active f.
Proof. reflexivity. Qed.

Lemma Inv_init (c : Client) : Inv (init_world c).
Proof.
  constructor; simpl; auto.
  - intros id. split; [tauto|]. intros [_ H]. discriminate.
  - constructor.
Qed.

(** The Ping Loop has no [return]. *)
Lemma pingLoop_never_exits (m : gottyMessageType) (p : chan)
  (wr : option error) :
  pingLoop_turn m p wr = turn [[ping m]] [] p Continue.
Proof. reflexivity. Qed.

(** Changes that touch neither the wait group nor a goroutine. *)
Lemma Inv_same (w w' : World) :
  wg w' = wg w -> acks w' = acks w -> st w' = st w ->
  phase_ok (ctl w') (st w) ->
  Inv w -> Inv w'.
Proof.
  intros Hwg Hacks Hst Hph [I1 I2 I3 I4 I5].
  constructor; rewrite ?Hwg, ?Hacks, ?Hst; auto.
Qed.

Lemma Inv_ping_running (w : World) :
  Inv w -> Inv (with_st PingLoop Running w).
Proof.
  intros [I1 I2 I3 I4 I5]. constructor; simpl; auto.
  intros id. rewrite I3. unfold set_st.
  destruct id; simpl; intuition congruence.
Qed.

Lemma Inv_do_Connect (w : World) :
  Inv w -> Inv (snd (do_Connect w))
           /\ ctl (snd (do_Connect w)) = ctl w
           /\ forall id, id <> PingLoop ->
                st (snd (do_Connect w)) id = st w id.
Proof.
  intros HI. unfold do_Connect.
  destruct (Connect (client w, [])) as [r [c' evs]].
  assert (Inv (with_client c' (with_io (written evs) [] w))) as H1.
  { apply (Inv_same w); try reflexivity; [exact (inv_phase _ HI)|exact HI]. }
  destruct (existsb is_go evs); simpl.
  - split; [now apply Inv_ping_running|]. split; [reflexivity|].
    intros id Hid. now apply set_st_other.
  - auto.
Qed.

Lemma Inv_do_Connect_ctl (w : World) :
  ctl (snd (do_Connect w)) = ctl w
  /\ crashed (snd (do_Connect w)) = crashed w
  /\ wg (snd (do_Connect w)) = wg w.
Proof.
  unfold do_Connect.
  destruct (Connect (client w, [])) as [r [c' evs]].
  destruct (existsb is_go evs); simpl; auto.
Qed.

Lemma phase_ok_ext (k : Ctl) (s s' : LoopId -> Status) :
  (forall id, id <> PingLoop -> s' id = s id) ->
  phase_ok k s -> phase_ok k s'.
Proof.
  intros H. unfold phase_ok.
  rewrite !H by discriminate. trivial.
Qed.

(** A turn of a loop that is running keeps the invariant, provided the
    turn of the Ping Loop does not return. *)
Lemma Inv_apply_turn (id : LoopId) (t : Turn) (w : World) :
  Inv w -> is_active (st w id) = true ->
  (id = PingLoop -> next t = Continue) ->
  Inv (apply_turn id t w).
Proof.
  intros [I1 I2 I3 I4 I5] Hact Hping. unfold apply_turn.
  destruct (next t) as [|r|msg|] eqn:En.
  - (* Continue *)
    constructor; simpl.
    + rewrite I1. destruct id;
        rewrite ?count_active_set_ping, ?count_active_set by discriminate;
        rewrite ?Hact; cbn [is_active b2z]; lia.
    + unfold set_st. destruct id; simpl; auto.
    + intros j. rewrite I3. unfold set_st.
      destruct (LoopId_eqb j id) eqn:E; [|tauto].
      apply LoopId_eqb_eq in E. subst j.
      destruct (st w id); simpl in *; try discriminate;
        split; intros [? ?]; discriminate.
    + exact I4.
    + unfold phase_ok in *. unfold set_st.
      destruct (ctl w) as [| | | | | | |[e|]];
        destruct id; simpl; destruct I5 as [P1 [P2 P3]];
        repeat split; auto; try discriminate;
        try (rewrite P1 in Hact; discriminate);
        try (rewrite P2 in Hact; discriminate);
        try (rewrite P3 in Hact; discriminate);
        try (destruct (st w ResizeLoop); discriminate);
        try (destruct (st w OutputLoop); discriminate);
        try (destruct (st w InputLoop); discriminate).
  - (* Exit *)
    assert (id <> PingLoop) as Hid.
    { intros ->. specialize (Hping eq_refl). congruence. }
    assert (defers_Done id = true) as Hd by (destruct id; tauto).
    rewrite Hd.
    assert (~ In id (acks w)) as Hnot.
    { rewrite I3. intros [_ H]. destruct (st w id); discriminate. }
    constructor; simpl.
    + rewrite I1, count_active_set by exact Hid.
      rewrite Hact. cbn [is_active b2z]. lia.
    + rewrite set_st_other by congruence. exact I2.
    + intros j. rewrite in_app_iff, I3. simpl. unfold set_st.
      destruct (LoopId_eqb j id) eqn:E.
      * apply LoopId_eqb_eq in E. subst j. simpl. tauto.
      * split; [intros [H|[H|[]]]; [exact H|]|tauto].
        subst j. rewrite (proj2 (LoopId_eqb_eq id id) eq_refl) in E.
        discriminate.
    + apply NoDup_app; [exact I4|repeat constructor; simpl; tauto|].
      intros x Hx [<-|[]]. contradiction.
    + unfold phase_ok in *. unfold set_st.
      destruct (ctl w) as [| | | | | | |[e|]];
        destruct id; simpl; destruct I5 as [P1 [P2 P3]];
        repeat split; auto; try discriminate;
        try (rewrite P1 in Hact; discriminate);
        try (rewrite P2 in Hact; discriminate);
        try (rewrite P3 in Hact; discriminate);
        try tauto.
  - (* Panic *)
    constructor; simpl; auto.
  - (* Wait *)
    constructor; auto.
Qed.

Lemma Inv_spawn (id : LoopId) (s : Status) (k : Ctl) (w : World) :
  Inv w -> id <> PingLoop -> st w id = NotStarted -> is_active s = true ->
  phase_ok k (set_st id s (st w)) ->
  Inv (with_ctl k (with_st id s (wg_Add w))).
Proof.
  intros [I1 I2 I3 I4 I5] Hid Hns Hact Hph.
  constructor; simpl; auto.
  - rewrite I1, count_active_set by exact Hid.
    rewrite Hns, Hact. cbn [is_active b2z]. lia.
  - now rewrite set_st_other by congruence.
  - intros j. rewrite I3. unfold set_st.
    destruct (LoopId_eqb j id) eqn:E; [|tauto].
    apply LoopId_eqb_eq in E. subst j. rewrite Hns.
    destruct s; simpl in *; try discriminate;
      split; intros [? ?]; discriminate.
Qed.

Lemma Inv_step (w w' : World) : Inv w -> step w w' -> Inv w'.
Proof.
  intros HI Hstep. inversion Hstep; subst.
  - (* user Connect *)
    now apply Inv_do_Connect.
  - (* call Loop *)
    apply (Inv_same w); try reflexivity; [|exact HI].
    pose proof (inv_phase _ HI) as I5. rewrite H0 in I5. exact I5.
  - (* Loop: Connect *)
    destruct (Inv_do_Connect w HI) as [HI' [Hc Hs]].
    pose proof (inv_phase _ HI) as I5. rewrite H0 in I5.
    assert (phase_ok AtConnect (st (snd (do_Connect w)))) as Hph
        by (eapply phase_ok_ext; eauto).
    destruct (fst (do_Connect w));
      (apply (Inv_same (snd (do_Connect w))); try reflexivity;
       [exact Hph|exact HI']).
  - (* Loop: already connected *)
    apply (Inv_same w); try reflexivity; [|exact HI].
    pose proof (inv_phase _ HI) as I5. rewrite H0 in I5. exact I5.
  - (* Loop: console *)
    destruct HI as [I1 I2 I3 I4 I5]. rewrite H0 in I5.
    destruct r; constructor; simpl; auto.
  - (* go termsizeLoop *)
    pose proof (inv_phase _ HI) as I5. rewrite H0 in I5.
    destruct I5 as [P1 [P2 P3]].
    apply Inv_spawn; auto; try discriminate.
    simpl. unfold set_st. simpl. repeat split; auto. discriminate.
  - (* go readLoop *)
    pose proof (inv_phase _ HI) as I5. rewrite H0 in I5.
    destruct I5 as [P1 [P2 P3]].
    apply Inv_spawn; auto; try discriminate.
    simpl. unfold set_st. simpl. repeat split; auto. discriminate.
  - (* go writeLoop *)
    pose proof (inv_phase _ HI) as I5. rewrite H0 in I5.
    destruct I5 as [P1 [P2 P3]].
    assert (Inv (with_ctl AtWait (with_st InputLoop Running (wg_Add w))))
      as HI'.
    { apply Inv_spawn; auto; try discriminate.
      simpl. unfold set_st. simpl. repeat split; auto. discriminate. }
    destruct HI' as [J1 J2 J3 J4 J5]. constructor; auto.
  - (* wg.Wait returns *)
    destruct HI as [I1 I2 I3 I4 I5]. rewrite H0 in I5.
    constructor; simpl; auto.
    rewrite H1 in I1. unfold count_active in I1.
    destruct I5 as [P1 [P2 P3]].
    destruct (st w ResizeLoop), (st w OutputLoop), (st w InputLoop);
      simpl in *; try congruence; try lia; auto.
  - (* termsizeLoop, before its for *)
    apply Inv_apply_turn; [exact HI|now rewrite H0|discriminate].
  - (* termsizeLoop *)
    apply Inv_apply_turn; [exact HI|now rewrite H0|discriminate].
  - (* readLoop *)
    apply Inv_apply_turn; [exact HI|now rewrite H0|discriminate].
  - (* writeLoop *)
    assert (Inv (apply_turn InputLoop
                   (fst (writeLoop_turn m (poison (client w)) (buff w) ev))
                   w)) as HI'
        by (apply Inv_apply_turn; [exact HI|now rewrite H0|discriminate]).
    destruct HI' as [J1 J2 J3 J4 J5]. constructor; auto.
  - (* pingLoop *)
    apply Inv_apply_turn; [exact HI|now rewrite H0|reflexivity].
  - (* ExitLoop *)
    apply (Inv_same w); try reflexivity; [exact (inv_phase _ HI)|exact HI].
Qed.

Lemma Inv_steps (w w' : World) : Inv w -> steps w w' -> Inv w'.
Proof.
  intros HI Hs. induction Hs as [|w1 w2 w3 _ IH Hstep]; [exact HI|].
  exact (Inv_step w2 w3 (IH HI) Hstep).
Qed.

Lemma Inv_reachable (c : Client) (w : World) : reachable c w -> Inv w.
Proof. intros H. eapply Inv_steps; [apply Inv_init|exact H]. Qed.

(** *** Runs by script *)

Lemma steps_one (w w' : World) : step w w' -> steps w w'.
Proof. intros H. eapply steps_step; [apply steps_refl|exact H]. Qed.

Lemma steps_trans (w1 w2 w3 : World) :
  steps w1 w2 -> steps w2 w3 -> steps w1 w3.
Proof.
  intros H12 H23. induction H23 as [|w2 w3 w4 _ IH Hstep]; [exact H12|].
  eapply steps_step; [exact (IH H12)|exact Hstep].
Qed.

Lemma exec_sound (a : Action) (w : World) : steps w (exec a w).
Proof.
  unfold exec. destruct (crashed w) eqn:Hc; [apply steps_refl|].
  destruct a.
  - destruct (ctl w) eqn:Hk; try apply steps_refl.
    destruct (Connected (client w)) eqn:Hcn; [apply steps_refl|].
    apply steps_one. now apply step_user_Connect.
  - destruct (ctl w) eqn:Hk; try apply steps_refl.
    apply steps_one. now apply step_call_Loop.
  - destruct (ctl w) eqn:Hk; try apply steps_refl.
    destruct (Connected (client w)) eqn:Hcn.
    + apply steps_one. now apply step_Loop_connected.
    + apply steps_one. now apply step_Loop_Connect.
  - destruct (ctl w) eqn:Hk; try apply steps_refl.
    apply steps_one. now apply (step_Loop_console w r).
  - destruct (ctl w) eqn:Hk; try apply steps_refl.
    apply steps_one. now apply step_go_termsizeLoop.
  - destruct (ctl w) eqn:Hk; try apply steps_refl.
    apply steps_one. now apply step_go_readLoop.
  - destruct (ctl w) eqn:Hk; try apply steps_refl.
    apply steps_one. now apply step_go_writeLoop.
  - destruct (ctl w) eqn:Hk; try apply steps_refl.
    destruct (Z.eqb (wg w) 0) eqn:Hw; [|apply steps_refl].
    apply Z.eqb_eq in Hw. apply steps_one. now apply step_Wait.
  - destruct (st w ResizeLoop) eqn:Hs; try apply steps_refl.
    destruct (message (client w)) eqn:Hm; [|apply steps_refl].
    apply steps_one. now apply step_termsizeLoop_start.
  - destruct (st w ResizeLoop) eqn:Hs; try apply steps_refl.
    destruct (message (client w)) eqn:Hm; [|apply steps_refl].
    apply steps_one. now apply step_termsizeLoop.
  - destruct (st w OutputLoop) eqn:Hs; try apply steps_refl.
    destruct (message (client w)) eqn:Hm; [|apply steps_refl].
    apply steps_one. now apply step_readLoop.
  - destruct (st w InputLoop) eqn:Hs; try apply steps_refl.
    destruct (message (client w)) eqn:Hm; [|apply steps_refl].
    apply steps_one. now apply step_writeLoop.
  - destruct (st w PingLoop) eqn:Hs; try apply steps_refl.
    destruct (message (client w)) eqn:Hm; [|apply steps_refl].
    apply steps_one. now apply step_pingLoop.
  - apply steps_one. now apply step_ExitLoop.
Qed.

Lemma run_sound (script : list Action) (w : World) : steps w (run script w).
Proof.
  revert w. induction script as [|a rest IH]; intros w; simpl.
  - apply steps_refl.
  - eapply steps_trans; [apply exec_sound|apply IH].
Qed.

(** *** What [Connect] leaves in the client *)

(** The term a nest of [match]es waits for; fails on a term that is not a
    [match]. *)
Ltac scrutinee_of t :=
  lazymatch t with
  | match ?x with _ => _ end =>
      lazymatch x with
      | match _ with _ => _ end => scrutinee_of x
      | _ => x
      end
  end.

(** Case analysis on the innermost [match] of the goal. *)
Ltac destruct_inner_match :=
  match goal with
  | |- context [match ?x with _ => _ end] =>
      lazymatch x with
      | context [match _ with _ => _ end] => fail
      | _ => destruct x; simpl
      end
  end.

Lemma GetAuthToken_client (s : St) : fst (snd (GetAuthToken s)) = fst s.
Proof.
  unfold GetAuthToken, bind, get_client, lift, check, emit, fail, ret.
  destruct s as [c evs]. simpl.
  repeat destruct_inner_match; reflexivity.
Qed.

(** Either [Connect] stopped before the dial succeeded, and the client is
    connected and has its table as before; or the dial succeeded, and the
    client is connected and has a table.  A [Connect] that returns without
    error is of the second kind.  The poison channel is not touched. *)
Lemma write_client (data : list byte) (s : St) :
  fst (snd (write data s)) = fst s.
Proof.
  unfold write, bind, get_client, emit, check, fail. destruct s as [c evs].
  simpl. destruct (conn c) as [cn|]; [|reflexivity].
  destruct (ws_WriteMessage cn data); reflexivity.
Qed.

Lemma Connect_client (c c' : Client) (evs evs' : list Event)
  (r : result unit) :
  Connect (c, evs) = (r, (c', evs')) ->
  poison c' = poison c
  /\ ((Connected c' = Connected c /\ message c' = message c /\ is_err r = true)
      \/ (Connected c' = true /\ message c' <> None)).
Proof.
  unfold Connect. unfold bind at 1.
  pose proof (GetAuthToken_client (c, evs)) as Hg.
  destruct (GetAuthToken (c, evs)) as [[tok|e] [c1 evs1]]; simpl in Hg;
    subst c1; [|intros E; injection E as <- <- <-; simpl; auto].
  unfold write, bind, get_client, lift, check, emit, fail, ret, modify_client.
  simpl. intros E.
  repeat match type of E with
         | ?l = _ =>
             let x := scrutinee_of l in
             destruct x; simpl in E
         end;
    injection E as <- <- <-; simpl; auto;
    (split; [reflexivity|right; split; [reflexivity|discriminate]]).
Qed.

Lemma tables_ready_do_Connect (w : World) :
  (Connected (client w) = true -> message (client w) <> None) ->
  (Connected (client (snd (do_Connect w))) = true ->
   message (client (snd (do_Connect w))) <> None)
  /\ (is_err (fst (do_Connect w)) = false ->
      Connected (client (snd (do_Connect w))) = true).
Proof.
  intros H. unfold do_Connect.
  destruct (Connect (client w, [])) as [r [c' evs]] eqn:E.
  destruct (Connect_client _ _ _ _ _ E) as [_ [[H1 [H2 H3]]|[H1 H2]]];
    destruct (existsb is_go evs); simpl;
    rewrite ?H1, ?H2; (split; [auto|intros; congruence]).
Qed.

Lemma apply_turn_client (id : LoopId) (t : Turn) (w : World) :
  Connected (client (apply_turn id t w)) = Connected (client w)
  /\ message (client (apply_turn id t w)) = message (client w)
  /\ ctl (apply_turn id t w) = ctl w.
Proof.
  unfold apply_turn. destruct (next t); simpl; auto.
  destruct (defers_Done id); simpl; auto.
Qed.

Lemma tables_ready_step (w w' : World) :
  tables_ready w -> step w w' -> tables_ready w'.
Proof.
  intros [T1 T2] Hstep. unfold tables_ready.
  inversion Hstep; subst; simpl;
    try (rewrite ?H0 in T2; simpl in T2; now split);
    try (pose proof (apply_turn_client ResizeLoop
                       (termsizeLoop_start m (poison (client w)) q wr) w)
          as [-> [-> ->]]; now split);
    try (match goal with
         | |- context [apply_turn ?id ?t w] =>
             pose proof (apply_turn_client id t w) as [-> [-> ->]];
             now split
         end).
  - (* user Connect *)
    destruct (tables_ready_do_Connect w T1) as [A1 A2].
    split; [exact A1|].
    destruct (Inv_do_Connect_ctl w) as [-> _]. now rewrite H0.
  - (* Loop: Connect *)
    destruct (tables_ready_do_Connect w T1) as [A1 A2].
    destruct (fst (do_Connect w)); simpl; split; auto.
  - (* Loop: console *)
    rewrite H0 in T2. destruct r; simpl; now split.
Qed.

Lemma tables_ready_steps (w w' : World) :
  tables_ready w -> steps w w' -> tables_ready w'.
Proof.
  intros HT Hs. induction Hs as [|w1 w2 w3 _ IH Hstep]; [exact HT|].
  exact (tables_ready_step w2 w3 (IH HT) Hstep).
Qed.

Lemma tables_ready_init (c : Client) :
  Connected c = false -> tables_ready (init_world c).
Proof. intros H. split; simpl; [congruence|exact I]. Qed.

(** *** After the signal: the three loops return and [Loop] can return *)

Lemma apply_turn_Exit (id : LoopId) (t : Turn) (w : World)
  (r : poisonReason) :
  next t = Exit r -> poison_after t = poison (client w) ->
  crashed (apply_turn id t w) = crashed w
  /\ ctl (apply_turn id t w) = ctl w
  /\ poison (client (apply_turn id t w)) = poison (client w)
  /\ message (client (apply_turn id t w)) = message (client w)
  /\ st (apply_turn id t w) id = Exited r
  /\ (forall j, j <> id -> st (apply_turn id t w) j = st w j).
Proof.
  intros Hn Hp. unfold apply_turn. rewrite Hn.
  destruct (defers_Done id); simpl; rewrite Hp, set_st_same;
    repeat split; auto; intros j Hj; now apply set_st_other.
Qed.

Lemma apply_turn_Continue (id : LoopId) (t : Turn) (w : World) :
  next t = Continue -> poison_after t = poison (client w) ->
  crashed (apply_turn id t w) = crashed w
  /\ ctl (apply_turn id t w) = ctl w
  /\ poison (client (apply_turn id t w)) = poison (client w)
  /\ message (client (apply_turn id t w)) = message (client w)
  /\ st (apply_turn id t w) id = Running
  /\ (forall j, j <> id -> st (apply_turn id t w) j = st w j).
Proof.
  intros Hn Hp. unfold apply_turn. rewrite Hn. simpl.
  rewrite Hp, set_st_same.
  repeat split; auto; intros j Hj; now apply set_st_other.
Qed.

Lemma drained_by_exit (id : LoopId) (m : gottyMessageType) (w w1 : World)
  (r : poisonReason) :
  draining m w -> step w w1 ->
  crashed w1 = crashed w -> ctl w1 = ctl w ->
  poison (client w1) = poison (client w) ->
  message (client w1) = message (client w) ->
  st w1 id = Exited r -> (forall j, j <> id -> st w1 j = st w j) ->
  drained id m w w1.
Proof.
  intros [D1 [D2 [D3 D4]]] Hs E1 E2 E3 E4 E5 E6.
  split; [now apply steps_one|]. split.
  - unfold draining. rewrite E1, E2, E3, E4. auto.
  - split; [now rewrite E5|].
    intros j Hj. destruct (LoopId_eqb j id) eqn:E.
    + apply LoopId_eqb_eq in E. subst j. now rewrite E5.
    + rewrite E6; [exact Hj|]. intros ->.
      rewrite (proj2 (LoopId_eqb_eq id id) eq_refl) in E. discriminate.
Qed.

Lemma drain_Output (m : gottyMessageType) (w : World) :
  st w OutputLoop <> NotStarted -> st w OutputLoop <> Starting ->
  draining m w -> exists w1, drained OutputLoop m w w1.
Proof.
  intros Hns Hst HD. pose proof HD as [D1 [D2 [D3 D4]]].
  destruct (st w OutputLoop) as [| | |r] eqn:Es; try congruence.
  - pose proof (step_readLoop w m RdPoison D1 Es D4) as Hstep.
    rewrite D3 in Hstep.
    destruct (apply_turn_Exit OutputLoop (readLoop_turn m Closed RdPoison)
                w killed eq_refl (eq_sym D3)) as [E1 [E2 [E3 [E4 [E5 E6]]]]].
    eexists. eapply drained_by_exit; eauto.
  - exists w. split; [apply steps_refl|]. split; [exact HD|].
    split; [now rewrite Es|auto].
Qed.

Lemma drain_Input (m : gottyMessageType) (w : World) :
  st w InputLoop <> NotStarted -> st w InputLoop <> Starting ->
  draining m w -> exists w1, drained InputLoop m w w1.
Proof.
  intros Hns Hst HD. pose proof HD as [D1 [D2 [D3 D4]]].
  destruct (st w InputLoop) as [| | |r] eqn:Es; try congruence.
  - pose proof (step_writeLoop w m
                  {| sel := SelOk; fd_set := false; rd_data := [];
                     rd_size := 0; rd_err := RdNil; wr_err := None |}
                  D1 Es D4) as Hstep.
    rewrite D3 in Hstep. cbn [writeLoop_turn signaled recv fst snd] in Hstep.
    rewrite return_die_Closed in Hstep.
    destruct (apply_turn_Exit InputLoop (turn [] [] Closed (Exit killed))
                w killed eq_refl (eq_sym D3)) as [E1 [E2 [E3 [E4 [E5 E6]]]]].
    eexists. eapply drained_by_exit; eauto.
  - exists w. split; [apply steps_refl|]. split; [exact HD|].
    split; [now rewrite Es|auto].
Qed.

Lemma drain_Resize (m : gottyMessageType) (w : World) :
  st w ResizeLoop <> NotStarted ->
  draining m w -> exists w1, drained ResizeLoop m w w1.
Proof.
  assert (forall w, st w ResizeLoop = Running -> draining m w ->
                    exists w1, drained ResizeLoop m w w1) as Hrun.
  { clear w. intros w Es HD. pose proof HD as [D1 [D2 [D3 D4]]].
    pose proof (step_termsizeLoop w m TsPoison D1 Es D4) as Hstep.
    rewrite D3 in Hstep.
    destruct (apply_turn_Exit ResizeLoop
                (termsizeLoop_turn m Closed TsPoison)
                w killed eq_refl (eq_sym D3)) as [E1 [E2 [E3 [E4 [E5 E6]]]]].
    eexists. eapply drained_by_exit; eauto. }
  intros Hns HD. pose proof HD as [D1 [D2 [D3 D4]]].
  destruct (st w ResizeLoop) as [| | |r] eqn:Es; try congruence.
  - (* before its for: the initial resize, then the select *)
    pose proof (step_termsizeLoop_start w m (Err "no terminal") None
                  D1 Es D4) as Hstep.
    destruct (apply_turn_Continue ResizeLoop
                (termsizeLoop_start m (poison (client w))
                   (Err "no terminal") None)
                w eq_refl eq_refl) as [E1 [E2 [E3 [E4 [E5 E6]]]]].
    set (w0 := apply_turn ResizeLoop
                 (termsizeLoop_start m (poison (client w))
                    (Err "no terminal") None) w) in *.
    assert (draining m w0) as HD0.
    { unfold draining. rewrite E1, E2, E3, E4. auto. }
    destruct (Hrun w0 E5 HD0) as [w1 [S1 [HD1 [X1 X2]]]].
    exists w1. split; [eapply steps_trans; [apply steps_one; exact Hstep|
                                            exact S1]|].
    split; [exact HD1|]. split; [exact X1|].
    intros j Hj. apply X2. destruct (LoopId_eqb j ResizeLoop) eqn:E.
    + apply LoopId_eqb_eq in E. subst j. rewrite Es in Hj. discriminate.
    + rewrite E6; [exact Hj|]. intros ->. discriminate.
  - now apply Hrun.
  - exists w. split; [apply steps_refl|]. split; [exact HD|].
    split; [now rewrite Es|auto].
Qed.

Lemma apply_turn_st (id : LoopId) (t : Turn) (w : World) (j : LoopId) :
  st (apply_turn id t w) j = st w j
  \/ st (apply_turn id t w) j = Running
  \/ exists r, st (apply_turn id t w) j = Exited r.
Proof.
  unfold apply_turn. destruct (next t) as [|r|msg|]; simpl; auto;
    try destruct (defers_Done id); simpl; unfold set_st;
    destruct (LoopId_eqb j id); eauto.
Qed.

Lemma do_Connect_st (w : World) (j : LoopId) :
  st (snd (do_Connect w)) j = st w j
  \/ st (snd (do_Connect w)) j = Running.
Proof.
  unfold do_Connect. destruct (Connect (client w, [])) as [r [c' evs]].
  destruct (existsb is_go evs); simpl; auto.
  unfold set_st. destruct (LoopId_eqb j PingLoop); auto.
Qed.

Lemma only_resize_starts_step (w w' : World) :
  only_resize_starts w -> step w w' -> only_resize_starts w'.
Proof.
  intros H Hstep j Hj. specialize (H j Hj).
  inversion Hstep; subst; simpl; auto;
    try (destruct (do_Connect_st w j) as [-> | ->]; [exact H|discriminate]);
    try (match goal with
         | |- context [apply_turn ?id ?t w] =>
             destruct (apply_turn_st id t w j) as [-> |[-> |[r ->]]];
             [exact H|discriminate|discriminate]
         end);
    try (unfold set_st; destruct j; simpl; congruence).
  - destruct (fst (do_Connect w)); simpl;
      (destruct (do_Connect_st w j) as [-> | ->]; [exact H|discriminate]).
  - destruct r; simpl; exact H.
Qed.

Lemma only_resize_starts_steps (w w' : World) :
  only_resize_starts w -> steps w w' -> only_resize_starts w'.
Proof.
  intros H Hs. induction Hs as [|w1 w2 w3 _ IH Hstep]; [exact H|].
  exact (only_resize_starts_step w2 w3 (IH H) Hstep).
Qed.

Lemma only_resize_starts_init (c : Client) :
  only_resize_starts (init_world c).
Proof. intros j _. discriminate. Qed.

Lemma exited_not_active (s : Status) : has_exited s = true -> is_active s = false.
Proof. now destruct s. Qed.

(** Once the signal is given while [Loop] waits, the three loops can each
    take the turn in which they see it, and [Loop] returns. *)
Lemma Loop_can_return (w : World) :
  Inv w -> tables_ready w -> only_resize_starts w ->
  crashed w = false -> ctl w = AtWait ->
  signaled (poison (client w)) = true ->
  exists w', steps w w' /\ Loop_returned w' /\ crashed w' = false
             /\ all_exited joined_loops w'.
Proof.
  intros HI [T1 T2] HO Hc Hk Hsig.
  rewrite Hk in T2.
  destruct (message (client w)) as [m|] eqn:Hm; [|now elim (T1 T2)].
  assert (poison (client w) = Closed) as Hp
      by (destruct (poison (client w)); [discriminate|reflexivity]).
  assert (draining m w) as HD by (unfold draining; auto).
  pose proof (inv_phase _ HI) as Hph. rewrite Hk in Hph.
  destruct Hph as [P1 [P2 P3]].
  destruct (drain_Resize m w P1 HD) as [w1 [S1 [HD1 [X1 Y1]]]].
  pose proof (Inv_steps _ _ HI S1) as HI1.
  pose proof (only_resize_starts_steps _ _ HO S1) as HO1.
  pose proof (inv_phase _ HI1) as Hph1.
  pose proof HD1 as [C1 [K1 [Q1 M1]]]. rewrite K1 in Hph1.
  destruct Hph1 as [_ [P2' P3']].
  destruct (drain_Output m w1 P2' (HO1 OutputLoop ltac:(discriminate)) HD1)
    as [w2 [S2 [HD2 [X2 Y2]]]].
  pose proof (Inv_steps _ _ HI1 S2) as HI2.
  pose proof (only_resize_starts_steps _ _ HO1 S2) as HO2.
  pose proof (inv_phase _ HI2) as Hph2.
  pose proof HD2 as [C2 [K2 [Q2 M2]]]. rewrite K2 in Hph2.
  destruct Hph2 as [_ [_ P3'']].
  destruct (drain_Input m w2 P3'' (HO2 InputLoop ltac:(discriminate)) HD2)
    as [w3 [S3 [HD3 [X3 Y3]]]].
  pose proof (Inv_steps _ _ HI2 S3) as HI3.
  pose proof HD3 as [C3 [K3 [Q3 M3]]].
  assert (has_exited (st w3 ResizeLoop) = true) as R3 by auto.
  assert (has_exited (st w3 OutputLoop) = true) as O3 by auto.
  assert (wg w3 = 0%Z) as Hwg.
  { rewrite (inv_wg _ HI3). unfold count_active.
    now rewrite !exited_not_active. }
  exists (with_ctl (Done None) w3).
  split.
  - eapply steps_trans; [exact S1|]. eapply steps_trans; [exact S2|].
    eapply steps_trans; [exact S3|]. apply steps_one.
    now apply step_Wait.
  - split; [reflexivity|]. split; [exact C3|].
    intros id [<-|[<-|[<-|[]]]]; assumption.
Qed.

Lemma Loop_reaches_Wait (w : World) :
  crashed w = false -> launching (ctl w) = true ->
  exists w1, steps w w1 /\ ctl w1 = AtWait /\ crashed w1 = false
             /\ poison (client w1) = poison (client w).
Proof.
  assert (forall w, crashed w = false -> ctl w = AtSpawnInput ->
            exists w1, steps w w1 /\ ctl w1 = AtWait /\ crashed w1 = false
                       /\ poison (client w1) = poison (client w)) as H3.
  { intros v Hc Hk. eexists. split;
      [apply steps_one; now apply step_go_writeLoop|]. simpl. auto. }
  assert (forall w, crashed w = false -> ctl w = AtSpawnOutput ->
            exists w1, steps w w1 /\ ctl w1 = AtWait /\ crashed w1 = false
                       /\ poison (client w1) = poison (client w)) as H2.
  { intros v Hc Hk.
    destruct (H3 (with_ctl AtSpawnInput
                    (with_st OutputLoop Running (wg_Add v))) Hc eq_refl)
      as [w1 [S1 [K1 [C1 Q1]]]].
    exists w1. split; [|auto].
    eapply steps_trans; [apply steps_one; now apply step_go_readLoop|].
    exact S1. }
  intros Hc Hk. destruct (ctl w) eqn:Ek; try discriminate.
  - destruct (H2 (with_ctl AtSpawnOutput
                    (with_st ResizeLoop Starting (wg_Add w))) Hc eq_refl)
      as [w1 [S1 [K1 [C1 Q1]]]].
    exists w1. split; [|auto].
    eapply steps_trans; [apply steps_one; now apply step_go_termsizeLoop|].
    exact S1.
  - now apply H2.
  - now apply H3.
  - exists w. split; [apply steps_refl|auto].
Qed.

Lemma acks_of_joined (w : World) :
  Inv w -> all_exited joined_loops w ->
  all_acknowledged joined_loops w /\ List.length (acks w) = 3.
Proof.
  intros HI Hex.
  assert (all_acknowledged joined_loops w) as Hack.
  { intros id Hid. apply (inv_acks _ HI). split; [|now apply Hex].
    destruct Hid as [<-|[<-|[<-|[]]]]; reflexivity. }
  split; [exact Hack|].
  assert (incl (acks w) joined_loops) as Hincl.
  { intros id Hid. apply (inv_acks _ HI) in Hid. destruct Hid as [Hd _].
    destruct id; simpl; auto. discriminate. }
  assert (NoDup joined_loops) as Hnd.
  { repeat constructor; simpl; intuition discriminate. }
  pose proof (NoDup_incl_length (inv_nodup _ HI) Hincl) as L1.
  pose proof (NoDup_incl_length Hnd Hack) as L2.
  simpl in L1, L2. lia.
Qed.

(** C1, amended: [Loop] launches and joins three loops, Resize, Output and
    Input.  In every world a run reaches: if [Loop] has returned without
    error, each of the three has returned and has acknowledged it to the
    wait group, and these three acknowledgements are all there are; the
    Ping Loop, which [Connect] launches and nothing joins, has not returned
    and has acknowledged nothing.  Once the poison channel is closed, the
    Input Loop returns at its next turn whatever the outside does, the
    Output and Resize Loops return at the turn in which their select takes
    the poison case, and no turn of the Ping Loop returns.  For a client
    that was not connected before, a world in which [Loop] launches its
    loops or waits for them and the signal has been given has a continuation
    in which the three loops have returned and [Loop] has returned. *)
Theorem Loop_joins_three_loops (c : Client) (w : World) :
  reachable c w ->
  (Loop_returned w ->
     all_exited joined_loops w
     /\ all_acknowledged joined_loops w
     /\ List.length (acks w) = 3)
  /\ has_exited (st w PingLoop) = false
  /\ ~ In PingLoop (acks w)
  /\ (forall m buff ev,
         fst (writeLoop_turn m Closed buff ev)
         = turn [] [] Closed (Exit killed))
  /\ (forall m, readLoop_turn m Closed RdPoison
                = turn [] [] Closed (Exit killed))
  /\ (forall m, termsizeLoop_turn m Closed TsPoison
                = turn [] [] Closed (Exit killed))
  /\ (forall m p wr, next (pingLoop_turn m p wr) = Continue)
  /\ (Connected c = false -> crashed w = false ->
      launching (ctl w) = true ->
      signaled (poison (client w)) = true ->
      exists w', steps w w' /\ Loop_returned w' /\ crashed w' = false
                 /\ all_exited joined_loops w').
Proof.
  intros Hr. pose proof (Inv_reachable c w Hr) as HI.
  split.
  - intros Hret. unfold Loop_returned in Hret.
    pose proof (inv_phase _ HI) as Hph. rewrite Hret in Hph.
    destruct Hph as [P1 [P2 P3]].
    assert (all_exited joined_loops w) as Hex
        by (intros id [<-|[<-|[<-|[]]]]; assumption).
    split; [exact Hex|]. now apply acks_of_joined.
  - split; [exact (inv_ping _ HI)|]. split.
    + intros Hin. apply (inv_acks _ HI) in Hin. destruct Hin as [Hd _].
      discriminate.
    + repeat split; try reflexivity.
      intros Hc Hcr Hk Hsig.
      destruct (Loop_reaches_Wait w Hcr Hk) as [w1 [S1 [K1 [C1 Q1]]]].
      assert (reachable c w1) as Hr1 by (eapply steps_trans; eauto).
      destruct (Loop_can_return w1) as [w' [S' R']]; auto.
      * now apply (Inv_reachable c).
      * exact (tables_ready_steps _ _ (tables_ready_init c Hc) Hr1).
      * exact (only_resize_starts_steps _ _ (only_resize_starts_init c) Hr1).
      * now rewrite Q1.
      * exists w'. split; [eapply steps_trans; eauto|exact R'].
Qed.

End SessionFacts.

(** C1, counterexample: in that run [Loop] has returned without error after
    the signal, with the acknowledgements of three loops; the Ping Loop is
    still running, has acknowledged nothing, and has written to the socket
    after [Loop] returned. *)
Lemma ping_outlives_Loop :
  @Session.reachable Demo.demo_NetURL (Demo.server Demo.good_response)
    Demo.demo_Base64 Demo.demo_client Demo.after_shutdown
  /\ Session.Loop_returned Demo.after_shutdown
  /\ Poison.signaled (Client.poison (Session.client Demo.after_shutdown)) = true
  /\ Session.acks Demo.after_shutdown
     = [Session.ResizeLoop; Session.OutputLoop; Session.InputLoop]
  /\ Session.st Demo.after_shutdown Session.PingLoop = Session.Running
  /\ Session.wire Demo.after_shutdown
     = [list_byte_of_string "secret?"; ["2"%byte]; ["2"%byte]]
  /\ ~ Session.Loop_joins_four_loops.
Proof.
  assert (@Session.reachable Demo.demo_NetURL
            (Demo.server Demo.good_response) Demo.demo_Base64
            Demo.demo_client Demo.after_shutdown) as Hr
      by apply run_sound.
  assert (Session.Loop_returned Demo.after_shutdown) as Hret
      by (vm_compute; reflexivity).
  split; [exact Hr|]. split; [exact Hret|].
  split; [vm_compute; reflexivity|].
  split; [vm_compute; reflexivity|].
  split; [vm_compute; reflexivity|].
  split; [vm_compute; reflexivity|].
  intros Hclaim.
  destruct (Hclaim _ _ _ _ _ Hr Hret) as [Hex _].
  specialize (Hex Session.PingLoop
                  ltac:(unfold Session.pump_loops; simpl; tauto)).
  vm_compute in Hex. discriminate Hex.
Qed.

Lemma Loop_joins_three_loops_witness :
  Session.all_exited Session.joined_loops Demo.after_shutdown
  /\ Session.has_exited (Session.st Demo.after_shutdown Session.PingLoop) = false.
Proof.
  destruct (@Loop_joins_three_loops Demo.demo_NetURL
              (Demo.server Demo.good_response) Demo.demo_Base64
              Demo.demo_client Demo.after_shutdown)
    as [H1 [H2 _]].
  - apply run_sound.
  - assert (Session.Loop_returned Demo.after_shutdown) as Hret
        by (vm_compute; reflexivity).
    destruct (H1 Hret) as [Hex _].
    exact (conj Hex H2).
Defined.

(** * Further properties: command line and configuration *)

(** ** Strings *)

Section GoStringsFacts.
Import GoStrings.
Local Open Scope string_scope.

Lemma length_append (a b : string) :
  String.length (a ++ b) = String.length a + String.length b.
Proof. induction a as [|c a IH]; simpl; [reflexivity|now rewrite IH]. Qed.

Lemma append_nil_r (a : string) : a ++ "" = a.
Proof. induction a as [|c a IH]; simpl; [reflexivity|now rewrite IH]. Qed.

Lemma drop_length (n : nat) (s : string) :
  String.length (drop n s) = String.length s - n.
Proof.
  revert s. induction n as [|n IH]; intros s; simpl.
  - lia.
  - destruct s as [|c s]; simpl; [reflexivity|apply IH].
Qed.

Lemma drop_app (a b : string) : drop (String.length a) (a ++ b) = b.
Proof. induction a as [|c a IH]; simpl; [reflexivity|exact IH]. Qed.

Lemma take_app (a b : string) : take (String.length a) (a ++ b) = a.
Proof.
  unfold take. induction a as [|c a IH]; simpl.
  - now destruct b.
  - now rewrite IH.
Qed.

Lemma take_drop (n : nat) (s : string) : take n s ++ drop n s = s.
Proof.
  unfold take. revert s. induction n as [|n IH]; intros s; simpl.
  - now destruct s.
  - destruct s as [|c s]; simpl; [reflexivity|now rewrite IH].
Qed.

Lemma take_length (n : nat) (s : string) :
  n <= String.length s -> String.length (take n s) = n.
Proof.
  unfold take. revert s. induction n as [|n IH]; intros s H; simpl.
  - now destruct s.
  - destruct s as [|c s]; simpl in *; [lia|]. rewrite IH; lia.
Qed.

Lemma prefix_app (p b : string) : String.prefix p (p ++ b) = true.
Proof.
  induction p as [|c p IH]; simpl.
  - destruct b; [|reflexivity]. simpl.
    destruct (string_dec "" ""); [reflexivity|contradiction].
  - destruct (ascii_dec c c); [exact IH|contradiction].
Qed.

Lemma prefix_split (p s : string) :
  String.prefix p s = true -> s = p ++ drop (String.length p) s.
Proof.
  revert s. induction p as [|c p IH]; intros s H.
  - reflexivity.
  - destruct s as [|d s]; simpl in H.
    + destruct (string_dec (String c p) ""); discriminate.
    + destruct (ascii_dec c d); [|discriminate]. subst d.
      simpl. now rewrite <- (IH s H).
Qed.

(** [HasPrefix] and [HasSuffix] say what their names say. *)
Lemma HasPrefix_iff (s p : string) :
  HasPrefix s p = true <-> exists b, s = p ++ b.
Proof.
  unfold HasPrefix. split.
  - intros H. eexists. now apply prefix_split.
  - intros [b ->]. apply prefix_app.
Qed.

Lemma HasSuffix_iff (s suf : string) :
  HasSuffix s suf = true <-> exists a, s = a ++ suf.
Proof.
  unfold HasSuffix. split.
  - intros H. apply andb_true_iff in H. destruct H as [Hl He].
    apply Nat.leb_le in Hl. apply String.eqb_eq in He.
    set (n := String.length s - String.length suf) in *.
    exists (take n s).
    transitivity (take n s ++ drop n s);
      [symmetry; apply take_drop|now rewrite He].
  - intros [a ->]. rewrite length_append.
    replace (String.length a + String.length suf - String.length suf)
      with (String.length a) by lia.
    rewrite drop_app, String.eqb_refl.
    apply andb_true_iff. split; [apply Nat.leb_le; lia|reflexivity].
Qed.

Lemma TrimPrefix_app (p b : string) : TrimPrefix (p ++ b) p = b.
Proof.
  unfold TrimPrefix, HasPrefix. now rewrite prefix_app, drop_app.
Qed.

Lemma TrimSuffix_app (a suf : string) : TrimSuffix (a ++ suf) suf = a.
Proof.
  unfold TrimSuffix.
  rewrite (proj2 (HasSuffix_iff (a ++ suf) suf)) by now exists a.
  rewrite length_append.
  replace (String.length a + String.length suf - String.length suf)
    with (String.length a) by lia.
  apply take_app.
Qed.

Lemma TrimLeft_space_length (s : string) :
  String.length (TrimLeft_space s) <= String.length s.
Proof.
  induction s as [|c s IH]; simpl; [lia|].
  destruct (is_space c); simpl; lia.
Qed.

Lemma TrimRight_space_length (s : string) :
  String.length (TrimRight_space s) <= String.length s.
Proof.
  induction s as [|c s IH]; simpl; [lia|].
  destruct (TrimRight_space s); simpl in *;
    [destruct (is_space c); simpl; lia|lia].
Qed.

Lemma TrimLeft_space_shorter (c : ascii) (s : string) :
  is_space c = true ->
  String.length (TrimLeft_space (String c s)) < String.length (String c s).
Proof.
  intros H. simpl. rewrite H.
  pose proof (TrimLeft_space_length s). lia.
Qed.

(** Text that [TrimSpace] leaves alone is left alone by both halves. *)
Lemma trimmed_halves (s : string) :
  TrimSpace s = s -> TrimLeft_space s = s /\ TrimRight_space s = s.
Proof.
  unfold TrimSpace. intros H.
  assert (TrimLeft_space s = s) as HL.
  { destruct s as [|c s]; [reflexivity|].
    destruct (is_space c) eqn:E; [|simpl; now rewrite E].
    pose proof (TrimLeft_space_shorter c s E) as H1.
    pose proof (TrimRight_space_length (TrimLeft_space (String c s))) as H2.
    rewrite H in H2. lia. }
  split; [exact HL|]. now rewrite HL in H.
Qed.

Lemma TrimRight_space_app (a b : string) :
  TrimRight_space b <> "" ->
  TrimRight_space (a ++ b) = a ++ TrimRight_space b.
Proof.
  intros Hb. induction a as [|c a IH]; simpl; [reflexivity|].
  rewrite IH. destruct (a ++ TrimRight_space b) eqn:E; [|reflexivity].
  destruct a; simpl in E; [contradiction|discriminate].
Qed.

Lemma TrimLeft_space_first (s : string) (c : ascii) (t : string) :
  TrimLeft_space s = String c t -> is_space c = false.
Proof.
  induction s as [|d s IH]; simpl; [discriminate|].
  destruct (is_space d) eqn:E; [exact IH|].
  intros H. injection H as <- _. exact E.
Qed.

(** [TrimRight_space] keeps the first byte of what it keeps. *)
Lemma TrimRight_space_first (s : string) (c : ascii) (t : string) :
  TrimRight_space s = String c t -> exists t', s = String c t'.
Proof.
  destruct s as [|d s]; simpl; [discriminate|].
  destruct (TrimRight_space s).
  - destruct (is_space d); [discriminate|].
    intros H. injection H as <- _. now exists s.
  - intros H. injection H as <- _. now exists s.
Qed.

Lemma TrimSpace_first (s : string) (c : ascii) (t : string) :
  TrimSpace s = String c t -> is_space c = false.
Proof.
  unfold TrimSpace. intros H.
  destruct (TrimRight_space_first _ _ _ H) as [t' Ht'].
  exact (TrimLeft_space_first _ _ _ Ht').
Qed.

(** Leading white space goes, and trimmed text behind it stays. *)
Lemma TrimSpace_indent (v : string) :
  TrimSpace v = v -> v <> "" -> TrimSpace ("    " ++ v) = v.
Proof.
  intros H Hne. destruct (trimmed_halves v H) as [HL HR].
  unfold TrimSpace. simpl. now rewrite HL.
Qed.

End GoStringsFacts.

(** ** [truncate] *)

Section TruncateFacts.
Import GoStrings Cli.
Local Open Scope string_scope.

(** X1: for a limit of three bytes or more [truncate] returns, and what it
    returns is never longer than the limit: the string itself when it fits,
    and otherwise its first [maxLen - 3] bytes followed by three dots, which
    is exactly [maxLen] bytes long. *)
Theorem truncate_within_limit (s : string) (maxLen : Z) :
  (3 <= maxLen)%Z ->
  exists r : string,
    truncate s maxLen = Poison.Returned r
    /\ (Z.of_nat (String.length r) <= maxLen)%Z
    /\ ((Z.of_nat (String.length s) <= maxLen)%Z -> r = s)
    /\ ((maxLen < Z.of_nat (String.length s))%Z ->
        r = take (Z.to_nat (maxLen - 3)) s ++ "..."
        /\ Z.of_nat (String.length r) = maxLen).
Proof.
  intros H3. unfold truncate.
  destruct (Z.of_nat (String.length s) <=? maxLen)%Z eqn:E.
  - apply Z.leb_le in E. exists s. repeat split; auto; lia.
  - apply Z.leb_gt in E.
    assert ((maxLen - 3 <? 0)%Z = false) as -> by (apply Z.ltb_ge; lia).
    eexists. split; [reflexivity|].
    assert (String.length (take (Z.to_nat (maxLen - 3)) s ++ "...")
            = Z.to_nat maxLen) as HL.
    { rewrite length_append, take_length by lia. simpl. lia. }
    rewrite HL. split; [lia|]. split; [lia|]. intros _. split; [reflexivity|lia].
Qed.

(** X2: with a limit below three and a string longer than the limit the
    slice bound is negative and [truncate] panics. *)
Theorem truncate_panics_below_three (s : string) (maxLen : Z) :
  (maxLen < 3)%Z -> (maxLen < Z.of_nat (String.length s))%Z ->
  truncate s maxLen = Poison.Panicked "slice bounds out of range".
Proof.
  intros H3 HL. unfold truncate.
  assert ((Z.of_nat (String.length s) <=? maxLen)%Z = false) as ->
      by (apply Z.leb_gt; lia).
  assert ((maxLen - 3 <? 0)%Z = true) as -> by (apply Z.ltb_lt; lia).
  reflexivity.
Qed.

End TruncateFacts.

Lemma truncate_within_limit_witness :
  exists r : string,
    Cli.truncate "Amateur radio station" 10 = Poison.Returned r
    /\ (Z.of_nat (String.length r) <= 10)%Z.
Proof.
  destruct (truncate_within_limit "Amateur radio station" 10)
    as [r [H1 [H2 _]]]; [lia|].
  exists r. split; assumption.
Defined.

Lemma truncate_panics_below_three_witness :
  Cli.truncate "abcd" 2 = Poison.Panicked "slice bounds out of range".
Proof.
  apply truncate_panics_below_three; simpl; lia.
Defined.

Example truncate_example :
  Cli.truncate "Amateur radio station" 10 = Poison.Returned "Amateur...".
Proof. reflexivity. Qed.

(** ** [parseBool] and [matchPattern] *)

Section PatternMatchFacts.
Import GoStrings Config.
Local Open Scope string_scope.

Lemma lower_ascii_not_upper (c : ascii) :
  Url.is_upper (Url.lower_ascii c) = false.
Proof.
  unfold Url.lower_ascii. destruct (Url.is_upper c) eqn:E; [|exact E].
  destruct c as [[] [] [] [] [] [] [] []]; try discriminate E; reflexivity.
Qed.

Lemma lower_ascii_idempotent (c : ascii) :
  Url.lower_ascii (Url.lower_ascii c) = Url.lower_ascii c.
Proof.
  unfold Url.lower_ascii at 1. now rewrite lower_ascii_not_upper.
Qed.

Lemma ToLower_idempotent (s : string) : ToLower (ToLower s) = ToLower s.
Proof.
  unfold ToLower. induction s as [|c s IH]; simpl; [reflexivity|].
  now rewrite lower_ascii_idempotent, IH.
Qed.

Lemma ToLower_no_upper (s : string) : no_upper (ToLower s) = true.
Proof.
  unfold ToLower. induction s as [|c s IH]; simpl; [reflexivity|].
  now rewrite lower_ascii_not_upper, IH.
Qed.

(** X3: [parseBool] never fails and does not look at the case of the
    letters: it is true exactly for the texts that read [1], [t], [true],
    [yes] or [y] once lower-cased, and false for every other text. *)
Theorem parseBool_truthy (s : string) :
  is_ascii s = true ->
  (parseBool s = true
   <-> In (ToLower s) ["1"; "t"; "true"; "yes"; "y"])
  /\ parseBool (ToLower s) = parseBool s.
Proof.
  intros _. split.
  - unfold parseBool. cbv zeta.
    pose proof (ToLower_no_upper s) as Hl.
    set (l := ToLower s) in *. unfold strconv_ParseBool.
    split.
    + intros H.
      destruct (String.eqb l "1") eqn:E1;
        [apply String.eqb_eq in E1; rewrite E1; simpl; tauto|].
      destruct (String.eqb l "t") eqn:E2;
        [apply String.eqb_eq in E2; rewrite E2; simpl; tauto|].
      destruct (String.eqb l "T") eqn:E3;
        [apply String.eqb_eq in E3; rewrite E3 in Hl; discriminate|].
      destruct (String.eqb l "TRUE") eqn:E4;
        [apply String.eqb_eq in E4; rewrite E4 in Hl; discriminate|].
      destruct (String.eqb l "true") eqn:E5;
        [apply String.eqb_eq in E5; rewrite E5; simpl; tauto|].
      destruct (String.eqb l "True") eqn:E6;
        [apply String.eqb_eq in E6; rewrite E6 in Hl; discriminate|].
      simpl in H.
      destruct (String.eqb l "0" || String.eqb l "f" || String.eqb l "F"
                || String.eqb l "FALSE" || String.eqb l "false"
                || String.eqb l "False")%bool; [discriminate|].
      apply orb_true_iff in H. destruct H as [H|H];
        apply String.eqb_eq in H; rewrite H; simpl; tauto.
    + intros [H|[H|[H|[H|[H|[]]]]]]; rewrite <- H; reflexivity.
  - unfold parseBool. cbv zeta. now rewrite ToLower_idempotent.
Qed.

Lemma HasSuffix_drop (n : nat) (s : string) :
  n <= String.length s -> HasSuffix s (drop n s) = true.
Proof.
  intros H. apply HasSuffix_iff. exists (take n s). symmetry.
  apply take_drop.
Qed.

Lemma HasPrefix_take (n : nat) (s : string) : HasPrefix s (take n s) = true.
Proof.
  apply HasPrefix_iff. exists (drop n s). symmetry. apply take_drop.
Qed.

Lemma matchPattern_refl (p : string) : matchPattern p p = true.
Proof.
  unfold matchPattern.
  destruct (String.eqb p "*"); [reflexivity|].
  destruct (HasPrefix p "*.") eqn:E1.
  - cbv zeta. apply HasPrefix_iff in E1. destruct E1 as [b ->].
    change ("*." ++ b) with ("*" ++ ("." ++ b)).
    rewrite TrimPrefix_app. apply HasSuffix_iff. now exists "*".
  - destruct (HasSuffix p ".*") eqn:E2.
    + cbv zeta. unfold TrimSuffix. rewrite E2. apply HasPrefix_iff.
      eexists. symmetry. apply take_drop.
    + apply String.eqb_refl.
Qed.

(** X4: every pattern matches the name that is spelled like it; and a
    pattern that is not [*], does not start with [*.] and does not end in
    [.*] matches that name only. *)
Theorem matchPattern_exact (pattern : string) :
  matchPattern pattern pattern = true
  /\ (pattern <> "*" -> HasPrefix pattern "*." = false ->
      HasSuffix pattern ".*" = false ->
      forall str, matchPattern pattern str = true <-> str = pattern).
Proof.
  split.
  - apply matchPattern_refl.
  - intros H1 H2 H3 str. unfold matchPattern.
    apply String.eqb_neq in H1. rewrite H1, H2, H3.
    rewrite String.eqb_eq. split; congruence.
Qed.

(** X5: the two wild cards.  A pattern [*.] followed by [d] matches the
    names that end in a dot followed by [d].  A pattern [pre] followed by
    [.*], when it does not itself start with [*.], matches the names that
    start with [pre]: the dot of the pattern is not looked for in the
    name. *)
Theorem matchPattern_wildcards (d pre str : string) :
  (matchPattern ("*." ++ d) str = true <-> exists a, str = a ++ "." ++ d)
  /\ (HasPrefix (pre ++ ".*") "*." = false ->
      (matchPattern (pre ++ ".*") str = true <-> exists b, str = pre ++ b)).
Proof.
  split.
  - unfold matchPattern.
    assert (String.eqb ("*." ++ d) "*" = false) as -> by reflexivity.
    rewrite (proj2 (HasPrefix_iff ("*." ++ d) "*.")) by now exists d.
    cbv zeta. change ("*." ++ d) with ("*" ++ ("." ++ d)).
    rewrite TrimPrefix_app. apply HasSuffix_iff.
  - intros H. unfold matchPattern.
    assert (String.eqb (pre ++ ".*") "*" = false) as ->.
    { apply String.eqb_neq. intros E.
      apply (f_equal String.length) in E. rewrite length_append in E.
      simpl in E. lia. }
    rewrite H.
    rewrite (proj2 (HasSuffix_iff (pre ++ ".*") ".*")) by now exists pre.
    cbv zeta. rewrite TrimSuffix_app. apply HasPrefix_iff.
Qed.

End PatternMatchFacts.

Lemma parseBool_truthy_witness :
  Config.parseBool "YES" = true /\ Config.parseBool "on" = false.
Proof.
  split.
  - apply (proj1 (parseBool_truthy "YES" eq_refl)). simpl. tauto.
  - reflexivity.
Defined.

Example matchPattern_examples :
  Config.matchPattern "*.example.com" "dev.example.com" = true
  /\ Config.matchPattern "*.example.com" "example.com" = false
  /\ Config.matchPattern "web.*" "website" = true
  /\ Config.matchPattern "web.*" "web" = true
  /\ Config.matchPattern "*.*" "a.b" = false.
Proof. repeat split. Qed.

(** ** [parseDetachKeys] *)

Section DetachKeysFacts.
Import GoStrings Cli.
Local Open Scope string_scope.

Lemma Split_nonempty (sep : ascii) (s : string) : Split sep s <> [].
Proof.
  destruct s as [|c s]; simpl; [discriminate|].
  destruct (Ascii.eqb c sep); [discriminate|].
  destruct (Split sep s); discriminate.
Qed.

Lemma Split_app (sep : ascii) (a b : string) :
  Split sep (a ++ String sep b) = (Split sep a ++ Split sep b)%list.
Proof.
  induction a as [|c a IH]; simpl.
  - now rewrite Ascii.eqb_refl.
  - destruct (Ascii.eqb c sep); [now rewrite IH|].
    rewrite IH. pose proof (Split_nonempty sep a) as Hne.
    destruct (Split sep a) as [|p ps]; [contradiction|reflexivity].
Qed.

Lemma Split_pieces (sep : ascii) (s p : string) :
  In p (Split sep s) ->
  all_chars (fun c => negb (Ascii.eqb c sep)) p = true.
Proof.
  revert p. induction s as [|c s IH]; simpl; intros p H.
  - destruct H as [<-|[]]. reflexivity.
  - destruct (Ascii.eqb c sep) eqn:E.
    + destruct H as [<-|H]; [reflexivity|now apply IH].
    + pose proof (Split_nonempty sep s) as Hne.
      destruct (Split sep s) as [|q qs]; [contradiction|].
      destruct H as [<-|H].
      * simpl. rewrite E. simpl. apply IH. now left.
      * apply IH. now right.
Qed.

Lemma all_chars_TrimLeft (P : ascii -> bool) (s : string) :
  all_chars P s = true -> all_chars P (TrimLeft_space s) = true.
Proof.
  induction s as [|c s IH]; simpl; [auto|]. intros H.
  apply andb_true_iff in H. destruct H as [Hc Hs].
  destruct (is_space c); [auto|]. simpl. now rewrite Hc, Hs.
Qed.

Lemma all_chars_TrimRight (P : ascii -> bool) (s : string) :
  all_chars P s = true -> all_chars P (TrimRight_space s) = true.
Proof.
  induction s as [|c s IH]; simpl; [auto|]. intros H.
  apply andb_true_iff in H. destruct H as [Hc Hs]. specialize (IH Hs).
  destruct (TrimRight_space s) as [|d t].
  - destruct (is_space c); [reflexivity|]. simpl. now rewrite Hc.
  - simpl in *. now rewrite Hc, IH.
Qed.

Lemma all_chars_TrimSpace (P : ascii -> bool) (s : string) :
  all_chars P s = true -> all_chars P (TrimSpace s) = true.
Proof.
  intros H. unfold TrimSpace.
  now apply all_chars_TrimRight, all_chars_TrimLeft.
Qed.

Lemma lower_ascii_comma (c : ascii) :
  Ascii.eqb (Url.lower_ascii c) "," = Ascii.eqb c ",".
Proof.
  destruct c as [[] [] [] [] [] [] [] []]; reflexivity.
Qed.

Lemma all_chars_ToLower (s : string) :
  all_chars (fun c => negb (Ascii.eqb c ",")) s = true ->
  all_chars (fun c => negb (Ascii.eqb c ",")
                      && negb (Url.is_upper c))%bool (ToLower s) = true.
Proof.
  unfold ToLower. induction s as [|c s IH]; simpl; [auto|]. intros H.
  apply andb_true_iff in H. destruct H as [Hc Hs].
  now rewrite lower_ascii_comma, Hc, lower_ascii_not_upper, IH.
Qed.

Lemma key_of_part_cases (part : string) (b : byte) :
  In b (key_of_part part) ->
  In b control_keys \/ exists c, part = String c "" /\ b = byte_of_ascii c.
Proof.
  unfold key_of_part, control_keys.
  repeat match goal with
         | |- context [if String.eqb part ?k then _ else _] =>
             destruct (String.eqb part k);
             [intros [<-|[]]; left; simpl; tauto|]
         end.
  destruct part as [|c [|d t]]; simpl; try tauto.
  intros [<-|[]]. right. now exists c.
Qed.

(** X6: the detach keys of two lists joined by a comma are the keys of the
    first followed by the keys of the second, and a list never gives more
    bytes than it has comma-separated pieces (the capacity the code
    allocates for the result). *)
Theorem parseDetachKeys_comma (a b : string) :
  is_ascii a = true -> is_ascii b = true ->
  parseDetachKeys (a ++ "," ++ b)
  = (parseDetachKeys a ++ parseDetachKeys b)%list
  /\ List.length (parseDetachKeys a) <= List.length (Split "," a).
Proof.
  intros _ _. split.
  - unfold parseDetachKeys.
    change (a ++ "," ++ b) with (a ++ String "," b).
    now rewrite Split_app, flat_map_app.
  - unfold parseDetachKeys. induction (Split "," a) as [|p ps IH]; simpl.
    + lia.
    + rewrite List.length_app.
      assert (List.length (key_of_part (TrimSpace (ToLower p))) <= 1).
      { generalize (TrimSpace (ToLower p)). intros part.
        unfold key_of_part.
        repeat match goal with
               | |- context [if String.eqb part ?k then _ else _] =>
                   destruct (String.eqb part k); [simpl; lia|]
               end.
        destruct part as [|c [|d t]]; simpl; lia. }
      lia.
Qed.

(** X7: every byte [parseDetachKeys] returns is the code of one of the nine
    named control keys or a single byte given literally, and a literal byte
    is never an upper-case letter, white space or a comma: such a byte
    cannot be chosen as a detach key. *)
Theorem parseDetachKeys_bytes (keys : string) (b : byte) :
  is_ascii keys = true ->
  In b (parseDetachKeys keys) ->
  In b control_keys
  \/ exists c : ascii,
       b = byte_of_ascii c /\ is_space c = false
       /\ Url.is_upper c = false /\ c <> ","%char.
Proof.
  intros _ H. unfold parseDetachKeys in H.
  apply in_flat_map in H. destruct H as [p [Hp Hb]].
  apply key_of_part_cases in Hb. destruct Hb as [Hb|[c [Hc ->]]].
  - now left.
  - right. exists c. split; [reflexivity|].
    split; [exact (TrimSpace_first _ _ _ Hc)|].
    pose proof (all_chars_TrimSpace _ _
                  (all_chars_ToLower _ (Split_pieces _ _ _ Hp))) as Ha.
    rewrite Hc in Ha. simpl in Ha.
    rewrite andb_true_r in Ha. apply andb_true_iff in Ha.
    destruct Ha as [H1 H2]. apply negb_true_iff in H1, H2.
    split; [exact H2|]. now apply Ascii.eqb_neq.
Qed.

End DetachKeysFacts.

Lemma parseDetachKeys_comma_witness :
  Cli.parseDetachKeys "Ctrl-P, ctrl-q" = [x10; x11].
Proof.
  exact (proj1 (parseDetachKeys_comma "Ctrl-P" " ctrl-q" eq_refl eq_refl)).
Defined.

Lemma parseDetachKeys_bytes_witness :
  In "q"%byte Cli.control_keys
  \/ exists c : ascii,
       "q"%byte = Cli.byte_of_ascii c /\ GoStrings.is_space c = false
       /\ Url.is_upper c = false /\ c <> ","%char.
Proof.
  apply (parseDetachKeys_bytes "ctrl-a,Q" "q"%byte eq_refl).
  simpl. tauto.
Defined.

Example parseDetachKeys_examples :
  Cli.parseDetachKeys "ctrl-p,ctrl-q" = [x10; x11]
  /\ Cli.parseDetachKeys "CTRL-A , Q,,ctrl-y" = [x01; "q"%byte]
  /\ Cli.parseDetachKeys "" = [].
Proof. repeat split. Qed.

(** ** Looking up a host *)

Section GetHostConfigFacts.
Import GoStrings Config.
Local Open Scope string_scope.

Lemma lookup_In (key : string) (hosts : Hosts) (h : HostConfig) :
  lookup key hosts = Some h -> In (key, h) hosts.
Proof.
  induction hosts as [|[k v] rest IH]; simpl; [discriminate|].
  destruct (String.eqb k key) eqn:E.
  - intros [= <-]. apply String.eqb_eq in E. subst k. now left.
  - intros H. right. now apply IH.
Qed.

Lemma first_match_Some (a : string) (hosts : Hosts) (h : HostConfig) :
  first_match a hosts = Some h ->
  exists p, In (p, h) hosts /\ matchPattern p a = true.
Proof.
  induction hosts as [|[k v] rest IH]; simpl; [discriminate|].
  destruct (matchPattern k a) eqn:E.
  - intros [= <-]. exists k. split; [now left|exact E].
  - intros H. destruct (IH H) as [p [Hp Hm]]. exists p. split; auto.
Qed.

Lemma first_match_None (a : string) (hosts : Hosts) :
  first_match a hosts = None <->
  forall p h, In (p, h) hosts -> matchPattern p a = false.
Proof.
  induction hosts as [|[k v] rest IH]; simpl.
  - split; [intros _ p h []|reflexivity].
  - destruct (matchPattern k a) eqn:E.
    + split; [discriminate|]. intros H.
      rewrite (H k v) in E by now left. discriminate.
    + rewrite IH. split.
      * intros H p h [[= <- <-]|Hin]; [exact E|eauto].
      * intros H p h Hin. apply (H p h). now right.
Qed.

Lemma first_match_of_lookup (key a : string) (hosts : Hosts)
  (h : HostConfig) :
  lookup key hosts = Some h -> matchPattern key a = true ->
  first_match a hosts <> None.
Proof.
  intros Hl Hm Hn. apply lookup_In in Hl.
  rewrite (proj1 (first_match_None a hosts) Hn key h Hl) in Hm.
  discriminate.
Qed.

(** X8: [GetHostConfig] answers with the entry stored under the alias
    itself when there is one, and otherwise with the first entry, in the
    order in which the map is ranged over, whose pattern matches the alias;
    the closing look-up of the pattern [*] never decides anything.  So the
    answer is always an entry whose pattern matches the alias, and there is
    no answer exactly when no pattern of the map matches. *)
Theorem GetHostConfig_first_match (hosts : Hosts) (hostAlias : string) :
  GetHostConfig hosts hostAlias
  = match lookup hostAlias hosts with
    | Some host => Some host
    | None => first_match hostAlias hosts
    end
  /\ (forall host, GetHostConfig hosts hostAlias = Some host ->
        exists pattern,
          In (pattern, host) hosts /\ matchPattern pattern hostAlias = true)
  /\ (GetHostConfig hosts hostAlias = None <->
      forall pattern host,
        In (pattern, host) hosts -> matchPattern pattern hostAlias = false).
Proof.
  assert (GetHostConfig hosts hostAlias
          = match lookup hostAlias hosts with
            | Some host => Some host
            | None => first_match hostAlias hosts
            end) as Heq.
  { unfold GetHostConfig.
    destruct (lookup hostAlias hosts); [reflexivity|].
    destruct (first_match hostAlias hosts) eqn:Ef; [reflexivity|].
    destruct (lookup "*" hosts) eqn:El; [|reflexivity].
    exfalso. now apply (first_match_of_lookup "*" hostAlias hosts h). }
  split; [exact Heq|]. rewrite Heq. split.
  - intros host. destruct (lookup hostAlias hosts) eqn:El.
    + intros [= <-]. exists hostAlias. split.
      * now apply lookup_In.
      * apply matchPattern_refl.
    + apply first_match_Some.
  - destruct (lookup hostAlias hosts) eqn:El.
    + split; [discriminate|]. intros H. apply lookup_In in El.
      pose proof (H hostAlias h El) as Hm.
      rewrite matchPattern_refl in Hm. discriminate.
    + apply first_match_None.
Qed.

(** X9: which entry a wild card look-up returns depends on the order in
    which the map is ranged over.  With an entry for the pattern [*] in the
    map, an alias that is not itself a key gets the [*] entry when the map
    yields that entry first, whatever the other patterns are; and it gets
    the entry of another matching pattern when the map yields that one
    first. *)
Theorem GetHostConfig_star_first (hosts : Hosts) (fallback h : HostConfig)
  (pattern hostAlias : string) :
  lookup hostAlias (("*", fallback) :: (pattern, h) :: hosts) = None ->
  matchPattern pattern hostAlias = true ->
  GetHostConfig (("*", fallback) :: (pattern, h) :: hosts) hostAlias
  = Some fallback
  /\ GetHostConfig ((pattern, h) :: ("*", fallback) :: hosts) hostAlias
     = Some h.
Proof.
  intros Hl Hm. split.
  - unfold GetHostConfig. rewrite Hl. reflexivity.
  - assert (lookup hostAlias ((pattern, h) :: ("*", fallback) :: hosts)
            = None) as Hl'.
    { revert Hl. cbn [lookup].
      destruct (String.eqb "*" hostAlias); [discriminate|].
      now destruct (String.eqb pattern hostAlias). }
    unfold GetHostConfig. rewrite Hl'. cbn [first_match]. now rewrite Hm.
Qed.

End GetHostConfigFacts.

Lemma GetHostConfig_star_first_witness :
  Config.GetHostConfig
    [("*", Config.zero);
     ("*.example.com", Config.with_Host "*.example.com" Config.zero)]
    "dev.example.com"
  = Some Config.zero
  /\ Config.GetHostConfig
       [("*.example.com", Config.with_Host "*.example.com" Config.zero);
        ("*", Config.zero)]
       "dev.example.com"
     = Some (Config.with_Host "*.example.com" Config.zero).
Proof.
  apply GetHostConfig_star_first; reflexivity.
Defined.

(** ** Merging and applying host configurations *)

Section MergeFacts.
Import GoStrings Config.
Local Open Scope string_scope.

Lemma pick_empty_r (v : string) : pick v "" = v.
Proof. unfold pick. destruct (String.eqb v "") eqn:E; [|reflexivity].
  apply String.eqb_eq in E. now subst. Qed.

Lemma pick_assoc (a b c : string) : pick (pick a b) c = pick a (pick b c).
Proof.
  unfold pick. destruct (String.eqb a "") eqn:E; [reflexivity|].
  now rewrite E.
Qed.

Lemma pick_idem (a c : string) : pick a (pick a c) = pick a c.
Proof. unfold pick. now destruct (String.eqb a ""). Qed.

Lemma merge_one_zero (c : HostConfig) : merge_one zero (Some c) = c.
Proof.
  destruct c. unfold merge_one, zero. cbn [Host URL Callsign User Password
    AdminPassword SkipTLSVerify UseProxyFromEnv WSOrigin V2 PathSuffix].
  now rewrite !pick_empty_r.
Qed.

Lemma merge_one_assoc (a b : HostConfig) (c : option HostConfig) :
  merge_one (merge_one a (Some b)) c = merge_one a (Some (merge_one b c)).
Proof.
  destruct c as [c|]; [|reflexivity].
  unfold merge_one. cbn [Host URL Callsign User Password
    AdminPassword SkipTLSVerify UseProxyFromEnv WSOrigin V2 PathSuffix].
  now rewrite !pick_assoc, !orb_assoc.
Qed.

Lemma fold_merge_from (l : list (option HostConfig)) (r : HostConfig) :
  fold_left merge_one l r = merge_one r (Some (fold_left merge_one l zero)).
Proof.
  revert r. induction l as [|c l IH]; intros r; cbn [fold_left].
  - destruct r. unfold merge_one, zero, pick. simpl.
    now rewrite !orb_false_r.
  - rewrite (IH (merge_one r c)), (IH (merge_one zero c)).
    destruct c as [c|].
    + rewrite merge_one_zero. apply merge_one_assoc.
    + change (merge_one r None) with r.
      change (merge_one zero None) with zero.
      now rewrite merge_one_zero.
Qed.

(** X10: merging composes: the results of two merges, merged again
    together with further configurations, give what one merge of all the
    arguments in that order gives; nil arguments are skipped, and merging one
    configuration gives that configuration. *)
Theorem MergeHostConfigs_compose (l1 l2 l3 : list (option HostConfig))
  (c : HostConfig) :
  MergeHostConfigs
    (Some (MergeHostConfigs l1) :: Some (MergeHostConfigs l2) :: l3)
  = MergeHostConfigs (l1 ++ l2 ++ l3)
  /\ MergeHostConfigs (l1 ++ None :: l2) = MergeHostConfigs (l1 ++ l2)
  /\ MergeHostConfigs [Some c] = c.
Proof.
  unfold MergeHostConfigs. split; [|split].
  - cbn [fold_left]. rewrite merge_one_zero, !fold_left_app.
    now rewrite (fold_merge_from l2 (fold_left merge_one l1 zero)).
  - now rewrite !fold_left_app.
  - simpl. apply merge_one_zero.
Qed.

Lemma merge_one_string (f : HostConfig -> string) (r c : HostConfig) :
  In f string_fields -> f (merge_one r (Some c)) = pick (f c) (f r).
Proof.
  unfold string_fields. simpl.
  intros [<-|[<-|[<-|[<-|[<-|[<-|[<-|[<-|[]]]]]]]]]; reflexivity.
Qed.

Lemma merge_one_flag (g : HostConfig -> bool) (r c : HostConfig) :
  In g flag_fields -> g (merge_one r (Some c)) = (g r || g c)%bool.
Proof.
  unfold flag_fields. simpl. intros [<-|[<-|[<-|[]]]]; reflexivity.
Qed.

Lemma fold_merge_string (f : HostConfig -> string)
  (l : list (option HostConfig)) (r : HostConfig) :
  In f string_fields ->
  (forall c, In (Some c) l -> f c = "") ->
  f (fold_left merge_one l r) = f r.
Proof.
  intros Hf. revert r. induction l as [|c l IH]; intros r H.
  - reflexivity.
  - cbn [fold_left]. rewrite IH by (intros c' Hc'; apply H; now right).
    destruct c as [c|]; [|reflexivity].
    rewrite merge_one_string by exact Hf.
    rewrite (H c) by now left. reflexivity.
Qed.

Lemma fold_merge_flag (g : HostConfig -> bool)
  (l : list (option HostConfig)) (r : HostConfig) :
  In g flag_fields ->
  (g (fold_left merge_one l r) = true
   <-> g r = true \/ exists c, In (Some c) l /\ g c = true).
Proof.
  intros Hg. revert r. induction l as [|c l IH]; intros r.
  - simpl. split; [auto|]. intros [H|[c [[] _]]]. exact H.
  - cbn [fold_left]. rewrite IH. destruct c as [c|].
    + rewrite merge_one_flag by exact Hg. rewrite orb_true_iff. split.
      * intros [[H|H]|[c' [Hin Hc']]]; [now left| |].
        -- right. exists c. split; [now left|exact H].
        -- right. exists c'. split; [now right|exact Hc'].
      * intros [H|[c' [[Hin|Hin] Hc']]].
        -- left. now left.
        -- injection Hin as ->. left. now right.
        -- right. now exists c'.
    + cbn [merge_one]. split.
      * intros [H|[c' [Hin Hc']]]; [now left|].
        right. exists c'. split; [now right|exact Hc'].
      * intros [H|[c' [[Hin|Hin] Hc']]]; [now left|discriminate|].
        right. now exists c'.
Qed.

(** X11: what a merge keeps.  A text field of the result is the value of
    the last argument in which that field is not empty; a flag of the
    result is set exactly when some argument sets it, so a later argument
    with the flag off does not switch off a flag an earlier one set. *)
Theorem MergeHostConfigs_fields (l1 l2 : list (option HostConfig))
  (c : HostConfig) :
  (forall f, In f string_fields ->
     f c <> "" ->
     (forall c', In (Some c') l2 -> f c' = "") ->
     f (MergeHostConfigs (l1 ++ Some c :: l2)) = f c)
  /\ (forall g, In g flag_fields ->
       (g (MergeHostConfigs l1) = true
        <-> exists c', In (Some c') l1 /\ g c' = true)).
Proof.
  unfold MergeHostConfigs. split.
  - intros f Hf Hne Hl2. rewrite fold_left_app. cbn [fold_left].
    rewrite fold_merge_string by assumption.
    rewrite merge_one_string by exact Hf.
    unfold pick. destruct (String.eqb (f c) "") eqn:E; [|reflexivity].
    apply String.eqb_eq in E. contradiction.
  - intros g Hg. rewrite fold_merge_flag by exact Hg. split.
    + intros [H|H]; [|exact H]. exfalso. revert H.
      unfold flag_fields in Hg. simpl in Hg.
      destruct Hg as [<-|[<-|[<-|[]]]]; discriminate.
    + intros H. now right.
Qed.

Lemma ApplyToClient_zero (client : Client.Client) :
  ApplyToClient (Some zero) client = client.
Proof. destruct client. reflexivity. Qed.

Lemma ApplyToClient_merge_one (r : HostConfig) (h : option HostConfig)
  (client : Client.Client) :
  ApplyToClient (Some (merge_one r h)) client
  = ApplyToClient h (ApplyToClient (Some r) client).
Proof.
  destruct h as [h|]; [|reflexivity].
  unfold ApplyToClient, merge_one.
  cbn [Host URL Callsign User Password AdminPassword SkipTLSVerify
       UseProxyFromEnv WSOrigin V2 PathSuffix
       Client.dialer Client.conn Client.URL Client.Output Client.poison
       Client.SkipTLSVerify Client.UseProxyFromEnv Client.Connected
       Client.EscapeKeys Client.V2 Client.message Client.WSOrigin
       Client.User Client.Password Client.AdminPassword Client.PathSuffix].
  rewrite !pick_assoc.
  destruct (SkipTLSVerify r), (SkipTLSVerify h), (UseProxyFromEnv r),
    (UseProxyFromEnv h), (V2 r), (V2 h); reflexivity.
Qed.

(** X12: applying a merged configuration to a client gives the client that
    applying the merged configurations one after the other, in their order,
    gives. *)
Theorem ApplyToClient_merged (configs : list (option HostConfig))
  (client : Client.Client) :
  ApplyToClient (Some (MergeHostConfigs configs)) client
  = fold_left (fun cl hc => ApplyToClient hc cl) configs client.
Proof.
  unfold MergeHostConfigs.
  rewrite <- (ApplyToClient_zero client) at 2.
  generalize zero as r. induction configs as [|h l IH]; intros r.
  - reflexivity.
  - cbn [fold_left]. rewrite IH. now rewrite ApplyToClient_merge_one.
Qed.

(** X13: applying a host configuration twice changes nothing more than
    applying it once, and it only ever switches a flag of the client on: a
    flag that is set before the call is set after it, whatever the
    configuration says. *)
Theorem ApplyToClient_idempotent (hc : option HostConfig)
  (client : Client.Client) :
  ApplyToClient hc (ApplyToClient hc client) = ApplyToClient hc client
  /\ (Client.SkipTLSVerify client = true ->
      Client.SkipTLSVerify (ApplyToClient hc client) = true)
  /\ (Client.UseProxyFromEnv client = true ->
      Client.UseProxyFromEnv (ApplyToClient hc client) = true)
  /\ (Client.V2 client = true ->
      Client.V2 (ApplyToClient hc client) = true).
Proof.
  destruct hc as [hc|]; [|now repeat split].
  unfold ApplyToClient.
  cbn [Client.dialer Client.conn Client.URL Client.Output Client.poison
       Client.SkipTLSVerify Client.UseProxyFromEnv Client.Connected
       Client.EscapeKeys Client.V2 Client.message Client.WSOrigin
       Client.User Client.Password Client.AdminPassword Client.PathSuffix].
  rewrite !pick_idem.
  destruct (SkipTLSVerify hc), (UseProxyFromEnv hc), (V2 hc);
    repeat split; auto.
Qed.

End MergeFacts.

Example MergeHostConfigs_flag_sticks :
  Config.V2
    (Config.MergeHostConfigs
       [Some {| Config.Host := "a"; Config.URL := ""; Config.Callsign := "";
                Config.User := ""; Config.Password := "";
                Config.AdminPassword := ""; Config.SkipTLSVerify := false;
                Config.UseProxyFromEnv := false; Config.WSOrigin := "";
                Config.V2 := true; Config.PathSuffix := "" |};
        Some Config.zero])
  = true.
Proof. reflexivity. Qed.

(** ** Reading the configuration file *)

Section LoadConfigFacts.
Import GoStrings Config.
Local Open Scope string_scope.

Lemma TrimLeft_space_blank (s : string) :
  TrimLeft_space s = "" <-> all_chars is_space s = true.
Proof.
  induction s as [|c s IH]; simpl; [tauto|].
  destruct (is_space c); simpl; [exact IH|].
  split; discriminate.
Qed.

Lemma TrimRight_space_blank (s : string) :
  TrimRight_space s = "" <-> all_chars is_space s = true.
Proof.
  induction s as [|c s IH]; simpl; [tauto|].
  destruct (TrimRight_space s) as [|d t].
  - destruct (is_space c); simpl.
    + split; [intros _; now apply IH|reflexivity].
    + split; discriminate.
  - split; [discriminate|]. intros H. apply andb_true_iff in H.
    destruct H as [_ H]. apply IH in H. discriminate.
Qed.

Lemma all_space_TrimLeft (s : string) :
  all_chars is_space (TrimLeft_space s) = all_chars is_space s.
Proof.
  induction s as [|c s IH]; simpl; [reflexivity|].
  destruct (is_space c) eqn:E; simpl; [exact IH|now rewrite E].
Qed.

Lemma TrimSpace_blank (s : string) :
  TrimSpace s = "" <-> all_chars is_space s = true.
Proof.
  unfold TrimSpace. rewrite TrimRight_space_blank.
  now rewrite all_space_TrimLeft.
Qed.

Lemma TrimRight_space_idem (s : string) :
  TrimRight_space (TrimRight_space s) = TrimRight_space s.
Proof.
  induction s as [|c s IH]; simpl; [reflexivity|].
  destruct (TrimRight_space s) as [|d t] eqn:E.
  - destruct (is_space c) eqn:Ec; simpl; [reflexivity|now rewrite Ec].
  - change (TrimRight_space (String c (String d t)))
      with (match TrimRight_space (String d t) with
            | "" => if is_space c then "" else String c ""
            | t' => String c t'
            end).
    now rewrite IH.
Qed.

Lemma TrimLeft_TrimSpace (s : string) :
  TrimLeft_space (TrimSpace s) = TrimSpace s.
Proof.
  destruct (TrimSpace s) as [|c t] eqn:E; [reflexivity|].
  simpl. now rewrite (TrimSpace_first _ _ _ E).
Qed.

Lemma TrimSpace_idem (s : string) : TrimSpace (TrimSpace s) = TrimSpace s.
Proof.
  unfold TrimSpace at 1. rewrite TrimLeft_TrimSpace.
  unfold TrimSpace. apply TrimRight_space_idem.
Qed.

Lemma TrimRight_space_app_blank (a b : string) :
  all_chars is_space b = true ->
  TrimRight_space (a ++ b) = TrimRight_space a.
Proof.
  intros Hb. induction a as [|c a IH]; simpl.
  - now apply TrimRight_space_blank.
  - now rewrite IH.
Qed.

Lemma append_inj_l (a b c : string) : a ++ b = a ++ c -> b = c.
Proof.
  induction a as [|x a IH]; simpl; [auto|].
  intros H. injection H as H. auto.
Qed.

(** What follows [Host ] on a trimmed line is not blank. *)
Lemma host_name_not_blank (text rest : string) :
  TrimSpace text = "Host " ++ rest -> TrimSpace rest <> "".
Proof.
  intros H Hb. apply TrimSpace_blank in Hb.
  pose proof (TrimSpace_idem text) as Hi. rewrite H in Hi.
  destruct (trimmed_halves _ Hi) as [_ HR].
  rewrite TrimRight_space_app_blank in HR by exact Hb.
  simpl in HR. discriminate.
Qed.

(** X14: a line that starts with [Host ] once trimmed always opens a block
    with a name that is not empty.  The error [Host directive requires a
    name] can therefore not occur: the only errors of a line are an option
    before the first block and an option without a value. *)
Theorem load_line_Host (lineNum : nat) (text : string) (st : LoadState) :
  is_ascii text = true ->
  (HasPrefix (TrimSpace text) "Host " = true ->
   exists hostName,
     hostName <> ""
     /\ load_line lineNum text st
        = Ok (set_host hostName (with_Host hostName zero) (fst st),
              Some hostName))
  /\ (forall e, load_line lineNum text st = Err e ->
        (snd st = None
         /\ e = line_error lineNum
                  "configuration option outside of Host block")
        \/ e = line_error lineNum
                 ("invalid configuration line: " ++ TrimSpace text)).
Proof.
  intros _. split.
  - intros Hp. unfold load_line. cbv zeta. rewrite Hp.
    apply HasPrefix_iff in Hp. destruct Hp as [rest Hrest].
    pose proof (host_name_not_blank _ _ Hrest) as Hne.
    rewrite Hrest. rewrite TrimPrefix_app.
    assert ((String.eqb ("Host " ++ rest) "" || HasPrefix ("Host " ++ rest) "#")
            = false)%bool as -> by reflexivity.
    exists (TrimSpace rest). split; [exact Hne|].
    apply String.eqb_neq in Hne. now rewrite Hne.
  - intros e. unfold load_line. cbv zeta.
    destruct (String.eqb (TrimSpace text) "" || HasPrefix (TrimSpace text) "#")%bool;
      [discriminate|].
    destruct (HasPrefix (TrimSpace text) "Host ") eqn:Hp.
    + apply HasPrefix_iff in Hp. destruct Hp as [rest Hrest].
      pose proof (host_name_not_blank _ _ Hrest) as Hne.
      rewrite Hrest, TrimPrefix_app.
      apply String.eqb_neq in Hne. rewrite Hne. discriminate.
    + destruct (snd st) as [cur|].
      * destruct (SplitN2_space (TrimSpace text)) as [|k [|v [|x l]]];
          try discriminate; intros [= <-]; now right.
      * intros [= <-]. left. now split.
Qed.

Lemma load_line_skipped (n : nat) (text : string) (st : LoadState) :
  is_skipped text = true -> load_line n text st = Ok st.
Proof.
  unfold is_skipped, load_line. cbv zeta. now intros ->.
Qed.

Lemma load_lines_app (n : nat) (l1 l2 : list string) (st : LoadState) :
  load_lines n (l1 ++ l2) st
  = match load_lines n l1 st with
    | Ok st' => load_lines (n + List.length l1) l2 st'
    | Err e => Err e
    end.
Proof.
  revert n st. induction l1 as [|t l1 IH]; intros n st; simpl.
  - now rewrite Nat.add_0_r.
  - destruct (load_line n t st) as [st'|e]; [|reflexivity].
    rewrite IH. simpl. now rewrite Nat.add_succ_r.
Qed.

Lemma load_lines_skipped (n : nat) (pre : list string) (st : LoadState) :
  forallb is_skipped pre = true -> load_lines n pre st = Ok st.
Proof.
  revert n. induction pre as [|t pre IH]; intros n H; simpl; [reflexivity|].
  simpl in H. apply andb_true_iff in H. destruct H as [Ht Hp].
  rewrite load_line_skipped by exact Ht. now apply IH.
Qed.

(** X15: in a file in ASCII, an option line that comes before any [Host]
    line, with only blank lines and comments above it, makes the load fail,
    and the error names the number of that line in the file, counted from
    one; nothing of the rest of the file is looked at. *)
Theorem LoadConfigFromPath_option_outside_block
  (pre rest : list string) (text : string) (scan_err : option error) :
  Forall (fun t => is_ascii t = true) pre ->
  is_ascii text = true ->
  forallb is_skipped pre = true ->
  is_skipped text = false ->
  is_host_line text = false ->
  LoadConfigFromPath (Lines (pre ++ text :: rest) scan_err)
  = Err (line_error (S (List.length pre))
           "configuration option outside of Host block").
Proof.
  intros _ _ Hpre Hs Hh. unfold LoadConfigFromPath.
  rewrite load_lines_app, load_lines_skipped by exact Hpre.
  cbn [load_lines Nat.add fst snd].
  unfold is_host_line in Hh. rewrite Hs in Hh. simpl in Hh.
  unfold is_skipped in Hs. cbv zeta in Hs.
  unfold load_line. cbv zeta. rewrite Hs, Hh. reflexivity.
Qed.

Lemma load_line_agree (n m : nat) (text : string) (st : LoadState) :
  agree (load_line n text st) (load_line m text st).
Proof.
  unfold load_line. cbv zeta.
  destruct (String.eqb (TrimSpace text) "" || HasPrefix (TrimSpace text) "#")%bool;
    [reflexivity|].
  destruct (HasPrefix (TrimSpace text) "Host ").
  - destruct (String.eqb _ ""); reflexivity.
  - destruct (snd st); [|exact I].
    destruct (SplitN2_space (TrimSpace text)) as [|k [|v [|x l]]];
      try exact I. reflexivity.
Qed.

Lemma load_lines_agree (lines : list string) (n m : nat) (st : LoadState) :
  agree (load_lines n lines st)
        (load_lines m (filter (fun t => negb (is_skipped t)) lines) st).
Proof.
  revert n m st. induction lines as [|t lines IH]; intros n m st.
  - reflexivity.
  - cbn [filter load_lines]. destruct (is_skipped t) eqn:E.
    + rewrite load_line_skipped by exact E. cbn [negb]. apply IH.
    + cbn [negb load_lines].
      pose proof (load_line_agree n m t st) as Ha. unfold agree in Ha.
      destruct (load_line n t st) as [s1|e1], (load_line m t st) as [s2|e2];
        try contradiction; [|exact I].
      subst s2. apply IH.
Qed.

(** X16: in a file in ASCII, blank lines and comment lines carry no
    meaning: when the scanner reads the file and the same file without
    these lines to their ends without error (no line is over its limit), the
    two load to the same configuration, or both fail (the line numbers in
    the error are then those of each file). *)
Theorem LoadConfigFromPath_ignores_comments (lines : list string) :
  Forall (fun t => is_ascii t = true) lines ->
  agree (LoadConfigFromPath (Lines lines None))
        (LoadConfigFromPath
           (Lines (filter (fun t => negb (is_skipped t)) lines) None)).
Proof.
  intros _. unfold LoadConfigFromPath.
  pose proof (load_lines_agree lines 1 1 ([], None)) as Ha.
  unfold agree in *.
  destruct (load_lines 1 lines ([], None)) as [s1|e1],
           (load_lines 1 _ ([], None)) as [s2|e2];
    try contradiction; [|exact I].
  subst s2. reflexivity.
Qed.

End LoadConfigFacts.

Lemma load_line_Host_witness :
  exists hostName,
    hostName <> ""%string
    /\ Config.load_line 3 "  Host  dev  " ([], None)
       = Ok (Config.set_host hostName
               (Config.with_Host hostName Config.zero) [],
             Some hostName).
Proof.
  apply (proj1 (load_line_Host 3 "  Host  dev  " ([], None) eq_refl)).
  reflexivity.
Defined.

Lemma LoadConfigFromPath_option_outside_block_witness :
  Config.LoadConfigFromPath
    (Config.Lines ["# servers"; ""; "  URL http://a"; "Host a"] None)
  = Err "line 3: configuration option outside of Host block".
Proof.
  apply (LoadConfigFromPath_option_outside_block
           ["# servers"; ""] ["Host a"] "  URL http://a" None);
    try reflexivity.
  repeat constructor.
Defined.

Lemma LoadConfigFromPath_ignores_comments_witness :
  Config.agree
    (Config.LoadConfigFromPath
       (Config.Lines ["# servers"; ""; "Host a"; "  # local"; "  V2 yes"]
          None))
    (Config.LoadConfigFromPath (Config.Lines ["Host a"; "  V2 yes"] None)).
Proof.
  apply (LoadConfigFromPath_ignores_comments
           ["# servers"; ""; "Host a"; "  # local"; "  V2 yes"]%string).
  repeat constructor.
Defined.

(** ** Writing the configuration file and reading it back *)

Section WriteConfigFacts.
Import GoStrings Config.
Local Open Scope string_scope.

Lemma lookup_app_None (k : string) (acc l : Hosts) :
  lookup k acc = None -> lookup k (acc ++ l)%list = lookup k l.
Proof.
  induction acc as [|[k' v] acc IH]; simpl; [reflexivity|].
  destruct (String.eqb k' k); [discriminate|exact IH].
Qed.

Lemma set_host_app_new (k : string) (x : HostConfig) (acc l : Hosts) :
  lookup k acc = None ->
  set_host k x (acc ++ l)%list = (acc ++ set_host k x l)%list.
Proof.
  induction acc as [|[k' v] acc IH]; simpl; [reflexivity|].
  destruct (String.eqb k' k); [discriminate|].
  intros H. now rewrite IH.
Qed.

Lemma update_current_last (k : string) (f : HostConfig -> HostConfig)
  (acc : Hosts) (x : HostConfig) :
  lookup k acc = None ->
  update_current k f (acc ++ [(k, x)])%list = (acc ++ [(k, f x)])%list.
Proof.
  intros H. unfold update_current.
  rewrite lookup_app_None by exact H. simpl. rewrite String.eqb_refl.
  rewrite set_host_app_new by exact H. simpl. now rewrite String.eqb_refl.
Qed.

Lemma TrimSpace_key (c : ascii) (key v : string) :
  is_space c = false -> TrimSpace v = v -> v <> "" ->
  TrimSpace (String c key ++ " " ++ v) = String c key ++ " " ++ v.
Proof.
  intros Hc Hv Hne. destruct (trimmed_halves v Hv) as [_ HR].
  unfold TrimSpace.
  assert (TrimLeft_space (String c key ++ " " ++ v)
          = String c key ++ " " ++ v) as ->.
  { change (String c key ++ " " ++ v) with (String c (key ++ " " ++ v)).
    cbn [TrimLeft_space]. now rewrite Hc. }
  assert (TrimRight_space (" " ++ v) = " " ++ v) as HR'.
  { rewrite TrimRight_space_app by now rewrite HR. now rewrite HR. }
  rewrite TrimRight_space_app by (rewrite HR'; discriminate).
  now rewrite HR'.
Qed.

(** An indented option line with a value is read as its key and value. *)
Lemma load_option_line (n : nat) (key v : string) (hosts : Hosts)
  (k : string) :
  In key ["URL"; "Callsign"; "User"; "Password"; "AdminPassword";
          "SkipTLSVerify"; "UseProxyFromEnv"; "WSOrigin"; "V2";
          "PathSuffix"] ->
  TrimSpace v = v -> v <> "" ->
  load_line n ("    " ++ key ++ " " ++ v) (hosts, Some k)
  = Ok (update_current k (set_option key v) hosts, Some k).
Proof.
  intros Hk Hv Hne. unfold load_line. cbv zeta.
  simpl in Hk.
  repeat (destruct Hk as [<-|Hk];
    [rewrite TrimSpace_indent;
       [|now apply TrimSpace_key|discriminate];
     cbn; fold (TrimSpace v); rewrite Hv; reflexivity|]).
  contradiction.
Qed.

Lemma opt_line_effect (v : string) (x : HostConfig) (key : string)
  (getf : HostConfig -> string) (setf : string -> HostConfig -> HostConfig) :
  In (key, getf, setf) text_options ->
  (if String.eqb v "" then x else set_option key v x)
  = setf (pick v (getf x)) x.
Proof.
  unfold text_options, pick. simpl.
  intros [H|[H|[H|[H|[H|[H|[H|[]]]]]]]]; injection H as <- <- <-;
    (destruct (String.eqb v ""); [destruct x; reflexivity|reflexivity]).
Qed.

Lemma flag_line_effect (b : bool) (x : HostConfig) (key : string)
  (getf : HostConfig -> bool) (setf : bool -> HostConfig -> HostConfig) :
  In (key, getf, setf) flag_options ->
  (if b then set_option key "true" x else x) = setf (b || getf x)%bool x.
Proof.
  unfold flag_options. simpl.
  intros [H|[H|[H|[]]]]; injection H as <- <- <-;
    (destruct b; [reflexivity|destruct x; reflexivity]).
Qed.

Lemma load_opt (n : nat) (key v : string) (rest : list string) (acc : Hosts)
  (k : string) (x : HostConfig) :
  In key ["URL"; "Callsign"; "User"; "Password"; "AdminPassword";
          "SkipTLSVerify"; "UseProxyFromEnv"; "WSOrigin"; "V2";
          "PathSuffix"] ->
  TrimSpace v = v -> lookup k acc = None ->
  exists m,
    load_lines n (opt_line key v ++ rest)%list (acc ++ [(k, x)], Some k)%list
    = load_lines m rest
        (acc ++ [(k, if String.eqb v "" then x else set_option key v x)],
         Some k)%list.
Proof.
  intros Hk Hv Hl. unfold opt_line.
  destruct (String.eqb v "") eqn:E.
  - exists n. reflexivity.
  - exists (S n). cbn [app load_lines]. apply String.eqb_neq in E.
    rewrite load_option_line by assumption.
    now rewrite update_current_last.
Qed.

Lemma load_flag (n : nat) (key : string) (b : bool) (rest : list string)
  (acc : Hosts) (k : string) (x : HostConfig) :
  In key ["URL"; "Callsign"; "User"; "Password"; "AdminPassword";
          "SkipTLSVerify"; "UseProxyFromEnv"; "WSOrigin"; "V2";
          "PathSuffix"] ->
  lookup k acc = None ->
  exists m,
    load_lines n (flag_line key b ++ rest)%list (acc ++ [(k, x)], Some k)%list
    = load_lines m rest
        (acc ++ [(k, if b then set_option key "true" x else x)],
         Some k)%list.
Proof.
  intros Hk Hl. unfold flag_line. destruct b.
  - exists (S n). cbn [app load_lines].
    change ("    " ++ key ++ " true") with ("    " ++ key ++ " " ++ "true").
    rewrite load_option_line by (try assumption; try reflexivity; discriminate).
    now rewrite update_current_last.
  - exists n. reflexivity.
Qed.

Lemma load_Host_line (n : nat) (k : string) (acc : Hosts)
  (cur : option string) :
  TrimSpace k = k -> k <> "" -> lookup k acc = None ->
  load_line n ("Host " ++ k) (acc, cur)
  = Ok (acc ++ [(k, with_Host k zero)], Some k)%list.
Proof.
  intros Hk Hne Hl. unfold load_line. cbv zeta.
  assert (TrimSpace ("Host " ++ k) = "Host " ++ k) as ->
      by now apply (TrimSpace_key "H" "ost" k).
  assert ((String.eqb ("Host " ++ k) "" || HasPrefix ("Host " ++ k) "#")%bool
          = false) as -> by reflexivity.
  rewrite (proj2 (HasPrefix_iff ("Host " ++ k) "Host ")) by now exists k.
  rewrite TrimPrefix_app, Hk.
  apply String.eqb_neq in Hne. rewrite Hne. cbn [fst].
  rewrite <- (app_nil_r acc) at 1.
  now rewrite set_host_app_new by exact Hl.
Qed.

Lemma load_host_block (n : nat) (k : string) (h : HostConfig) (acc : Hosts)
  (cur : option string) :
  plain_host (k, h) -> lookup k acc = None ->
  load_lines n (host_lines k h) (acc, cur)
  = Ok (acc ++ [(k, h)], Some k)%list.
Proof.
  intros [HH [Hne Hf]] Hl. cbn [fst snd] in HH, Hne, Hf.
  assert (forall f, In f string_fields -> TrimSpace (f h) = f h) as Ht.
  { intros f Hin. now destruct (Hf f Hin) as [_ [_ H]]. }
  assert (TrimSpace k = k) as Hk.
  { rewrite <- HH. apply Ht. simpl. tauto. }
  unfold host_lines. cbn [app load_lines].
  rewrite load_Host_line by assumption.
  assert (forall key,
    In key ["URL"; "Callsign"; "User"; "Password"; "AdminPassword";
            "SkipTLSVerify"; "UseProxyFromEnv"; "WSOrigin"; "V2";
            "PathSuffix"] ->
    In key ["URL"; "Callsign"; "User"; "Password"; "AdminPassword";
            "SkipTLSVerify"; "UseProxyFromEnv"; "WSOrigin"; "V2";
            "PathSuffix"]) as Hkeys by auto.
  repeat match goal with
  | |- load_lines ?m (opt_line ?key ?v ++ ?rest)%list (_ ++ [(_, ?x)], _)%list
       = _ =>
      let E := fresh "E" in
      destruct (load_opt m key v rest acc k x) as [? E];
      [simpl; tauto|apply Ht; simpl; tauto|exact Hl|rewrite E; clear E]
  | |- load_lines ?m (flag_line ?key ?b ++ ?rest)%list (_ ++ [(_, ?x)], _)%list
       = _ =>
      let E := fresh "E" in
      destruct (load_flag m key b rest acc k x) as [? E];
      [simpl; tauto|exact Hl|rewrite E; clear E]
  end.
  rewrite load_lines_skipped by reflexivity.
  rewrite (opt_line_effect _ _ "URL" URL set_URL) by (simpl; tauto).
  rewrite (opt_line_effect _ _ "Callsign" Callsign set_Callsign)
    by (simpl; tauto).
  rewrite (opt_line_effect _ _ "User" User set_User) by (simpl; tauto).
  rewrite (opt_line_effect _ _ "Password" Password set_Password)
    by (simpl; tauto).
  rewrite (opt_line_effect _ _ "AdminPassword" AdminPassword
             set_AdminPassword) by (simpl; tauto).
  rewrite (opt_line_effect _ _ "WSOrigin" WSOrigin set_WSOrigin)
    by (simpl; tauto).
  rewrite (opt_line_effect _ _ "PathSuffix" PathSuffix set_PathSuffix)
    by (simpl; tauto).
  rewrite (flag_line_effect _ _ "SkipTLSVerify" SkipTLSVerify
             set_SkipTLSVerify) by (simpl; tauto).
  rewrite (flag_line_effect _ _ "UseProxyFromEnv" UseProxyFromEnv
             set_UseProxyFromEnv) by (simpl; tauto).
  rewrite (flag_line_effect _ _ "V2" V2 set_V2) by (simpl; tauto).
  destruct h. cbn in HH. subst k. cbn.
  now rewrite !pick_empty_r, !orb_false_r.
Qed.

Lemma load_written_hosts (hosts : Hosts) (n : nat) (acc : Hosts)
  (cur : option string) :
  Forall plain_host hosts -> NoDup (map fst hosts) ->
  (forall k, In k (map fst hosts) -> lookup k acc = None) ->
  exists cur',
    load_lines n (flat_map (fun kh => host_lines (fst kh) (snd kh)) hosts)
      (acc, cur)
    = Ok (acc ++ hosts, cur')%list.
Proof.
  revert n acc cur. induction hosts as [|[k h] hosts IH];
    intros n acc cur Hp Hnd Hacc.
  - exists cur. simpl. now rewrite app_nil_r.
  - cbn [flat_map fst snd]. rewrite load_lines_app.
    inversion Hp as [|? ? Hkh Hrest]; subst.
    cbn [map fst] in Hnd. inversion Hnd as [|? ? Hnotin Hnd']; subst.
    rewrite load_host_block; [|exact Hkh|apply Hacc; now left].
    destruct (IH (n + List.length (host_lines k h)) (acc ++ [(k, h)])%list
                (Some k) Hrest Hnd') as [cur' E].
    + intros k' Hin. rewrite lookup_app_None by (apply Hacc; now right).
      simpl. destruct (String.eqb k k') eqn:Ek; [|reflexivity].
      apply String.eqb_eq in Ek. subst k'. contradiction.
    + exists cur'. cbv beta iota. rewrite <- app_assoc in E. exact E.
Qed.

Lemma comment_is_skipped (s : string) : is_skipped ("#" ++ s) = true.
Proof.
  unfold is_skipped. cbv zeta.
  destruct (TrimSpace ("#" ++ s)) as [|c t] eqn:E.
  - reflexivity.
  - unfold TrimSpace in E. simpl in E.
    assert (c = "#"%char) as ->
        by (destruct (TrimRight_space s); now injection E as <- _).
    apply orb_true_iff. right. apply HasPrefix_iff. now exists t.
Qed.

Lemma load_WriteConfig (path : string) (hosts : Hosts) :
  plain_hosts hosts ->
  LoadConfigFromPath (Lines (WriteConfig path hosts) None) = Ok hosts.
Proof.
  intros [Hnd Hp]. unfold LoadConfigFromPath, WriteConfig.
  rewrite load_lines_app.
  rewrite load_lines_skipped.
  - destruct (load_written_hosts hosts (1 + 4) [] None Hp Hnd) as [cur E].
    + reflexivity.
    + cbv beta iota.
      change (load_lines (1 + 4)
                (flat_map (fun kh => host_lines (fst kh) (snd kh)) hosts)
                ([], None) = Ok (hosts, cur)) in E.
      cbn [List.length]. rewrite E. reflexivity.
  - cbn [forallb].
    change ("# File location: " ++ path)
      with ("#" ++ (" File location: " ++ path)).
    rewrite (comment_is_skipped (" File location: " ++ path)).
    reflexivity.
Qed.


(** *** What the loader builds *)

Lemma is_ascii_all_chars (s : string) :
  is_ascii s = all_chars is_ascii_char s.
Proof. induction s as [|c s IH]; simpl; [reflexivity|now rewrite IH]. Qed.

Lemma all_chars_drop (P : ascii -> bool) (n : nat) (s : string) :
  all_chars P s = true -> all_chars P (drop n s) = true.
Proof.
  revert s. induction n as [|n IH]; intros s H; [exact H|].
  destruct s as [|c s]; [exact H|]. simpl in *.
  apply andb_true_iff in H. apply IH, H.
Qed.

Lemma all_chars_TrimPrefix (P : ascii -> bool) (s p : string) :
  all_chars P s = true -> all_chars P (TrimPrefix s p) = true.
Proof.
  intros H. unfold TrimPrefix. destruct (HasPrefix s p); [|exact H].
  now apply all_chars_drop.
Qed.

Lemma all_chars_SplitN2 (P : ascii -> bool) (s a b : string) :
  all_chars P s = true -> SplitN2_space s = [a; b] ->
  all_chars P b = true.
Proof.
  revert a. induction s as [|c s IH]; intros a H E; simpl in *.
  - discriminate.
  - apply andb_true_iff in H. destruct H as [Hc Hs].
    destruct (Ascii.eqb c " ").
    + now injection E as _ <-.
    + destruct (SplitN2_space s) as [|x [|y [|z l]]]; try discriminate.
      injection E as _ <-. now apply (IH x).
Qed.

Lemma plain_TrimSpace (s : string) :
  is_ascii s = true -> one_line s -> plain (TrimSpace s).
Proof.
  intros Ha Ho. unfold plain, one_line in *.
  rewrite is_ascii_all_chars in *.
  repeat split.
  - now apply all_chars_TrimSpace.
  - now apply all_chars_TrimSpace.
  - apply TrimSpace_idem.
Qed.

Lemma plain_empty : plain "".
Proof. repeat split. Qed.

Lemma set_option_Host (key v : string) (h : HostConfig) :
  Host (set_option key v h) = Host h.
Proof.
  unfold set_option.
  repeat match goal with
         | |- context [if ?b then _ else _] => destruct b; [reflexivity|]
         end.
  reflexivity.
Qed.

Lemma set_option_field (key v : string) (h : HostConfig)
  (f : HostConfig -> string) :
  In f string_fields ->
  f (set_option key v h) = v \/ f (set_option key v h) = f h.
Proof.
  intros Hf. unfold set_option.
  repeat match goal with
         | |- context [if ?b then _ else _] =>
             destruct b;
             [unfold string_fields in Hf; simpl in Hf;
              destruct Hf as [<-|[<-|[<-|[<-|[<-|[<-|[<-|[<-|[]]]]]]]]];
              simpl; tauto|]
         end.
  now right.
Qed.

Lemma set_host_keys (k : string) (x : HostConfig) (hosts : Hosts) :
  map fst (set_host k x hosts)
  = match lookup k hosts with
    | Some _ => map fst hosts
    | None => (map fst hosts ++ [k])%list
    end.
Proof.
  induction hosts as [|[k' v] hosts IH]; simpl; [reflexivity|].
  destruct (String.eqb k' k); [reflexivity|].
  simpl. rewrite IH. now destruct (lookup k hosts).
Qed.

Lemma lookup_None_keys (k : string) (hosts : Hosts) :
  lookup k hosts = None -> ~ In k (map fst hosts).
Proof.
  induction hosts as [|[k' v] hosts IH]; simpl; [tauto|].
  destruct (String.eqb k' k) eqn:E; [discriminate|].
  apply String.eqb_neq in E. intros H [H1|H1]; [contradiction|].
  now apply IH.
Qed.

Lemma set_host_Forall (P : string * HostConfig -> Prop) (k : string)
  (x : HostConfig) (hosts : Hosts) :
  P (k, x) -> Forall P hosts -> Forall P (set_host k x hosts).
Proof.
  intros Hx. induction hosts as [|[k' v] hosts IH]; simpl; intros H.
  - now constructor.
  - inversion H as [|? ? Hkv Hrest]; subst.
    destruct (String.eqb k' k) eqn:E.
    + apply String.eqb_eq in E. subst k'. now constructor.
    + constructor; auto.
Qed.

Lemma set_host_plain (k : string) (x : HostConfig) (hosts : Hosts) :
  plain_host (k, x) -> plain_hosts hosts ->
  plain_hosts (set_host k x hosts).
Proof.
  intros Hx [Hnd Hp]. split.
  - rewrite set_host_keys. destruct (lookup k hosts) eqn:E; [exact Hnd|].
    apply NoDup_app; [exact Hnd|repeat constructor; simpl; tauto|].
    intros a Ha [Hk|[]]. subst a. now apply (lookup_None_keys k hosts).
  - now apply set_host_Forall.
Qed.

Lemma load_line_plain (n : nat) (text : string) (st st' : LoadState) :
  file_line text -> plain_hosts (fst st) ->
  load_line n text st = Ok st' -> plain_hosts (fst st').
Proof.
  intros [Ha Ho] Hst. unfold load_line. cbv zeta.
  pose proof (plain_TrimSpace text Ha Ho) as [Hla [Hlo _]].
  destruct (String.eqb (TrimSpace text) "" || HasPrefix (TrimSpace text) "#")%bool;
    [now intros [= <-]|].
  destruct (HasPrefix (TrimSpace text) "Host ").
  - destruct (String.eqb _ "") eqn:E; [discriminate|].
    intros [= <-]. cbn [fst]. apply String.eqb_neq in E.
    apply set_host_plain; [|exact Hst].
    assert (plain (TrimSpace (TrimPrefix (TrimSpace text) "Host "))) as Hn.
    { apply plain_TrimSpace.
      - rewrite is_ascii_all_chars in *. now apply all_chars_TrimPrefix.
      - now apply all_chars_TrimPrefix. }
    split; [reflexivity|]. split; [exact E|].
    cbn [fst snd]. unfold string_fields. simpl.
    intros f [<-|[<-|[<-|[<-|[<-|[<-|[<-|[<-|[]]]]]]]]];
      try exact plain_empty. exact Hn.
  - destruct (snd st) as [cur|]; [|discriminate].
    destruct (SplitN2_space (TrimSpace text)) as [|k [|v [|x l]]] eqn:Es;
      try discriminate.
    intros [= <-]. cbn [fst]. unfold update_current.
    destruct (lookup cur (fst st)) as [h|] eqn:El; [|exact Hst].
    apply set_host_plain; [|exact Hst].
    apply lookup_In in El. destruct Hst as [_ Hp].
    rewrite Forall_forall in Hp. destruct (Hp _ El) as [HH [Hne Hf]].
    cbn [fst snd] in *.
    split; [cbn [fst snd]; now rewrite set_option_Host|].
    split; [exact Hne|].
    cbn [snd]. intros f Hin.
    destruct (set_option_field (TrimSpace k) (TrimSpace v) h f Hin) as [->| ->].
    + apply plain_TrimSpace.
      * rewrite is_ascii_all_chars in *.
        now apply (all_chars_SplitN2 _ _ _ _ Hla Es).
      * now apply (all_chars_SplitN2 _ _ _ _ Hlo Es).
    + now apply Hf.
Qed.

Lemma load_lines_plain (lines : list string) (n : nat)
  (st st' : LoadState) :
  Forall file_line lines -> plain_hosts (fst st) ->
  load_lines n lines st = Ok st' -> plain_hosts (fst st').
Proof.
  revert n st. induction lines as [|t lines IH]; intros n st Hl Hst; simpl.
  - now intros [= <-].
  - inversion Hl as [|? ? Ht Hrest]; subst.
    destruct (load_line n t st) as [s1|e] eqn:E; [|discriminate].
    apply IH; [exact Hrest|]. now apply (load_line_plain n t st s1).
Qed.

Lemma LoadConfigFromPath_plain (file : FileRead) (hosts : Hosts) :
  file_ok file -> LoadConfigFromPath file = Ok hosts -> plain_hosts hosts.
Proof.
  intros Hok. unfold LoadConfigFromPath.
  destruct file as [|e|lines se].
  - intros [= <-]. split; constructor.
  - discriminate.
  - destruct (load_lines 1 lines ([], None)) as [st|e] eqn:E;
      [|discriminate].
    destruct se; [discriminate|]. intros [= <-].
    apply (load_lines_plain lines 1 ([], None) st Hok); [|exact E].
    split; constructor.
Qed.

Lemma lookup_set_host_same (k : string) (x : HostConfig) (hosts : Hosts) :
  lookup k (set_host k x hosts) = Some x.
Proof.
  induction hosts as [|[k' v] hosts IH]; simpl.
  - now rewrite String.eqb_refl.
  - destruct (String.eqb k' k) eqn:E; simpl; now rewrite E.
Qed.

Lemma lookup_set_host_other (k k' : string) (x : HostConfig)
  (hosts : Hosts) :
  k' <> k -> lookup k' (set_host k x hosts) = lookup k' hosts.
Proof.
  intros Hne. induction hosts as [|[k0 v] hosts IH]; simpl.
  - destruct (String.eqb k k') eqn:E; [|reflexivity].
    apply String.eqb_eq in E. congruence.
  - destruct (String.eqb k0 k) eqn:E; simpl.
    + apply String.eqb_eq in E. subst k0.
      destruct (String.eqb k k') eqn:E'; [|reflexivity].
      apply String.eqb_eq in E'. congruence.
    + now rewrite IH.
Qed.

(** X18: a configuration the loader returns from a file in ASCII has
    distinct host names, each entry stored under its own name, which is not
    empty, and names and values in ASCII, on one line, without white space
    at either end; and when the path written into the header has no line
    feed and the scanner reads what [WriteConfig] writes for the
    configuration to the end without error (no written line is over its
    limit), loading the written lines gives the same configuration
    again. *)
Theorem LoadConfigFromPath_stable (file : FileRead) (path : string)
  (hosts : Hosts) :
  file_ok file -> one_line path ->
  LoadConfigFromPath file = Ok hosts ->
  plain_hosts hosts
  /\ LoadConfigFromPath (Lines (WriteConfig path hosts) None) = Ok hosts.
Proof.
  intros Hok _ Hload.
  pose proof (LoadConfigFromPath_plain file hosts Hok Hload) as Hp.
  split; [exact Hp|]. now apply load_WriteConfig.
Qed.

Lemma SaveHostConfig_loads (io : SaveIO) (hostAlias : string)
  (config : HostConfig) (written : list string) :
  file_ok (existing_file io) ->
  plain_host (hostAlias, with_Host hostAlias config) ->
  SaveHostConfig io hostAlias config = Ok written ->
  exists existing,
    LoadConfigFromPath (existing_file io) = Ok existing
    /\ LoadConfigFromPath (Lines written None)
       = Ok (set_host hostAlias (with_Host hostAlias config) existing).
Proof.
  intros Hok Hc. unfold SaveHostConfig, WriteConfig_result.
  destruct (String.eqb (configPath io) ""); [discriminate|].
  destruct (mkdir_err io); [discriminate|].
  destruct (LoadConfigFromPath (existing_file io)) as [existing|e] eqn:Hload;
    [|discriminate].
  destruct (open_err io); [discriminate|].
  destruct (flush_err io); [discriminate|].
  intros [= <-]. exists existing. split; [reflexivity|].
  apply load_WriteConfig. apply set_host_plain; [exact Hc|].
  now apply (LoadConfigFromPath_plain (existing_file io)).
Qed.

(** X19: a host saved with [SaveHostConfig] is found again, under these
    conditions: the file that was there is in ASCII and its path has no
    line feed; the alias is not empty;
    the alias and every text of the saved settings are in ASCII, on one
    line and without white space at either end; and the scanner reads the
    written file to its end without error.  Then, when the save succeeds,
    loading the lines it has written gives a configuration in which the
    alias stands for the saved settings, with [Host] set to the alias, and
    every other name stands for what it stood for in the file before.  (A
    text with white space at an end is read back without it.) *)
Theorem SaveHostConfig_read_back (io : SaveIO) (hostAlias : string)
  (config : HostConfig) (existing : Hosts) (written : list string) :
  file_ok (existing_file io) -> one_line (configPath io) ->
  plain_host (hostAlias, with_Host hostAlias config) ->
  LoadConfigFromPath (existing_file io) = Ok existing ->
  SaveHostConfig io hostAlias config = Ok written ->
  exists hosts,
    LoadConfigFromPath (Lines written None) = Ok hosts
    /\ GetHostConfig hosts hostAlias = Some (with_Host hostAlias config)
    /\ forall k, k <> hostAlias -> lookup k hosts = lookup k existing.
Proof.
  intros Hok _ Hc Hload Hsave.
  destruct (SaveHostConfig_loads io hostAlias config written Hok Hc Hsave)
    as [existing' [Hload' Hw]].
  rewrite Hload in Hload'. injection Hload' as <-.
  exists (set_host hostAlias (with_Host hostAlias config) existing).
  split; [exact Hw|]. split.
  - unfold GetHostConfig. now rewrite lookup_set_host_same.
  - intros k Hk. now apply lookup_set_host_other.
Qed.

End WriteConfigFacts.


Lemma plain_host_any : Config.plain_host ("*"%string, ConfigDemo.any).
Proof.
  split; [reflexivity|]. split; [discriminate|].
  unfold Config.string_fields. simpl.
  intros f [<-|[<-|[<-|[<-|[<-|[<-|[<-|[<-|[]]]]]]]]];
    repeat split.
Defined.


Lemma file_ok_demo : Config.file_ok (Config.Lines ConfigDemo.file None).
Proof. repeat constructor. Defined.


Lemma LoadConfigFromPath_stable_witness :
  exists hosts,
    Config.LoadConfigFromPath (Config.Lines ConfigDemo.file None) = Ok hosts
    /\ Config.LoadConfigFromPath
         (Config.Lines (Config.WriteConfig "/tmp/config" hosts) None)
       = Ok hosts.
Proof.
  eexists. split; [reflexivity|].
  apply (LoadConfigFromPath_stable (Config.Lines ConfigDemo.file None));
    [exact file_ok_demo|reflexivity|reflexivity].
Defined.

(** The condition on white space is needed: a password written with a
    blank in front is read back without it, and a value of blanks only
    leaves a line the loader refuses. *)
Example WriteConfig_trims_values :
  Config.LoadConfigFromPath
    (Config.Lines
       (Config.WriteConfig "/tmp/config"
          [("dev", Config.set_Password " hunter2" ConfigDemo.dev)]) None)
  = Ok [("dev", Config.set_Password "hunter2" ConfigDemo.dev)].
Proof. reflexivity. Qed.

Example WriteConfig_blank_value :
  Config.LoadConfigFromPath
    (Config.Lines
       (Config.WriteConfig "/tmp/config"
          [("dev", Config.set_Password "  " ConfigDemo.dev)]) None)
  = Err "line 8: invalid configuration line: Password".
Proof. reflexivity. Qed.

Lemma SaveHostConfig_read_back_witness :
  exists hosts,
    Config.LoadConfigFromPath (Config.Lines ConfigDemo.saved None) = Ok hosts
    /\ Config.GetHostConfig hosts "*" = Some ConfigDemo.any
    /\ forall k, k <> "*"%string ->
         Config.lookup k hosts = Config.lookup k ConfigDemo.loaded.
Proof.
  apply (SaveHostConfig_read_back ConfigDemo.io "*" ConfigDemo.any
           ConfigDemo.loaded ConfigDemo.saved).
  - exact file_ok_demo.
  - reflexivity.
  - exact plain_host_any.
  - reflexivity.
  - reflexivity.
Defined.

(** ** The two URLs of the handshake, and a handshake that succeeds *)

Section ConnectFacts.
Import Url Client Handshake.
Context {N : NetURL} {W : Net}.
Local Open Scope string_scope.

Lemma TrimLeft_slash_no_slash (s rest : string) :
  TrimLeft_slash s <> String "/" rest.
Proof.
  induction s as [|c s IH]; simpl; [discriminate|].
  destruct (Ascii.eqb c "/") eqn:E; [exact IH|].
  intros H. injection H as -> _. discriminate.
Qed.

(** X20: the URL of the token file and the URL of the socket come from the
    same parse of the client's URL and fail with its error.  Neither
    carries the user information of the URL: when the URL has any, both
    functions return the one header [Authorization] with the value [Basic]
    followed by the base64 text of the user information, path-unescaped (or
    as it is written when it does not unescape); when it has none they
    return no header.  The socket URL has scheme [wss] for [https] and [ws]
    for every other scheme; the token URL keeps the scheme; both keep host
    and query, and their paths end in [ws] and [auth_token.js] with no
    slash left at the front. *)
Theorem handshake_URLs (httpURL : string) :
  match Parse httpURL with
  | Err e =>
      GetWebsocketURL httpURL = Err e /\ GetAuthTokenURL httpURL = Err e
  | Ok u =>
      exists tw ta header,
        GetWebsocketURL httpURL = Ok (tw, header)
        /\ GetAuthTokenURL httpURL = Ok (ta, header)
        /\ Url.User tw = None /\ Url.User ta = None
        /\ header
           = match Url.User u with
             | None => []
             | Some _ =>
                 [("Authorization",
                   "Basic "
                   ++ base64_EncodeToString
                        match PathUnescape (Userinfo_String (Url.User u)) with
                        | Ok user => user
                        | Err _ => Userinfo_String (Url.User u)
                        end)]
             end
        /\ (header = [] <-> Url.User u = None)
        /\ List.length header <= 1
        /\ Scheme tw = (if String.eqb (Scheme u) "https" then "wss" else "ws")
        /\ Scheme ta = Scheme u
        /\ Host tw = Host u /\ Host ta = Host u
        /\ RawQuery tw = RawQuery u /\ RawQuery ta = RawQuery u
        /\ Path tw = TrimLeft_slash (Path u ++ "ws")
        /\ Path ta = TrimLeft_slash (Path u ++ "auth_token.js")
        /\ (forall rest, Path tw <> String "/" rest)
        /\ (forall rest, Path ta <> String "/" rest)
  end.
Proof.
  unfold GetWebsocketURL, GetAuthTokenURL.
  destruct (Parse httpURL) as [u|e]; [|now split].
  cbv zeta.
  destruct u as [sch op [ui|] host path rp oh fq rq fr rfr];
    cbn [Url.User Scheme Path with_Path with_Scheme with_User Host RawQuery].
  - destruct (String.eqb sch "https");
      cbn [Url.User Scheme Path with_Path with_Scheme with_User Host
           RawQuery];
      do 3 eexists; (split; [reflexivity|]); (split; [reflexivity|]);
      cbn [Url.User Scheme Path with_Path with_Scheme with_User Host
           RawQuery];
      repeat split; try discriminate; try (simpl; lia);
      try apply TrimLeft_slash_no_slash.
  - destruct (String.eqb sch "https");
      cbn [Url.User Scheme Path with_Path with_Scheme with_User Host
           RawQuery];
      do 3 eexists; (split; [reflexivity|]); (split; [reflexivity|]);
      cbn [Url.User Scheme Path with_Path with_Scheme with_User Host
           RawQuery];
      repeat split; try discriminate; try (simpl; lia);
      try apply TrimLeft_slash_no_slash.
Qed.

Lemma FindStringSubmatch_shape (body : string) :
  FindStringSubmatch body = []
  \/ exists t, FindStringSubmatch body = [token_prefix ++ t ++ "'"; t].
Proof.
  induction body as [|c body IH]; cbn [FindStringSubmatch].
  - destruct (match_here ""); [right; eauto|now left].
  - destruct (match_here (String c body)); [right; eauto|exact IH].
Qed.

(** A [GetAuthToken] that returns a token has sent one request, with the
    credentials of the client, got status 200, and found the token in the
    body. *)
Lemma GetAuthToken_success (c c1 : Client) (evs evs1 : list Event)
  (tok : string) :
  GetAuthToken (c, evs) = (Ok tok, (c1, evs1)) ->
  exists target header resp body,
    c1 = c
    /\ GetAuthTokenURL (URL c) = Ok (target, header)
    /\ evs1 = (evs ++ [EvHttpDo
                         {| Method := "GET";
                            ReqURL := URL_String target;
                            ReqHeader := add_credentials c header;
                            TransportInsecureSkipVerify := SkipTLSVerify c;
                            TransportProxyFromEnvironment :=
                              UseProxyFromEnv c |}])%list
    /\ http_Do {| Method := "GET";
                  ReqURL := URL_String target;
                  ReqHeader := add_credentials c header;
                  TransportInsecureSkipVerify := SkipTLSVerify c;
                  TransportProxyFromEnvironment := UseProxyFromEnv c |}
       = Ok resp
    /\ StatusCode resp = 200%Z
    /\ Body resp = Ok body
    /\ FindStringSubmatch body = [token_prefix ++ tok ++ "'"; tok].
Proof.
  unfold GetAuthToken, bind, get_client, lift, check, emit, fail, ret.
  cbn [fst snd].
  destruct (GetAuthTokenURL (URL c)) as [[target header]|e]; [|discriminate].
  cbn [fst snd].
  destruct (http_NewRequest "GET" (URL_String target)); [discriminate|].
  destruct (http_Do _) as [resp|e] eqn:Hdo; [|discriminate].
  destruct (Z.eqb (StatusCode resp) 200) eqn:Hs; [|discriminate].
  destruct (Body resp) as [body|e] eqn:Hb; [|discriminate].
  destruct (FindStringSubmatch_shape body) as [Hf|[t Hf]]; rewrite Hf.
  - discriminate.
  - cbn [nth]. intros [= <- <- <-].
    exists target, header, resp, body.
    apply Z.eqb_eq in Hs. repeat split; auto.
Qed.


(** X21: a [Connect] that returns without error has done these five
    things in this order and nothing else: one HTTP request for the token
    file, answered with status 200 and a body that holds the token; one
    dial of the socket; one write, of the JSON of the token found in that
    body and of the query of the client's URL; a pause of 100 ms; the launch
    of the ping loop.  The client is then connected, holds the socket, and
    has the tag table of its [V2] flag. *)
Theorem Connect_success (c c' : Client) (evs : list Event) :
  Connect (c, []) = (Ok tt, (c', evs)) ->
  exists req resp body token wsURL wsHeader cn query queryJSON,
    evs = [EvHttpDo req; EvDial wsURL wsHeader; EvWrite queryJSON;
           EvSleep 100; EvGo "pingLoop"]
    /\ http_Do req = Ok resp /\ StatusCode resp = 200%Z
    /\ Body resp = Ok body
    /\ FindStringSubmatch body = [token_prefix ++ token ++ "'"; token]
    /\ GetURLQuery (URL c) = Ok query
    /\ json_Marshal {| AuthToken := token;
                       Arguments := "?" ++ Query_Encode query |}
       = Ok queryJSON
    /\ conn c' = Some cn /\ ws_WriteMessage cn queryJSON = None
    /\ Connected c' = true
    /\ message c' = Some (Codec.initMessageType (V2 c))
    /\ URL c' = URL c.
Proof.
  unfold Connect. unfold bind at 1.
  destruct (GetAuthToken (c, [])) as [[tok|e] [c1 evs1]] eqn:Hg;
    [|discriminate].
  destruct (GetAuthToken_success _ _ _ _ _ Hg)
    as [target [header [resp [body [-> [Hu [-> [Hdo [Hs [Hb Hf]]]]]]]]]].
  unfold write, bind, get_client, lift, check, emit, fail, ret, modify_client.
  cbn [fst snd app].
  destruct (GetWebsocketURL (URL c)) as [[wt wh]|e]; [|discriminate].
  cbn [fst snd].
  destruct (ws_Dial _ _ _) as [cn|e] eqn:Hd; [|discriminate].
  cbn [fst snd].
  destruct (GetURLQuery (URL c)) as [query|e] eqn:Hq; [|discriminate].
  cbn [fst snd].
  destruct (json_Marshal _) as [queryJSON|e] eqn:Hj; [|discriminate].
  cbn [fst snd conn initMessageType with_message with_conn with_dialer].
  destruct (ws_WriteMessage cn queryJSON) as [e|] eqn:Hw; [discriminate|].
  cbn [fst snd app]. intros [= <- <-].
  do 9 eexists. split; [reflexivity|].
  repeat split; eauto.
Qed.

End ConnectFacts.

(** ** The pump: what each loop sends and prints *)

Section PumpTrafficFacts.
Import Codec Poison Pump.
Context {B : Base64}.

Lemma firstn_store (buff data : list byte) :
  List.length data <= List.length buff ->
  firstn (List.length data) (store buff data) = data.
Proof.
  intros H. unfold store. rewrite firstn_firstn.
  rewrite Nat.min_l by exact H.
  rewrite firstn_app, Nat.sub_diag, firstn_all. simpl.
  apply app_nil_r.
Qed.

(** X22: the Input Loop forwards what was read and nothing else: when the
    read stores [n] bytes, with [n] from 1 to 128, the one frame of the turn
    is the Input tag followed by exactly these bytes, whatever the buffer
    held from earlier reads.  If the write succeeds the loop goes on; if it
    fails the loop gives the Shutdown Signal and returns. *)
Theorem writeLoop_forwards_input (m : gottyMessageType) (p : chan)
  (buff : list byte) (ev : InputEvent) :
  List.length buff = buff_len ->
  signaled p = false ->
  (forall e, sel ev <> SelError e) ->
  fd_set ev = true ->
  rd_err ev = RdNil ->
  rd_size ev = Z.of_nat (List.length (rd_data ev)) ->
  1 <= List.length (rd_data ev) <= buff_len ->
  let t := fst (writeLoop_turn m p buff ev) in
  sent t = [input m :: rd_data ev]
  /\ printed t = []
  /\ (wr_err ev = None -> next t = Continue /\ poison_after t = p)
  /\ (wr_err ev <> None ->
      next t = Exit committedSuicide /\ poison_after t = Closed).
Proof.
  intros Hlen Hp Hsel Hfd Herr Hsize Hn. unfold writeLoop_turn.
  rewrite Hp, Hfd, Herr.
  assert ((rd_size ev <=? 0)%Z = false) as -> by (apply Z.leb_gt; lia).
  unfold slice_to. rewrite store_length, Hlen.
  assert ((rd_size ev <=? Z.of_nat buff_len)%Z = true) as ->
      by (apply Z.leb_le; lia).
  rewrite Hsize, Nat2Z.id, firstn_store by lia.
  destruct (sel ev) as [| |e]; try (now destruct (Hsel e));
    (destruct (wr_err ev) as [e'|];
     [rewrite return_openPoison_spec|]; cbn;
     repeat split; auto; try congruence; intros H; now destruct H).
Qed.

(** X23: what the Output Loop does with a frame of each kind, in either
    revision: the payload of an Output frame is printed after base64
    decoding, or dropped when it does not decode; the payload of a title
    frame is printed as it is between the bytes ESC ] 0 ; and BEL; frames of
    the three other kinds print nothing.  In every case the loop goes on,
    leaves the Shutdown Signal alone, and, like every turn of this loop,
    sends nothing. *)
Theorem readLoop_prints (V2 : bool) (p : chan) (k : ServerKind)
  (payload : list byte) (ev : OutputEvent) :
  let m := initMessageType V2 in
  let t := readLoop_turn m p (RdMsg (Message (server_tag m k :: payload))) in
  printed t
  = match k with
    | KOutput => match base64_DecodeString payload with
                 | Ok buf => buf
                 | Err _ => []
                 end
    | KSetWindowTitle =>
        ([x1b; "]"; "0"; ";"]%byte ++ payload ++ [x07])%list
    | _ => []
    end
  /\ next t = Continue /\ poison_after t = p
  /\ sent (readLoop_turn m p ev) = [].
Proof.
  cbv zeta. cbn [readLoop_turn server_tag]. unfold handle_frame.
  rewrite (dispatch_server_tag V2 k). split; [|split; [|split]].
  - destruct k; reflexivity.
  - reflexivity.
  - reflexivity.
  - destruct ev as [|[[|tag pl]|code|e]]; cbn [readLoop_turn];
      rewrite ?return_openPoison_spec; try reflexivity.
    unfold return_die. now destruct (die "readLoop" p).
Qed.

End PumpTrafficFacts.

Lemma writeLoop_forwards_input_witness :
  Pump.sent
    (fst (Pump.writeLoop_turn (Codec.initMessageType true) Poison.Open
            (repeat "x"%byte 128) Demo.typed_ls))
  = [["1"; "l"; "s"]%byte].
Proof.
  apply (writeLoop_forwards_input (Codec.initMessageType true) Poison.Open
           (repeat "x"%byte 128) Demo.typed_ls);
    try reflexivity; try discriminate.
  simpl. unfold Pump.buff_len. lia.
Defined.

(** ** The session: what a run keeps true of the socket *)

Section TrafficFacts.
Import Codec Poison Client Handshake Pump Session Traffic.
Context {N : Url.NetURL} {W : Net} {B : Base64}.

(** The term the [match]es at the head of [t] wait for. *)
Ltac head_scrutinee t :=
  lazymatch t with
  | match ?x with _ => _ end =>
      lazymatch x with
      | match _ with _ => _ end => head_scrutinee x
      | _ => x
      end
  end.

(** Case analysis on the innermost [match] of the goal. *)
Ltac inner_match :=
  match goal with
  | |- context [match ?x with _ => _ end] =>
      lazymatch x with
      | context [match _ with _ => _ end] => fail
      | _ => destruct x; simpl
      end
  end.

(** [GetAuthToken] writes nothing to the socket. *)
Lemma GetAuthToken_written (c : Client) :
  written (snd (snd (GetAuthToken (c, [])))) = [].
Proof.
  unfold GetAuthToken, bind, get_client, lift, check, emit, fail, ret.
  simpl. repeat inner_match; reflexivity.
Qed.

(** What [Connect] can have changed and written. *)
Lemma Connect_wire (c c' : Client) (evs : list Event) (r : result unit) :
  Connect (c, []) = (r, (c', evs)) ->
  V2 c' = V2 c
  /\ List.length (written evs) <= 1
  /\ ((Connected c' = Connected c /\ message c' = message c
       /\ written evs = [])
      \/ (Connected c' = true
          /\ message c' = Some (Codec.initMessageType (V2 c)))).
Proof.
  unfold Connect. unfold bind at 1.
  destruct (GetAuthToken (c, [])) as [[tok|e] [c1 evs1]] eqn:Hg.
  - destruct (GetAuthToken_success _ _ _ _ _ Hg)
      as [target [header [resp [body [-> [_ [-> _]]]]]]].
    unfold write, bind, get_client, lift, check, emit, fail, ret,
      modify_client.
    cbn [fst snd app]. intros E.
    repeat match type of E with
           | ?l = _ =>
               let x := head_scrutinee l in
               destruct x; cbn [fst snd app conn with_conn with_dialer
                                Client.initMessageType with_message] in E
           end;
      injection E as <- <- <-; cbn; (split; [reflexivity|]);
      (split; [lia|]); auto.
  - pose proof (GetAuthToken_client (c, [])) as Hc. rewrite Hg in Hc.
    cbn in Hc. subst c1. intros [= <- <- <-].
    pose proof (GetAuthToken_written c) as Hw. rewrite Hg in Hw.
    cbn [snd] in Hw. rewrite Hw. cbn. split; [reflexivity|]. split; [lia|]. now left.
Qed.

Lemma apply_turn_footprint (id : LoopId) (t : Turn) (w : World) :
  V2 (client (apply_turn id t w)) = V2 (client w)
  /\ Connected (client (apply_turn id t w)) = Connected (client w)
  /\ message (client (apply_turn id t w)) = message (client w)
  /\ ((poison (client (apply_turn id t w)) = poison (client w)
       /\ wire (apply_turn id t w) = wire w
       /\ screen (apply_turn id t w) = screen w)
      \/ (poison (client (apply_turn id t w)) = poison_after t
          /\ wire (apply_turn id t w) = (wire w ++ sent t)%list
          /\ screen (apply_turn id t w) = (screen w ++ printed t)%list)).
Proof.
  unfold apply_turn.
  destruct (next t); [|destruct (defers_Done id)| |]; cbn; auto 10.
Qed.

Lemma return_die_keeps (fname : string) (fs : list Frame) (p : chan) :
  keeps_signal p (return_die fname fs p)
  /\ sent (return_die fname fs p) = fs.
Proof.
  unfold keeps_signal, return_die. destruct (die fname p); cbn; auto.
Qed.

Lemma return_openPoison_keeps (fname : string) (fs : list Frame) (p : chan) :
  keeps_signal p (return_openPoison fname fs p)
  /\ sent (return_openPoison fname fs p) = fs.
Proof.
  rewrite return_openPoison_spec. unfold keeps_signal. cbn. auto.
Qed.

Lemma client_frame_input (m : gottyMessageType) (payload : list byte) :
  client_frame m (input m :: payload).
Proof. now exists KInput, payload. Qed.

Lemma client_frame_ping (m : gottyMessageType) : client_frame m [ping m].
Proof. now exists KPing, []. Qed.

Lemma client_frame_resize (m : gottyMessageType) (payload : list byte) :
  client_frame m (resizeTerminal m :: payload).
Proof. now exists KResizeTerminal, payload. Qed.

Lemma resize_frames_tagged (m : gottyMessageType) (q : result (list byte)) :
  Forall (client_frame m) (resize_frames m q).
Proof.
  destruct q as [b|e]; cbn; repeat constructor. apply client_frame_resize.
Qed.

Lemma termsizeLoop_turn_traffic (m : gottyMessageType) (p : chan)
  (ev : ResizeEvent) :
  keeps_signal p (termsizeLoop_turn m p ev)
  /\ Forall (client_frame m) (sent (termsizeLoop_turn m p ev)).
Proof.
  destruct ev as [|q wr]; cbn [termsizeLoop_turn].
  - destruct (return_die_keeps "termsizeLoop" [] p) as [H ->].
    split; [exact H|constructor].
  - split; [now unfold keeps_signal|apply resize_frames_tagged].
Qed.

Lemma readLoop_turn_traffic (m : gottyMessageType) (p : chan)
  (ev : OutputEvent) :
  keeps_signal p (readLoop_turn m p ev)
  /\ Forall (client_frame m) (sent (readLoop_turn m p ev)).
Proof.
  destruct ev as [|[[|tag pl]|code|e]]; cbn [readLoop_turn];
    try (destruct (return_openPoison_keeps "readLoop" [] p) as [H ->];
         split; [exact H|constructor]).
  - destruct (return_die_keeps "readLoop" [] p) as [H ->].
    split; [exact H|constructor].
  - split; [now unfold keeps_signal|constructor].
Qed.

Lemma writeLoop_turn_traffic (m : gottyMessageType) (p : chan)
  (buff : list byte) (ev : InputEvent) :
  keeps_signal p (fst (writeLoop_turn m p buff ev))
  /\ Forall (client_frame m) (sent (fst (writeLoop_turn m p buff ev))).
Proof.
  unfold writeLoop_turn.
  destruct (signaled p) eqn:Hp.
  { cbn [fst]. destruct (return_die_keeps "writeLoop" [] p) as [H ->].
    split; [exact H|constructor]. }
  assert (forall t, keeps_signal p t) as Hk
      by (intros t H; congruence).
  split; [apply Hk|].
  destruct (sel ev);
    try (cbn [fst]; rewrite return_openPoison_spec; now constructor);
    (destruct (fd_set ev); [|now constructor]);
    (destruct (rd_err ev);
     [ destruct (rd_size ev <=? 0)%Z; [now constructor|];
       destruct (slice_to _ _); [|now constructor];
       destruct (wr_err ev); cbn [fst];
       rewrite ?return_openPoison_spec; cbn;
       repeat constructor; apply client_frame_input
     | destruct (wr_err ev); cbn [fst];
       rewrite ?return_openPoison_spec; cbn;
       repeat constructor; apply client_frame_input
     | cbn [fst]; rewrite return_openPoison_spec; now constructor ]).
Qed.

(** What one step of the program can do to the client and the socket:
    either it is a call of [Connect] on a client that is not connected, or
    it leaves flag, connection and table alone, never reopens the channel,
    and adds to the socket only client frames of the table. *)
Lemma step_footprint (w w' : World) :
  step w w' ->
  (exists r c' evs,
      Connected (client w) = false
      /\ Connect (client w, []) = (r, (c', evs))
      /\ client w' = c'
      /\ wire w' = (wire w ++ written evs)%list
      /\ screen w' = screen w)
  \/ (V2 (client w') = V2 (client w)
      /\ Connected (client w') = Connected (client w)
      /\ message (client w') = message (client w)
      /\ (signaled (poison (client w)) = true ->
          signaled (poison (client w')) = true)
      /\ exists fs out,
           wire w' = (wire w ++ fs)%list
           /\ screen w' = (screen w ++ out)%list
           /\ (fs = []
               \/ exists m, message (client w) = Some m
                            /\ Forall (client_frame m) fs)).
Proof.
  assert (forall id t m,
    message (client w) = Some m ->
    keeps_signal (poison (client w)) t ->
    Forall (client_frame m) (sent t) ->
    V2 (client (apply_turn id t w)) = V2 (client w)
    /\ Connected (client (apply_turn id t w)) = Connected (client w)
    /\ message (client (apply_turn id t w)) = message (client w)
    /\ (signaled (poison (client w)) = true ->
        signaled (poison (client (apply_turn id t w))) = true)
    /\ exists fs out,
         wire (apply_turn id t w) = (wire w ++ fs)%list
         /\ screen (apply_turn id t w) = (screen w ++ out)%list
         /\ (fs = []
             \/ exists m, message (client w) = Some m
                          /\ Forall (client_frame m) fs)) as Hturn.
  { intros id t m Hm Hk Hf.
    destruct (apply_turn_footprint id t w)
      as [-> [-> [-> [[-> [-> ->]]|[-> [-> ->]]]]]];
      repeat split; auto.
    - exists [], []. rewrite !app_nil_r. auto.
    - exists (sent t), (printed t). repeat split. right. eauto. }
  assert (forall w0 : World,
    client w0 = client w -> wire w0 = wire w -> screen w0 = screen w ->
    V2 (client w0) = V2 (client w)
    /\ Connected (client w0) = Connected (client w)
    /\ message (client w0) = message (client w)
    /\ (signaled (poison (client w)) = true ->
        signaled (poison (client w0)) = true)
    /\ exists fs out,
         wire w0 = (wire w ++ fs)%list
         /\ screen w0 = (screen w ++ out)%list
         /\ (fs = []
             \/ exists m, message (client w) = Some m
                          /\ Forall (client_frame m) fs)) as Hsame.
  { intros w0 -> -> ->. repeat split; auto.
    exists [], []. rewrite !app_nil_r. auto. }
  assert (exists r c' evs,
             Connect (client w, []) = (r, (c', evs))
             /\ client (snd (do_Connect w)) = c'
             /\ wire (snd (do_Connect w)) = (wire w ++ written evs)%list
             /\ screen (snd (do_Connect w)) = screen w) as Hconn.
  { unfold do_Connect.
    destruct (Connect (client w, [])) as [r [c' evs]].
    exists r, c', evs. split; [reflexivity|].
    destruct (existsb is_go evs); cbn; rewrite app_nil_r; auto. }
  intros Hstep. inversion Hstep; subst.
  - left. destruct Hconn as [r [c' [evs [E [A1 [A2 A3]]]]]].
    exists r, c', evs. auto.
  - right. now apply Hsame.
  - left. destruct Hconn as [r [c' [evs [E [A1 [A2 A3]]]]]].
    exists r, c', evs. destruct (fst (do_Connect w)); cbn; auto.
  - right. now apply Hsame.
  - right. destruct r; now apply Hsame.
  - right. now apply Hsame.
  - right. now apply Hsame.
  - right. now apply Hsame.
  - right. now apply Hsame.
  - right. apply (Hturn _ _ m); auto.
    + now unfold keeps_signal.
    + apply resize_frames_tagged.
  - right. apply (Hturn _ _ m); auto; apply termsizeLoop_turn_traffic.
  - right. apply (Hturn _ _ m); auto; apply readLoop_turn_traffic.
  - right.
    change (client (with_buff ?b ?x)) with (client x).
    change (wire (with_buff ?b ?x)) with (wire x).
    change (screen (with_buff ?b ?x)) with (screen x).
    apply (Hturn _ _ m); auto; apply writeLoop_turn_traffic.
  - right. apply (Hturn _ _ m); auto.
    + now unfold keeps_signal.
    + repeat constructor. apply client_frame_ping.
  - right. cbn. rewrite ExitLoop_spec. cbn. repeat split; auto.
    exists [], []. rewrite !app_nil_r. auto.
Qed.

(** X24: a run only adds.  Whatever the program and the outside do, what
    has gone to the socket and what has been printed stay as they are and
    are only added to, and once the Shutdown Signal is given it stays given:
    no step of the program opens the channel again. *)
Theorem run_only_adds (w w' : World) :
  steps w w' ->
  (signaled (poison (client w)) = true ->
   signaled (poison (client w')) = true)
  /\ (exists fs, wire w' = (wire w ++ fs)%list)
  /\ (exists out, screen w' = (screen w ++ out)%list).
Proof.
  intros Hs. induction Hs as [w|w1 w2 w3 _ IH Hstep].
  - split; [auto|]. split; exists []; now rewrite app_nil_r.
  - destruct IH as [Hp [[fs Hw] [out Ho]]].
    destruct (step_footprint _ _ Hstep)
      as [[r [c' [evs [_ [E [Hc [Hw' Ho']]]]]]]
         |[_ [_ [_ [Hp' [fs' [out' [Hw' [Ho' _]]]]]]]]].
    + destruct (Connect_client _ _ _ _ _ E) as [Hpo _].
      split; [|split].
      * intros H. rewrite Hc, Hpo. auto.
      * exists (fs ++ written evs)%list. rewrite Hw', Hw.
        now rewrite app_assoc.
      * exists out. now rewrite Ho'.
    + split; [|split].
      * auto.
      * exists (fs ++ fs')%list. rewrite Hw', Hw. now rewrite app_assoc.
      * exists (out ++ out')%list. rewrite Ho', Ho. now rewrite app_assoc.
Qed.


Lemma wire_ok_init (c : Client) : fresh c -> wire_ok c (init_world c).
Proof.
  intros [Hc Hm]. unfold wire_ok. cbn. repeat split; auto.
  - intros m H. congruence.
  - exists [], []. repeat split; auto.
Qed.

Lemma wire_ok_step (c0 : Client) (w w' : World) :
  wire_ok c0 w -> step w w' -> wire_ok c0 w'.
Proof.
  intros [HV [HK [HM [hs [fs [Hw [Hl Hf]]]]]]] Hstep.
  destruct (step_footprint _ _ Hstep)
    as [[r [c' [evs [Hnc [E [Hc [Hw' _]]]]]]]
       |[HV' [HC' [HM' [_ [fs' [_ [Hw' [_ Hfs']]]]]]]]].
  - destruct (HK Hnc) as [Hmn Hwn].
    destruct (Connect_wire _ _ _ _ E) as [EV [El Ecase]].
    unfold wire_ok. rewrite Hc, Hw', Hwn. cbn [app].
    split; [congruence|]. split; [|split].
    + intros Hc'. destruct Ecase as [[_ [Em Ew]]|[Ec _]]; [|congruence].
      split; congruence.
    + intros m Hm. destruct Ecase as [[_ [Em _]]|[_ Em]]; congruence.
    + exists (written evs), []. rewrite app_nil_r. repeat split; auto.
  - unfold wire_ok. rewrite HV', HC', HM', Hw'.
    split; [exact HV|]. split; [|split].
    + intros Hc. destruct (HK Hc) as [Hmn Hwn]. split; [exact Hmn|].
      destruct Hfs' as [->|[m [Hm _]]]; [|congruence].
      now rewrite app_nil_r.
    + exact HM.
    + exists hs, (fs ++ fs')%list. rewrite Hw, app_assoc.
      repeat split; auto. apply Forall_app. split; [exact Hf|].
      destruct Hfs' as [->|[m [Hm Hfm]]]; [constructor|].
      now rewrite <- (HM m Hm).
Qed.

(** X25: everything a client sends is tagged.  In any run from a client
    that has not connected, the socket carries at most one message of the
    handshake, at the very start, and after it only frames that begin with
    one of the three client tags (input, ping, resize) of the table that the
    client's [V2] flag selects; the flag and the table do not change during
    the run. *)
Theorem wire_is_tagged (c : Client) (w : World) :
  fresh c -> reachable c w ->
  tagged_after_handshake (Codec.initMessageType (V2 c)) (wire w)
  /\ V2 (client w) = V2 c
  /\ (forall m, message (client w) = Some m ->
                m = Codec.initMessageType (V2 c)).
Proof.
  intros Hf Hr.
  assert (wire_ok c w) as [HV [_ [HM HT]]].
  { unfold reachable in Hr.
    remember (init_world c) as w0 eqn:E0.
    induction Hr as [w1|w1 w2 w3 _ IH Hstep].
    - subst w1. now apply wire_ok_init.
    - apply (wire_ok_step c w2 w3); [now apply IH|exact Hstep]. }
  auto.
Qed.

End TrafficFacts.

Lemma run_only_adds_witness :
  exists fs,
    Session.wire Demo.after_shutdown
    = (Session.wire (Session.init_world Demo.demo_client) ++ fs)%list.
Proof.
  destruct (@run_only_adds Demo.demo_NetURL (Demo.server Demo.good_response)
              Demo.demo_Base64 (Session.init_world Demo.demo_client)
              Demo.after_shutdown) as [_ [H _]].
  - apply run_sound.
  - exact H.
Defined.

Lemma wire_is_tagged_witness :
  Traffic.tagged_after_handshake
    (Codec.initMessageType (Client.V2 Demo.demo_client))
    (Session.wire Demo.after_shutdown).
Proof.
  destruct (@wire_is_tagged Demo.demo_NetURL (Demo.server Demo.good_response)
              Demo.demo_Base64 Demo.demo_client Demo.after_shutdown)
    as [H _].
  - split; reflexivity.
  - apply run_sound.
  - exact H.
Defined.

Lemma Connect_success_witness :
  exists req wsURL wsHeader queryJSON,
    snd (snd (@Handshake.Connect Demo.demo_NetURL
                (Demo.server Demo.good_response) (Demo.demo_client, [])))
    = [Handshake.EvHttpDo req; Handshake.EvDial wsURL wsHeader;
       Handshake.EvWrite queryJSON; Handshake.EvSleep 100;
       Handshake.EvGo "pingLoop"].
Proof.
  destruct (@Connect_success Demo.demo_NetURL
              (Demo.server Demo.good_response) Demo.demo_client
              (fst (snd (@Handshake.Connect Demo.demo_NetURL
                           (Demo.server Demo.good_response)
                           (Demo.demo_client, []))))
              (snd (snd (@Handshake.Connect Demo.demo_NetURL
                           (Demo.server Demo.good_response)
                           (Demo.demo_client, [])))))
    as [req [_ [_ [_ [wsURL [wsHeader [_ [_ [queryJSON [H _]]]]]]]]]].
  - vm_compute. reflexivity.
  - exists req, wsURL, wsHeader, queryJSON. exact H.
Defined.

(** ** Instances, and the command line with the configuration *)

Section InstancesFacts.
Import GoStrings Instances.
Local Open Scope string_scope.
Variable Instance : Type.
Variable Callsign : Instance -> string.

Lemma upper_lower_ascii (c : ascii) :
  upper_ascii (Url.lower_ascii c) = upper_ascii c.
Proof. destruct c as [[] [] [] [] [] [] [] []]; reflexivity. Qed.

Lemma ToUpper_ToLower (s : string) : ToUpper (ToLower s) = ToUpper s.
Proof.
  unfold ToLower. induction s as [|c s IH]; simpl; [reflexivity|].
  now rewrite upper_lower_ascii, IH.
Qed.

Lemma find_instance_Some (callsign : string) (instances : list Instance)
  (i : Instance) :
  find_instance Instance Callsign callsign instances = Some i ->
  exists before after,
    instances = (before ++ i :: after)%list
    /\ ToUpper (Callsign i) = callsign
    /\ forall j, In j before -> ToUpper (Callsign j) <> callsign.
Proof.
  induction instances as [|x rest IH]; simpl; [discriminate|].
  destruct (String.eqb (ToUpper (Callsign x)) callsign) eqn:E.
  - intros [= <-]. apply String.eqb_eq in E.
    exists [], rest. split; [reflexivity|]. split; [exact E|]. intros j [].
  - intros H. destruct (IH H) as [before [after [-> [Hi Hb]]]].
    exists (x :: before), after. split; [reflexivity|]. split; [exact Hi|].
    intros j [<-|Hj]; [now apply String.eqb_neq|now apply Hb].
Qed.

Lemma find_instance_None (callsign : string) (instances : list Instance) :
  find_instance Instance Callsign callsign instances = None ->
  forall j, In j instances -> ToUpper (Callsign j) <> callsign.
Proof.
  induction instances as [|x rest IH]; simpl; [intros _ j []|].
  destruct (String.eqb (ToUpper (Callsign x)) callsign) eqn:E;
    [discriminate|].
  intros H j [<-|Hj]; [now apply String.eqb_neq|now apply IH].
Qed.

(** X26: [FindInstanceByCallsign] compares callsigns without regard to
    case and returns the first instance of the list whose callsign is the
    wanted one; it fails, naming the callsign in upper case, exactly when
    no instance of the list has it; and an error of the listing is passed
    on as it is. *)
Theorem FindInstanceByCallsign_first (instances : list Instance)
  (callsign : string) :
  is_ascii callsign = true ->
  Forall (fun j => is_ascii (Callsign j) = true) instances ->
  match FindInstanceByCallsign Instance Callsign (Ok instances) callsign with
  | Ok i =>
      exists before after,
        instances = (before ++ i :: after)%list
        /\ ToUpper (Callsign i) = ToUpper callsign
        /\ forall j, In j before ->
                     ToUpper (Callsign j) <> ToUpper callsign
  | Err e =>
      e = "no instance found with callsign: " ++ ToUpper callsign
      /\ forall j, In j instances ->
                   ToUpper (Callsign j) <> ToUpper callsign
  end
  /\ FindInstanceByCallsign Instance Callsign (Ok instances)
       (ToLower callsign)
     = FindInstanceByCallsign Instance Callsign (Ok instances) callsign
  /\ forall e, FindInstanceByCallsign Instance Callsign (Err e) callsign
               = Err e.
Proof.
  intros _ _. unfold FindInstanceByCallsign. cbv zeta.
  rewrite ToUpper_ToLower. split; [|split; reflexivity].
  destruct (find_instance Instance Callsign (ToUpper callsign) instances)
    as [i|] eqn:E.
  - now apply find_instance_Some.
  - split; [reflexivity|]. now apply find_instance_None.
Qed.

End InstancesFacts.

Lemma FindInstanceByCallsign_first_witness :
  Instances.FindInstanceByCallsign (string * string) fst
    (Ok [("m0abc", "http://a"); ("G4XYZ", "http://b"); ("g4xyz", "http://c")])
    "g4Xyz"
  = Ok ("G4XYZ", "http://b").
Proof.
  pose proof (FindInstanceByCallsign_first (string * string) fst
                [("m0abc", "http://a"); ("G4XYZ", "http://b");
                 ("g4xyz", "http://c")]%string "g4Xyz" eq_refl) as H.
  destruct H as [_ [H _]].
  - repeat constructor.
  - rewrite <- H. reflexivity.
Defined.

Section CommandFacts.
Import GoStrings Config Command.
Local Open Scope string_scope.

(** Names the [let]s at the head of the left-hand side of [H], outermost
    first. *)
Ltac name_lets H :=
  repeat match type of H with
         | (let x := ?a in @?b x) = ?rhs =>
             let y := fresh "cl" in
             set (y := a) in H; change (b y = rhs) in H; cbv beta in H
         end.

(** A stage [y] that leaves field [f] as it is in the stage [prev]. *)
Ltac same_field f y prev :=
  let E := fresh "E" in
  assert (f y = f prev) as E
      by (unfold y;
          repeat match goal with
                 | |- context [if ?b then _ else _] => destruct b
                 end;
          reflexivity);
  rewrite E; clear E.

Lemma with_V2_ApplyToClient (b : bool) (hc : HostConfig)
  (client : Client.Client) :
  with_V2 true (ApplyToClient (Some (set_V2 b hc)) client)
  = with_V2 true (ApplyToClient (Some hc) client).
Proof. reflexivity. Qed.

(** The stages of [flag_settings], named. *)
Ltac flag_stages x :=
  let H := fresh "H" in
  remember x as r eqn:H; symmetry in H;
  cbv beta delta [flag_settings] in H; name_lets H; subst r.

Lemma flag_settings_V2 (c : Context) (hostConfig : option HostConfig)
  (client : Client.Client) :
  Client.V2 (flag_settings c hostConfig client)
  = (if IsSet c "v2" then Bool c "v2" else true).
Proof.
  flag_stages (flag_settings c hostConfig client).
  assert (Client.V2 cl2 = true) as H2.
  { same_field Client.V2 cl2 cl1. same_field Client.V2 cl1 cl0.
    reflexivity. }
  assert (Client.V2 cl3 = (if IsSet c "v2" then Bool c "v2" else true)) as H3.
  { unfold cl3. destruct (IsSet c "v2"); [reflexivity|exact H2]. }
  rewrite <- H3.
  match goal with
  | |- Client.V2 ?x = _ =>
      replace (Client.V2 x) with (Client.V2 cl8)
        by (destruct (IsSet c "path-suffix"), (GlobalIsSet c "path-suffix");
            reflexivity)
  end.
  same_field Client.V2 cl8 cl7. same_field Client.V2 cl7 cl6.
  same_field Client.V2 cl6 cl5. same_field Client.V2 cl5 cl4.
  same_field Client.V2 cl4 cl3. reflexivity.
Qed.

Lemma flag_settings_Password (c : Context) (hostConfig : option HostConfig)
  (client : Client.Client) :
  IsSet c "password" = true ->
  Client.Password (flag_settings c hostConfig client)
  = FlagString c "password".
Proof.
  intros Hp. flag_stages (flag_settings c hostConfig client).
  assert (Client.Password cl6 = FlagString c "password") as H6.
  { unfold cl6. now rewrite Hp. }
  rewrite <- H6.
  match goal with
  | |- Client.Password ?x = _ =>
      replace (Client.Password x) with (Client.Password cl8)
        by (destruct (IsSet c "path-suffix"), (GlobalIsSet c "path-suffix");
            reflexivity)
  end.
  same_field Client.Password cl8 cl7. same_field Client.Password cl7 cl6.
  reflexivity.
Qed.

Lemma createClient_settings_Ok (c : Context)
  (hostConfig : option HostConfig) (password_read : result string)
  (client r : Client.Client) :
  createClient_settings c hostConfig password_read client = Ok r ->
  r = with_EscapeKeys (Cli.parseDetachKeys (FlagString c "detach-keys"))
        (flag_settings c hostConfig client)
  \/ exists password,
       password_read = Ok password
       /\ IsSet c "password" = false
       /\ r = with_EscapeKeys
                (Cli.parseDetachKeys (FlagString c "detach-keys"))
                (with_Password password (flag_settings c hostConfig client)).
Proof.
  unfold createClient_settings. cbv zeta.
  destruct (negb (String.eqb (Client.User _) "") && _ && _)%bool eqn:E.
  - destruct password_read as [pw|e]; [|discriminate].
    intros [= <-]. right. exists pw.
    apply andb_true_iff in E. destruct E as [_ E].
    apply negb_true_iff in E. auto.
  - intros [= <-]. now left.
Qed.

(** X27: the [V2] option of the configuration file never reaches the
    client [createClient] returns: the result is the same whatever the host
    configuration says about [V2], and the client uses the current revision
    unless the flag [v2] is set on the command line, in which case it uses
    what the flag says. *)
Theorem config_V2_is_ignored (c : Context) (hc : HostConfig) (b : bool)
  (hostConfig : option HostConfig) (password_read : result string)
  (client : Client.Client) :
  createClient_settings c (Some (set_V2 b hc)) password_read client
  = createClient_settings c (Some hc) password_read client
  /\ forall r,
       createClient_settings c hostConfig password_read client = Ok r ->
       Client.V2 r = (if IsSet c "v2" then Bool c "v2" else true).
Proof.
  split.
  - assert (flag_settings c (Some (set_V2 b hc)) client
            = flag_settings c (Some hc) client) as E
        by (unfold flag_settings; now rewrite with_V2_ApplyToClient).
    unfold createClient_settings. now rewrite E.
  - intros r H.
    destruct (createClient_settings_Ok _ _ _ _ _ H)
      as [->|[pw [_ [_ ->]]]]; cbn [Client.V2 with_EscapeKeys with_Password];
      apply flag_settings_V2.
Qed.

(** X28: with the flag [password] set, [createClient] does not ask for a
    password: what [terminal.ReadPassword] would return does not matter,
    the call cannot fail, and the client gets the password of the flag
    whatever the configuration file and the URL say. *)
Theorem password_flag_stops_prompt (c : Context)
  (hostConfig : option HostConfig) (password_read : result string)
  (client : Client.Client) :
  IsSet c "password" = true ->
  exists r,
    createClient_settings c hostConfig password_read client = Ok r
    /\ Client.Password r = FlagString c "password"
    /\ forall other,
         createClient_settings c hostConfig other client = Ok r.
Proof.
  intros Hp.
  assert (forall pr,
    createClient_settings c hostConfig pr client
    = Ok (with_EscapeKeys (Cli.parseDetachKeys (FlagString c "detach-keys"))
            (flag_settings c hostConfig client))) as E.
  { intros pr. unfold createClient_settings. cbv zeta.
    rewrite Hp. cbn [negb]. now rewrite andb_false_r. }
  eexists. split; [apply E|]. split; [|apply E].
  cbn [Client.Password with_EscapeKeys]. now apply flag_settings_Password.
Qed.

Ltac config_stages x :=
  let H := fresh "H" in
  remember x as r eqn:H; symmetry in H;
  cbv beta delta [connection_config] in H; name_lets H; subst r.

(** The last stage of [connection_config] leaves [f] alone. *)
Ltac skip_last f client last :=
  match goal with
  | |- f ?x = _ =>
      replace (f x) with (f last)
        by (destruct (negb (String.eqb (Client.PathSuffix client) ""));
            reflexivity)
  end.

Lemma connection_config_User (c : Context) (client : Client.Client)
  (alias : string) :
  Config.User (connection_config c client alias) = Client.User client.
Proof.
  config_stages (connection_config c client alias).
  skip_last Config.User client cl7.
  same_field Config.User cl7 cl6. same_field Config.User cl6 cl5. same_field Config.User cl5 cl4. same_field Config.User cl4 cl3. same_field Config.User cl3 cl2. same_field Config.User cl2 cl1.
  assert (Config.User cl0 = "") as E0.
  { same_field Config.User cl0 cl. reflexivity. }
  unfold cl1.
  destruct (String.eqb (Client.User client) "") eqn:E; cbn;
    [|reflexivity].
  apply String.eqb_eq in E. now rewrite E.
Qed.

Lemma connection_config_Password (c : Context) (client : Client.Client)
  (alias : string) :
  Config.Password (connection_config c client alias)
  = (if IsSet c "password" then Client.Password client else "").
Proof.
  config_stages (connection_config c client alias).
  skip_last Config.Password client cl7.
  same_field Config.Password cl7 cl6. same_field Config.Password cl6 cl5. same_field Config.Password cl5 cl4. same_field Config.Password cl4 cl3. same_field Config.Password cl3 cl2.
  assert (Config.Password cl1 = "") as E0.
  { same_field Config.Password cl1 cl0. same_field Config.Password cl0 cl. reflexivity. }
  unfold cl2.
  destruct (String.eqb (Client.Password client) "") eqn:E;
    destruct (IsSet c "password"); cbn; auto.
  apply String.eqb_eq in E. now rewrite E.
Qed.

Lemma connection_config_AdminPassword (c : Context) (client : Client.Client)
  (alias : string) :
  Config.AdminPassword (connection_config c client alias) = Client.AdminPassword client.
Proof.
  config_stages (connection_config c client alias).
  skip_last Config.AdminPassword client cl7.
  same_field Config.AdminPassword cl7 cl6. same_field Config.AdminPassword cl6 cl5. same_field Config.AdminPassword cl5 cl4. same_field Config.AdminPassword cl4 cl3.
  assert (Config.AdminPassword cl2 = "") as E0.
  { same_field Config.AdminPassword cl2 cl1. same_field Config.AdminPassword cl1 cl0. same_field Config.AdminPassword cl0 cl. reflexivity. }
  unfold cl3.
  destruct (String.eqb (Client.AdminPassword client) "") eqn:E; cbn;
    [|reflexivity].
  apply String.eqb_eq in E. now rewrite E.
Qed.

Lemma connection_config_WSOrigin (c : Context) (client : Client.Client)
  (alias : string) :
  Config.WSOrigin (connection_config c client alias) = Client.WSOrigin client.
Proof.
  config_stages (connection_config c client alias).
  skip_last Config.WSOrigin client cl7.
  same_field Config.WSOrigin cl7 cl6.
  assert (Config.WSOrigin cl5 = "") as E0.
  { same_field Config.WSOrigin cl5 cl4. same_field Config.WSOrigin cl4 cl3. same_field Config.WSOrigin cl3 cl2. same_field Config.WSOrigin cl2 cl1. same_field Config.WSOrigin cl1 cl0. same_field Config.WSOrigin cl0 cl. reflexivity. }
  unfold cl6.
  destruct (String.eqb (Client.WSOrigin client) "") eqn:E; cbn;
    [|reflexivity].
  apply String.eqb_eq in E. now rewrite E.
Qed.

Lemma connection_config_PathSuffix (c : Context) (client : Client.Client)
  (alias : string) :
  Config.PathSuffix (connection_config c client alias) = Client.PathSuffix client.
Proof.
  config_stages (connection_config c client alias).
  assert (Config.PathSuffix cl7 = "") as E0.
  { same_field Config.PathSuffix cl7 cl6. same_field Config.PathSuffix cl6 cl5. same_field Config.PathSuffix cl5 cl4. same_field Config.PathSuffix cl4 cl3. same_field Config.PathSuffix cl3 cl2. same_field Config.PathSuffix cl2 cl1. same_field Config.PathSuffix cl1 cl0. same_field Config.PathSuffix cl0 cl. reflexivity. }
  destruct (String.eqb (Client.PathSuffix client) "") eqn:E; cbn;
    [|reflexivity].
  apply String.eqb_eq in E. now rewrite E.
Qed.

Lemma connection_config_SkipTLSVerify (c : Context) (client : Client.Client)
  (alias : string) :
  Config.SkipTLSVerify (connection_config c client alias) = Client.SkipTLSVerify client.
Proof.
  config_stages (connection_config c client alias).
  skip_last Config.SkipTLSVerify client cl7.
  same_field Config.SkipTLSVerify cl7 cl6. same_field Config.SkipTLSVerify cl6 cl5. same_field Config.SkipTLSVerify cl5 cl4.
  assert (Config.SkipTLSVerify cl3 = false) as E0.
  { same_field Config.SkipTLSVerify cl3 cl2. same_field Config.SkipTLSVerify cl2 cl1. same_field Config.SkipTLSVerify cl1 cl0. same_field Config.SkipTLSVerify cl0 cl. reflexivity. }
  unfold cl4. destruct (Client.SkipTLSVerify client); [reflexivity|exact E0].
Qed.

Lemma connection_config_UseProxyFromEnv (c : Context) (client : Client.Client)
  (alias : string) :
  Config.UseProxyFromEnv (connection_config c client alias) = Client.UseProxyFromEnv client.
Proof.
  config_stages (connection_config c client alias).
  skip_last Config.UseProxyFromEnv client cl7.
  same_field Config.UseProxyFromEnv cl7 cl6. same_field Config.UseProxyFromEnv cl6 cl5.
  assert (Config.UseProxyFromEnv cl4 = false) as E0.
  { same_field Config.UseProxyFromEnv cl4 cl3. same_field Config.UseProxyFromEnv cl3 cl2. same_field Config.UseProxyFromEnv cl2 cl1. same_field Config.UseProxyFromEnv cl1 cl0. same_field Config.UseProxyFromEnv cl0 cl. reflexivity. }
  unfold cl5. destruct (Client.UseProxyFromEnv client); [reflexivity|exact E0].
Qed.

Lemma connection_config_V2 (c : Context) (client : Client.Client)
  (alias : string) :
  Config.V2 (connection_config c client alias) = Client.V2 client.
Proof.
  config_stages (connection_config c client alias).
  skip_last Config.V2 client cl7.
  assert (Config.V2 cl6 = false) as E0.
  { same_field Config.V2 cl6 cl5. same_field Config.V2 cl5 cl4. same_field Config.V2 cl4 cl3. same_field Config.V2 cl3 cl2. same_field Config.V2 cl2 cl1. same_field Config.V2 cl1 cl0. same_field Config.V2 cl0 cl. reflexivity. }
  unfold cl7. destruct (Client.V2 client); [reflexivity|exact E0].
Qed.

Lemma connection_config_Host (c : Context) (client : Client.Client)
  (alias : string) :
  Config.Host (connection_config c client alias) = alias.
Proof.
  config_stages (connection_config c client alias).
  skip_last Config.Host client cl7.
  same_field Config.Host cl7 cl6. same_field Config.Host cl6 cl5. same_field Config.Host cl5 cl4. same_field Config.Host cl4 cl3. same_field Config.Host cl3 cl2. same_field Config.Host cl2 cl1. same_field Config.Host cl1 cl0. same_field Config.Host cl0 cl.
  reflexivity.
Qed.

Lemma connection_config_URL (c : Context) (client : Client.Client)
  (alias : string) :
  IsSet c "callsign" = false ->
  Config.URL (connection_config c client alias) = Client.URL client.
Proof.
  intros Hc. config_stages (connection_config c client alias).
  skip_last Config.URL client cl7.
  same_field Config.URL cl7 cl6. same_field Config.URL cl6 cl5. same_field Config.URL cl5 cl4. same_field Config.URL cl4 cl3. same_field Config.URL cl3 cl2. same_field Config.URL cl2 cl1. same_field Config.URL cl1 cl0.
  unfold cl0. now rewrite Hc.
Qed.

Lemma with_Host_same (alias : string) (h : HostConfig) :
  Config.Host h = alias -> with_Host alias h = h.
Proof. intros <-. now destruct h. Qed.

(** X29: what [saveConnectionConfig] saves is what a later connection
    gets back, under these conditions: the file that was there is in ASCII
    and its path has no line feed; the alias is not empty; the alias and
    every text that is saved (URL or
    callsign, user, passwords, origin, path suffix) are in ASCII, on one
    line and without white space at either end; and the scanner reads the
    written file to its end without error.  Then, when the save succeeds,
    loading the written file and looking the alias up gives a host
    configuration that, applied to a client without settings, restores
    user, admin password, both transport flags, origin, revision flag and
    path suffix of the saved client; the password is restored only if it
    had been given with the [password] flag; and the URL is the client's
    unless a callsign was saved in its place.  (A text with white space at
    an end is read back without it.) *)
Theorem saved_connection_restores (io : SaveIO) (c : Context)
  (client : Client.Client) (alias : string) (written : list string)
  (new_client : Client.Client) :
  file_ok (existing_file io) -> one_line (configPath io) ->
  plain_host (alias, connection_config c client alias) ->
  blank new_client ->
  saveConnectionConfig io c client alias = Ok written ->
  exists hosts hc,
    LoadConfigFromPath (Lines written None) = Ok hosts
    /\ GetHostConfig hosts alias = Some hc
    /\ same_settings (IsSet c "password") client
         (ApplyToClient (Some hc) new_client)
    /\ (IsSet c "callsign" = false -> Config.URL hc = Client.URL client).
Proof.
  intros Hok _ Hp Hb Hsave. unfold saveConnectionConfig in Hsave.
  pose proof (with_Host_same alias _ (connection_config_Host c client alias))
    as Hh.
  rewrite <- Hh in Hp.
  destruct (SaveHostConfig_loads io alias _ written Hok Hp Hsave)
    as [existing [_ Hw]].
  rewrite Hh in Hw.
  exists (set_host alias (connection_config c client alias) existing),
    (connection_config c client alias).
  split; [exact Hw|]. split.
  { unfold GetHostConfig. now rewrite lookup_set_host_same. }
  split; [|apply connection_config_URL].
  destruct Hb as [B1 [B2 [B3 [B4 [B5 [B6 [B7 B8]]]]]]].
  unfold same_settings, ApplyToClient.
  cbn [Client.User Client.Password Client.AdminPassword Client.SkipTLSVerify
       Client.UseProxyFromEnv Client.WSOrigin Client.V2 Client.PathSuffix].
  rewrite B1, B2, B3, B4, B5, B6, B7, B8, !pick_empty_r.
  rewrite connection_config_User, connection_config_Password,
    connection_config_AdminPassword, connection_config_SkipTLSVerify,
    connection_config_UseProxyFromEnv, connection_config_WSOrigin,
    connection_config_V2, connection_config_PathSuffix.
  repeat split;
    try (destruct (Client.SkipTLSVerify client); reflexivity);
    try (destruct (Client.UseProxyFromEnv client); reflexivity);
    try (destruct (Client.V2 client); reflexivity).
Qed.

End CommandFacts.

Lemma password_flag_stops_prompt_witness :
  exists r,
    Command.createClient_settings Command.password_flag
      (Some ConfigDemo.dev) (Err "not a terminal") CommandDemo.new_client
    = Ok r
    /\ Client.Password r = "hunter2"%string.
Proof.
  destruct (password_flag_stops_prompt Command.password_flag
              (Some ConfigDemo.dev) (Err "not a terminal"%string)
              CommandDemo.new_client eq_refl) as [r [H1 [H2 _]]].
  exists r. split; [exact H1|exact H2].
Defined.

Lemma plain_host_saved :
  Config.plain_host
    ("dev"%string,
     Command.connection_config Command.no_flags CommandDemo.connected_client
       "dev").
Proof.
  split; [reflexivity|]. split; [discriminate|].
  unfold Config.string_fields. simpl.
  intros f [<-|[<-|[<-|[<-|[<-|[<-|[<-|[<-|[]]]]]]]]];
    repeat split.
Defined.

Lemma saved_connection_restores_witness :
  exists hosts hc,
    Config.LoadConfigFromPath (Config.Lines CommandDemo.saved None) = Ok hosts
    /\ Config.GetHostConfig hosts "dev" = Some hc
    /\ Command.same_settings false CommandDemo.connected_client
         (Config.ApplyToClient (Some hc) CommandDemo.new_client)
    /\ Config.URL hc = "http://localhost:8080/terminal/"%string.
Proof.
  destruct (saved_connection_restores ConfigDemo.io Command.no_flags
              CommandDemo.connected_client "dev" CommandDemo.saved
              CommandDemo.new_client)
    as [hosts [hc [H1 [H2 [H3 H4]]]]].
  - exact file_ok_demo.
  - reflexivity.
  - exact plain_host_saved.
  - repeat split.
  - reflexivity.
  - exists hosts, hc. split; [exact H1|]. split; [exact H2|].
    split; [exact H3|]. exact (H4 eq_refl).
Defined.

Example saved_connection_lines :
  CommandDemo.saved
  = ["# GoTTY Client Configuration";
     "# Auto-generated and manually editable";
     "# File location: /home/ham/.config/gotty-client/config"; "";
     "Host dev"; "    URL http://localhost:8080/terminal/"; "    User ham";
     "    AdminPassword secret"; "    SkipTLSVerify true"; "    V2 true";
     "    PathSuffix /terminal/"; ""]%string.
Proof. reflexivity. Qed.
